(** * Controle de Bolão: scoring, name normalisation and prediction import

    A shallow embedding of the Python code of the pool manager:

      - [src/utils/pontuacao.py], the scoring rules (module [Pontuacao]);
      - the same file on the values Python computes with, binary64
        [float]s, unbounded [int]s and [None], with the exceptions
        they raise (modules [Python] and [PontuacaoPython]);
      - the loop body of [calcular_pontuacao_participante] in
        [src/scripts/processar_resultados.py] (module
        [ProcessarResultados]);
      - [src/utils/normalizacao.py], name normalization and fuzzy
        matching (module [Normalizacao]);
      - [inferir_rodada] of [src/utils/parser.py] (module [Parser]);
      - [validar_palpites_contra_tabela] and
        [atualizar_palpites_participante] of
        [src/scripts/importar_palpites.py] (module [ImportarPalpites]);
      - [normalizar_nome_participante] and [normalizar_nome_campeonato]
        of [src/utils/normalizacao.py] (module [NormalizacaoDiretorios]);
      - [normalizar_palpites_times] of
        [src/scripts/importar_palpites.py] (module
        [ImportarPalpitesNomes]);
      - [obter_palpites_participante_rodada],
        [contar_acertos_exatos_por_jogo] and
        [calcular_pontuacao_participante] of
        [src/scripts/processar_resultados.py] (module [ProcessarRodada]);

    followed by the theorems about them, one module of theorems per
    module of definitions.

    Modelling conventions.

    - A Python [dict] used as a struct is a record with the keys of the
      source as field names.  A key whose absence the code provides for
      ([.get] with a default, a test with [in], a goal count that may be
      [None]) is an [option] field, [None] standing for the absent key;
      the values are typed as the data model types them (goal counts are
      integers, names and codes are strings).
    - The rule configuration [regras], a dict from rule name to rule
      dict, is a [gmap string Regra]; the sets of team names are [gset]s.
    - Points and scores are Python numbers.  In [Pontuacao] and the
      modules built on it they are exact rationals ([Q]) and a goal
      count is an [int] or absent: this is the scoring of well-typed
      data up to the rounding of [1.0 / N].  In [PontuacaoPython] they
      are what Python computes: a goal count is absent, [None] or an
      [int], a number is an [int] or a binary64 [float] ([spec_float]
      with precision 53 and maximal exponent 1024), and an expression
      returns a value or raises [TypeError], [OverflowError] or
      [ZeroDivisionError].  What is claimed of the value of the bonus
      and of the cases in which the scoring function returns is proved
      there.
    - Elsewhere a function that can raise returns an [option], [None]
      standing for the exception.
    - A [for] loop that carries state is a recursive function (or a
      fold) over the list, with the state as arguments. *)

From Stdlib Require Import ZArith NArith QArith Lqa String Ascii List Bool Lia ZifyBool.
From stdpp Require Import base option list gmap strings.
From Stdlib Require Import SpecFloat.

Local Open Scope Z_scope.

(** ** Python primitives shared by the modules *)

(** [d.get(k, padrao)] on an optional field. *)
Definition get {A} (campo : option A) (padrao : A) : A :=
  match campo with
  | Some v => v
  | None => padrao
  end.

(** [a / b] with [b] an [int]: raises [ZeroDivisionError] when [b = 0]. *)
Definition truediv (a : Q) (b : Z) : option Q :=
  if b =? 0 then None else Some (a / inject_Z b)%Q.

(** Python's [==] between two values that are each an [int] or [None]. *)
Definition py_eq (a b : option Z) : bool :=
  match a, b with
  | Some x, Some y => x =? y
  | None, None => true
  | _, _ => false
  end.

(** ** src/utils/pontuacao.py *)

Module Pontuacao.

(** The keys of a prediction dict that the scoring rules read. *)
Record Palpite := {
  palpite_mandante : option Z;
  palpite_visitante : option Z
}.

(** The keys of a result dict (a game of the schedule) that the scoring
    rules read. *)
Record Resultado := {
  gols_mandante : option Z;
  gols_visitante : option Z
}.

(** One entry of the rule configuration. *)
Record Regra := {
  pontos : option Q;
  pontos_base : option Q;
  codigo : option string
}.

(** The empty dict [{}] that [regras.get(nome, {})] falls back to. *)
Definition regra_vazia : Regra :=
  {| pontos := None; pontos_base := None; codigo := None |}.

(** [regras.get(nome, {})]. *)
Definition regra_de (regras : gmap string Regra) (nome : string) : Regra :=
  get (regras !! nome) regra_vazia.

Definition verificar_resultado_exato (palpite : Palpite) (resultado : Resultado) : bool :=
  py_eq (palpite_mandante palpite) (gols_mandante resultado) &&
  py_eq (palpite_visitante palpite) (gols_visitante resultado).

Definition verificar_vitoria_gols_um_time (palpite : Palpite) (resultado : Resultado) : bool :=
  let palp_mandante := get (palpite_mandante palpite) 0 in
  let palp_visitante := get (palpite_visitante palpite) 0 in
  let res_mandante := get (gols_mandante resultado) 0 in
  let res_visitante := get (gols_visitante resultado) 0 in
  if (palp_mandante >? palp_visitante) && (res_mandante >? res_visitante) then
    let acertou_mandante := palp_mandante =? res_mandante in
    let acertou_visitante := palp_visitante =? res_visitante in
    xorb acertou_mandante acertou_visitante
  else if (palp_visitante >? palp_mandante) && (res_visitante >? res_mandante) then
    let acertou_mandante := palp_mandante =? res_mandante in
    let acertou_visitante := palp_visitante =? res_visitante in
    xorb acertou_mandante acertou_visitante
  else false.

Definition verificar_vitoria_diferenca_gols (palpite : Palpite) (resultado : Resultado) : bool :=
  let palp_mandante := get (palpite_mandante palpite) 0 in
  let palp_visitante := get (palpite_visitante palpite) 0 in
  let res_mandante := get (gols_mandante resultado) 0 in
  let res_visitante := get (gols_visitante resultado) 0 in
  let diff_palpite := palp_mandante - palp_visitante in
  let diff_resultado := res_mandante - res_visitante in
  if (palp_mandante >? palp_visitante) && (res_mandante >? res_visitante) then
    diff_palpite =? diff_resultado
  else if (palp_visitante >? palp_mandante) && (res_visitante >? res_mandante) then
    diff_palpite =? diff_resultado
  else false.

Definition verificar_vitoria_soma_gols (palpite : Palpite) (resultado : Resultado) : bool :=
  let palp_mandante := get (palpite_mandante palpite) 0 in
  let palp_visitante := get (palpite_visitante palpite) 0 in
  let res_mandante := get (gols_mandante resultado) 0 in
  let res_visitante := get (gols_visitante resultado) 0 in
  let soma_palpite := palp_mandante + palp_visitante in
  let soma_resultado := res_mandante + res_visitante in
  if (palp_mandante >? palp_visitante) && (res_mandante >? res_visitante) then
    soma_palpite =? soma_resultado
  else if (palp_visitante >? palp_mandante) && (res_visitante >? res_mandante) then
    soma_palpite =? soma_resultado
  else false.

Definition verificar_apenas_vitoria (palpite : Palpite) (resultado : Resultado) : bool :=
  let palp_mandante := get (palpite_mandante palpite) 0 in
  let palp_visitante := get (palpite_visitante palpite) 0 in
  let res_mandante := get (gols_mandante resultado) 0 in
  let res_visitante := get (gols_visitante resultado) 0 in
  if (palp_mandante >? palp_visitante) && (res_mandante >? res_visitante) then true
  else if (palp_visitante >? palp_mandante) && (res_visitante >? res_mandante) then true
  else false.

Definition verificar_apenas_empate (palpite : Palpite) (resultado : Resultado) : bool :=
  let palp_mandante := get (palpite_mandante palpite) 0 in
  let palp_visitante := get (palpite_visitante palpite) 0 in
  let res_mandante := get (gols_mandante resultado) 0 in
  let res_visitante := get (gols_visitante resultado) 0 in
  (palp_mandante =? palp_visitante) && (res_mandante =? res_visitante).

Definition verificar_gols_um_time (palpite : Palpite) (resultado : Resultado) : bool :=
  let palp_mandante := get (palpite_mandante palpite) 0 in
  let palp_visitante := get (palpite_visitante palpite) 0 in
  let res_mandante := get (gols_mandante resultado) 0 in
  let res_visitante := get (gols_visitante resultado) 0 in
  let acertou_mandante := palp_mandante =? res_mandante in
  let acertou_visitante := palp_visitante =? res_visitante in
  let acertou_um_time := xorb acertou_mandante acertou_visitante in
  let nao_acertou_resultado :=
    if (palp_mandante >? palp_visitante) && (res_mandante >? res_visitante) then false
    else if (palp_visitante >? palp_mandante) && (res_visitante >? res_mandante) then false
    else if (palp_mandante =? palp_visitante) && (res_mandante =? res_visitante) then false
    else true in
  acertou_um_time && nao_acertou_resultado.

Definition verificar_soma_gols (palpite : Palpite) (resultado : Resultado) : bool :=
  let palp_mandante := get (palpite_mandante palpite) 0 in
  let palp_visitante := get (palpite_visitante palpite) 0 in
  let res_mandante := get (gols_mandante resultado) 0 in
  let res_visitante := get (gols_visitante resultado) 0 in
  let soma_palpite := palp_mandante + palp_visitante in
  let soma_resultado := res_mandante + res_visitante in
  let acertou_soma := soma_palpite =? soma_resultado in
  let nao_acertou_resultado :=
    if (palp_mandante >? palp_visitante) && (res_mandante >? res_visitante) then false
    else if (palp_visitante >? palp_mandante) && (res_visitante >? res_mandante) then false
    else if (palp_mandante =? palp_visitante) && (res_mandante =? res_visitante) then false
    else true in
  let nao_acertou_gols_individuais :=
    if (palp_mandante =? res_mandante) || (palp_visitante =? res_visitante) then false
    else true in
  acertou_soma && nao_acertou_resultado && nao_acertou_gols_individuais.

Definition verificar_resultado_inverso (palpite : Palpite) (resultado : Resultado) : bool :=
  let palp_mandante := get (palpite_mandante palpite) 0 in
  let palp_visitante := get (palpite_visitante palpite) 0 in
  let res_mandante := get (gols_mandante resultado) 0 in
  let res_visitante := get (gols_visitante resultado) 0 in
  (palp_mandante =? res_visitante) &&
  (palp_visitante =? res_mandante) &&
  negb ((palp_mandante =? palp_visitante) && (res_mandante =? res_visitante)).

Definition calcular_bonus_resultado_exato (total_acertos_exatos : Z) : option Q :=
  if total_acertos_exatos <=? 0 then Some 0%Q
  else truediv 1%Q total_acertos_exatos.

Definition calcular_pontuacao (palpite : Palpite) (resultado : Resultado)
    (regras : gmap string Regra) (total_acertos_exatos : Z) : option (Q * string) :=
  if verificar_resultado_inverso palpite resultado then
    let pontos := get (pontos (regra_de regras "resultado_inverso")) (-3)%Q in
    let codigo := get (codigo (regra_de regras "resultado_inverso")) "RI"%string in
    Some (pontos, codigo)
  else if verificar_resultado_exato palpite resultado then
    let pontos_base := get (pontos_base (regra_de regras "resultado_exato")) 12%Q in
    bonus ← calcular_bonus_resultado_exato total_acertos_exatos;
    let codigo := get (codigo (regra_de regras "resultado_exato")) "AR"%string in
    Some ((pontos_base + bonus)%Q, codigo)
  else if verificar_vitoria_gols_um_time palpite resultado then
    let pontos := get (pontos (regra_de regras "vitoria_gols_um_time")) 7%Q in
    let codigo := get (codigo (regra_de regras "vitoria_gols_um_time")) "VG"%string in
    Some (pontos, codigo)
  else if verificar_vitoria_diferenca_gols palpite resultado then
    let pontos := get (pontos (regra_de regras "vitoria_diferenca_gols")) 6%Q in
    let codigo := get (codigo (regra_de regras "vitoria_diferenca_gols")) "VD"%string in
    Some (pontos, codigo)
  else if verificar_vitoria_soma_gols palpite resultado then
    let pontos := get (pontos (regra_de regras "vitoria_soma_gols")) 6%Q in
    let codigo := get (codigo (regra_de regras "vitoria_soma_gols")) "VS"%string in
    Some (pontos, codigo)
  else if verificar_apenas_vitoria palpite resultado then
    let pontos := get (pontos (regra_de regras "apenas_vitoria")) 5%Q in
    let codigo := get (codigo (regra_de regras "apenas_vitoria")) "AV"%string in
    Some (pontos, codigo)
  else if verificar_apenas_empate palpite resultado then
    let pontos := get (pontos (regra_de regras "apenas_empate")) 5%Q in
    let codigo := get (codigo (regra_de regras "apenas_empate")) "AE"%string in
    Some (pontos, codigo)
  else if verificar_gols_um_time palpite resultado then
    let pontos := get (pontos (regra_de regras "gols_um_time")) 2%Q in
    let codigo := get (codigo (regra_de regras "gols_um_time")) "AG"%string in
    Some (pontos, codigo)
  else if verificar_soma_gols palpite resultado then
    let pontos := get (pontos (regra_de regras "soma_gols")) 1%Q in
    let codigo := get (codigo (regra_de regras "soma_gols")) "AS"%string in
    Some (pontos, codigo)
  else Some (0%Q, "NP"%string).

Definition calcular_pontuacao_palpite_ausente : Q * string :=
  ((-1)%Q, "PA"%string).

(** [REGRAS_PONTUACAO_PADRAO] of [src/config.py] (the keys the scoring
    functions can read: [pontos], [pontos_base], [codigo]). *)
Definition REGRAS_PONTUACAO_PADRAO : gmap string Regra :=
  list_to_map [
    ("resultado_exato"%string,
      {| pontos := None; pontos_base := Some 12%Q; codigo := Some "AR"%string |});
    ("vitoria_gols_um_time"%string,
      {| pontos := Some 7%Q; pontos_base := None; codigo := Some "VG"%string |});
    ("vitoria_diferenca_gols"%string,
      {| pontos := Some 6%Q; pontos_base := None; codigo := Some "VD"%string |});
    ("vitoria_soma_gols"%string,
      {| pontos := Some 6%Q; pontos_base := None; codigo := Some "VS"%string |});
    ("apenas_vitoria"%string,
      {| pontos := Some 5%Q; pontos_base := None; codigo := Some "V"%string |});
    ("apenas_empate"%string,
      {| pontos := Some 5%Q; pontos_base := None; codigo := Some "E"%string |});
    ("gols_um_time"%string,
      {| pontos := Some 2%Q; pontos_base := None; codigo := Some "G"%string |});
    ("soma_gols"%string,
      {| pontos := Some 1%Q; pontos_base := None; codigo := Some "S"%string |});
    ("resultado_inverso"%string,
      {| pontos := Some (-3)%Q; pontos_base := None; codigo := Some "RI"%string |});
    ("palpite_ausente"%string,
      {| pontos := Some (-1)%Q; pontos_base := None; codigo := Some "PA"%string |})
  ].

(** *** The rule hierarchy as a table

    The nine rules [calcular_pontuacao] consults, in the order of its
    [if] chain, each with the configuration key it reads, the predicate
    that guards it and the defaults written in the code. *)

Inductive NomeRegra :=
  | RI | AR | VG | VD | VS | AV | AE | AG | AS.


Definition prioridade (x : NomeRegra) : nat :=
  match x with
  | RI => 0 | AR => 1 | VG => 2 | VD => 3 | VS => 4
  | AV => 5 | AE => 6 | AG => 7 | AS => 8
  end%nat.

Definition chave (x : NomeRegra) : string :=
  match x with
  | RI => "resultado_inverso"
  | AR => "resultado_exato"
  | VG => "vitoria_gols_um_time"
  | VD => "vitoria_diferenca_gols"
  | VS => "vitoria_soma_gols"
  | AV => "apenas_vitoria"
  | AE => "apenas_empate"
  | AG => "gols_um_time"
  | AS => "soma_gols"
  end%string.

Definition codigo_padrao (x : NomeRegra) : string :=
  match x with
  | RI => "RI" | AR => "AR" | VG => "VG" | VD => "VD" | VS => "VS"
  | AV => "AV" | AE => "AE" | AG => "AG" | AS => "AS"
  end%string.

Definition pontos_padrao (x : NomeRegra) : Q :=
  match x with
  | RI => -3 | AR => 12 | VG => 7 | VD => 6 | VS => 6
  | AV => 5 | AE => 5 | AG => 2 | AS => 1
  end%Q.

Definition predicado (x : NomeRegra) : Palpite -> Resultado -> bool :=
  match x with
  | RI => verificar_resultado_inverso
  | AR => verificar_resultado_exato
  | VG => verificar_vitoria_gols_um_time
  | VD => verificar_vitoria_diferenca_gols
  | VS => verificar_vitoria_soma_gols
  | AV => verificar_apenas_vitoria
  | AE => verificar_apenas_empate
  | AG => verificar_gols_um_time
  | AS => verificar_soma_gols
  end.

(** The points a configuration gives to a rule: the rule's [pontos]
    (for [AR]: its [pontos_base]), or the default written in the code. *)
Definition pontos_configurados (regras : gmap string Regra) (x : NomeRegra) : Q :=
  match x with
  | AR => get (pontos_base (regra_de regras (chave x))) (pontos_padrao x)
  | _ => get (pontos (regra_de regras (chave x))) (pontos_padrao x)
  end.

(** The code a configuration gives to a rule, or the default written in
    the code. *)
Definition codigo_configurado (regras : gmap string Regra) (x : NomeRegra) : string :=
  get (codigo (regra_de regras (chave x))) (codigo_padrao x).


(** The inverted-score condition in the words of the specification:
    home and away goals swapped, and the actual result not a draw. *)
Definition placar_invertido (palpite : Palpite) (resultado : Resultado) : Prop :=
  get (palpite_mandante palpite) 0 = get (gols_visitante resultado) 0 /\
  get (palpite_visitante palpite) 0 = get (gols_mandante resultado) 0 /\
  get (gols_mandante resultado) 0 <> get (gols_visitante resultado) 0.

(** A prediction and a result with both goal counts present. *)
Definition palpite_de (m v : Z) : Palpite :=
  {| palpite_mandante := Some m; palpite_visitante := Some v |}.

Definition resultado_de (m v : Z) : Resultado :=
  {| gols_mandante := Some m; gols_visitante := Some v |}.

(** The answer of rule [x], the one [calcular_pontuacao] gives when [x]
    is the rule that fires: the configured points (plus the [1/N] bonus
    for the exact score, [0] when [N <= 0]) and the configured code. *)
Definition resposta (regras : gmap string Regra) (n : Z) (x : NomeRegra) : Q * string :=
  match x with
  | AR => ((pontos_configurados regras AR
            + (if n <=? 0 then 0 else 1 / inject_Z n))%Q,
           codigo_configurado regras AR)
  | _ => (pontos_configurados regras x, codigo_configurado regras x)
  end.

End Pontuacao.

(** ** Python's numbers and exceptions

    The scoring code adds and divides Python numbers: [int]s of any
    size and [float]s, which are IEEE 754 binary64.  [spec_float] with
    precision 53 and maximal exponent 1024 is that format, with its
    rounding to nearest, ties to even. *)

Module Python.

Inductive Excecao := TypeError | OverflowError | ZeroDivisionError.

(** The outcome of an expression: a value or a raised exception. *)
Inductive Py (A : Type) :=
  | Retorna (a : A)
  | Levanta (e : Excecao).
Arguments Retorna {A} a.
Arguments Levanta {A} e.

#[export] Instance Py_ret : MRet Py := fun A a => Retorna a.
#[export] Instance Py_bind : MBind Py := fun A B f m =>
  match m with
  | Retorna a => f a
  | Levanta e => Levanta e
  end.

Definition retornou {A} (m : Py A) : Prop := exists a, m = Retorna a.

Definition prec : Z := 53.
Definition emax : Z := 1024.

(** [float(n)] for an [int]: the nearest double; [OverflowError] when
    that is beyond the largest double. *)
Definition float_de_int (n : Z) : Py spec_float :=
  match binary_normalize prec emax n 0 false with
  | S754_infinity _ => Levanta OverflowError
  | f => Retorna f
  end.

Definition e_zero (f : spec_float) : bool :=
  match f with
  | S754_zero _ => true
  | _ => false
  end.

(** [x / y] on [float]s. *)
Definition float_truediv (x y : spec_float) : Py spec_float :=
  if e_zero y then Levanta ZeroDivisionError else Retorna (SFdiv prec emax x y).

(** [x + y] on [float]s. *)
Definition float_add (x y : spec_float) : spec_float := SFadd prec emax x y.

(** A number of a rule configuration (a JSON number) or of the code:
    an [int] or a [float]. *)
Inductive Numero :=
  | Int (z : Z)
  | Float (f : spec_float).

(** [x + y] with [y] a [float]: an [int] [x] is converted first. *)
Definition add_float (x : Numero) (y : spec_float) : Py spec_float :=
  match x with
  | Int z => fx ← float_de_int z; Retorna (float_add fx y)
  | Float fx => Retorna (float_add fx y)
  end.

(** [x / n] with [x] a [float] and [n] an [int]. *)
Definition truediv_int (x : spec_float) (n : Z) : Py spec_float :=
  fn ← float_de_int n; float_truediv x fn.

(** The literals [0.0], [1.0] and [-1.0]. *)
Definition zero : spec_float := S754_zero false.
Definition um : spec_float := S754_finite false 4503599627370496 (-52).
Definition menos_um : spec_float := S754_finite true 4503599627370496 (-52).

(** The rational a finite double stands for. *)
Definition valor (f : spec_float) : Q :=
  match f with
  | S754_finite s m e =>
    let n := if s then Z.neg m else Z.pos m in
    match e with
    | Z0 => inject_Z n
    | Z.pos p => inject_Z (n * Z.pow_pos 2 p)
    | Z.neg p => Qmake n (Pos.pow 2 p)
    end
  | _ => 0%Q
  end.

(** A value read from a dict of goals: an [int] or [None]. *)
Definition gt (a b : option Z) : Py bool :=
  match a, b with
  | Some x, Some y => Retorna (x >? y)
  | _, _ => Levanta TypeError
  end.

Definition sub (a b : option Z) : Py Z :=
  match a, b with
  | Some x, Some y => Retorna (x - y)
  | _, _ => Levanta TypeError
  end.

Definition add (a b : option Z) : Py Z :=
  match a, b with
  | Some x, Some y => Retorna (x + y)
  | _, _ => Levanta TypeError
  end.

(** [a and b] on expressions that give [bool]s: [b] is evaluated only
    when [a] is true. *)
Definition e_tambem (a b : Py bool) : Py bool :=
  x ← a; if (x : bool) then b else Retorna false.

End Python.

(** ** src/utils/pontuacao.py, with Python's values

    The same functions as in [Pontuacao], on the values Python computes
    with: a goal count is absent, [None] or an [int]; points are [int]s
    or [float]s; a comparison or a sum with [None] raises [TypeError]
    and the conversion of a too large [int] raises [OverflowError]. *)

Module PontuacaoPython.
Import Python.

(** The value under a key of a dict of goals. *)
Inductive Campo :=
  | Ausente
  | Nulo
  | Gols (z : Z).

Record Palpite := {
  palpite_mandante : Campo;
  palpite_visitante : Campo
}.

Record Resultado := {
  gols_mandante : Campo;
  gols_visitante : Campo
}.

Record Regra := {
  pontos : option Numero;
  pontos_base : option Numero;
  codigo : option string
}.

Definition regra_vazia : Regra :=
  {| pontos := None; pontos_base := None; codigo := None |}.

(** [regras.get(nome, {})]. *)
Definition regra_de (regras : gmap string Regra) (nome : string) : Regra :=
  get (regras !! nome) regra_vazia.

(** [d.get(chave)]. *)
Definition obter (campo : Campo) : option Z :=
  match campo with
  | Gols z => Some z
  | Ausente | Nulo => None
  end.

(** [d.get(chave, 0)]. *)
Definition obter_ou_zero (campo : Campo) : option Z :=
  match campo with
  | Ausente => Some 0
  | Nulo => None
  | Gols z => Some z
  end.

Definition verificar_resultado_exato (palpite : Palpite) (resultado : Resultado) : bool :=
  py_eq (obter (palpite_mandante palpite)) (obter (gols_mandante resultado)) &&
  py_eq (obter (palpite_visitante palpite)) (obter (gols_visitante resultado)).

Definition verificar_vitoria_gols_um_time (palpite : Palpite) (resultado : Resultado)
    : Py bool :=
  let palp_mandante := obter_ou_zero (palpite_mandante palpite) in
  let palp_visitante := obter_ou_zero (palpite_visitante palpite) in
  let res_mandante := obter_ou_zero (gols_mandante resultado) in
  let res_visitante := obter_ou_zero (gols_visitante resultado) in
  mandante_venceu ← e_tambem (gt palp_mandante palp_visitante)
                             (gt res_mandante res_visitante);
  if (mandante_venceu : bool) then
    let acertou_mandante := py_eq palp_mandante res_mandante in
    let acertou_visitante := py_eq palp_visitante res_visitante in
    Retorna (xorb acertou_mandante acertou_visitante)
  else
    visitante_venceu ← e_tambem (gt palp_visitante palp_mandante)
                                (gt res_visitante res_mandante);
    if (visitante_venceu : bool) then
      let acertou_mandante := py_eq palp_mandante res_mandante in
      let acertou_visitante := py_eq palp_visitante res_visitante in
      Retorna (xorb acertou_mandante acertou_visitante)
    else Retorna false.

Definition verificar_vitoria_diferenca_gols (palpite : Palpite) (resultado : Resultado)
    : Py bool :=
  let palp_mandante := obter_ou_zero (palpite_mandante palpite) in
  let palp_visitante := obter_ou_zero (palpite_visitante palpite) in
  let res_mandante := obter_ou_zero (gols_mandante resultado) in
  let res_visitante := obter_ou_zero (gols_visitante resultado) in
  diff_palpite ← sub palp_mandante palp_visitante;
  diff_resultado ← sub res_mandante res_visitante;
  mandante_venceu ← e_tambem (gt palp_mandante palp_visitante)
                             (gt res_mandante res_visitante);
  if (mandante_venceu : bool) then Retorna (diff_palpite =? diff_resultado)
  else
    visitante_venceu ← e_tambem (gt palp_visitante palp_mandante)
                                (gt res_visitante res_mandante);
    if (visitante_venceu : bool) then Retorna (diff_palpite =? diff_resultado)
    else Retorna false.

Definition verificar_vitoria_soma_gols (palpite : Palpite) (resultado : Resultado)
    : Py bool :=
  let palp_mandante := obter_ou_zero (palpite_mandante palpite) in
  let palp_visitante := obter_ou_zero (palpite_visitante palpite) in
  let res_mandante := obter_ou_zero (gols_mandante resultado) in
  let res_visitante := obter_ou_zero (gols_visitante resultado) in
  soma_palpite ← add palp_mandante palp_visitante;
  soma_resultado ← add res_mandante res_visitante;
  mandante_venceu ← e_tambem (gt palp_mandante palp_visitante)
                             (gt res_mandante res_visitante);
  if (mandante_venceu : bool) then Retorna (soma_palpite =? soma_resultado)
  else
    visitante_venceu ← e_tambem (gt palp_visitante palp_mandante)
                                (gt res_visitante res_mandante);
    if (visitante_venceu : bool) then Retorna (soma_palpite =? soma_resultado)
    else Retorna false.

Definition verificar_apenas_vitoria (palpite : Palpite) (resultado : Resultado)
    : Py bool :=
  let palp_mandante := obter_ou_zero (palpite_mandante palpite) in
  let palp_visitante := obter_ou_zero (palpite_visitante palpite) in
  let res_mandante := obter_ou_zero (gols_mandante resultado) in
  let res_visitante := obter_ou_zero (gols_visitante resultado) in
  mandante_venceu ← e_tambem (gt palp_mandante palp_visitante)
                             (gt res_mandante res_visitante);
  if (mandante_venceu : bool) then Retorna true
  else
    visitante_venceu ← e_tambem (gt palp_visitante palp_mandante)
                                (gt res_visitante res_mandante);
    if (visitante_venceu : bool) then Retorna true
    else Retorna false.

Definition verificar_apenas_empate (palpite : Palpite) (resultado : Resultado) : bool :=
  let palp_mandante := obter_ou_zero (palpite_mandante palpite) in
  let palp_visitante := obter_ou_zero (palpite_visitante palpite) in
  let res_mandante := obter_ou_zero (gols_mandante resultado) in
  let res_visitante := obter_ou_zero (gols_visitante resultado) in
  py_eq palp_mandante palp_visitante && py_eq res_mandante res_visitante.

(** The [if]/[elif]/[elif] chain that clears [nao_acertou_resultado]
    in the last two predicates: the value of the flag after it. *)
Definition nao_acertou_resultado (palp_mandante palp_visitante
    res_mandante res_visitante : option Z) : Py bool :=
  mandante_venceu ← e_tambem (gt palp_mandante palp_visitante)
                             (gt res_mandante res_visitante);
  if (mandante_venceu : bool) then Retorna false
  else
    visitante_venceu ← e_tambem (gt palp_visitante palp_mandante)
                                (gt res_visitante res_mandante);
    if (visitante_venceu : bool) then Retorna false
    else if py_eq palp_mandante palp_visitante && py_eq res_mandante res_visitante
    then Retorna false
    else Retorna true.

Definition verificar_gols_um_time (palpite : Palpite) (resultado : Resultado)
    : Py bool :=
  let palp_mandante := obter_ou_zero (palpite_mandante palpite) in
  let palp_visitante := obter_ou_zero (palpite_visitante palpite) in
  let res_mandante := obter_ou_zero (gols_mandante resultado) in
  let res_visitante := obter_ou_zero (gols_visitante resultado) in
  let acertou_mandante := py_eq palp_mandante res_mandante in
  let acertou_visitante := py_eq palp_visitante res_visitante in
  let acertou_um_time := xorb acertou_mandante acertou_visitante in
  nao_acertou ← nao_acertou_resultado palp_mandante palp_visitante
                                      res_mandante res_visitante;
  Retorna (acertou_um_time && nao_acertou).

Definition verificar_soma_gols (palpite : Palpite) (resultado : Resultado)
    : Py bool :=
  let palp_mandante := obter_ou_zero (palpite_mandante palpite) in
  let palp_visitante := obter_ou_zero (palpite_visitante palpite) in
  let res_mandante := obter_ou_zero (gols_mandante resultado) in
  let res_visitante := obter_ou_zero (gols_visitante resultado) in
  soma_palpite ← add palp_mandante palp_visitante;
  soma_resultado ← add res_mandante res_visitante;
  let acertou_soma := soma_palpite =? soma_resultado in
  nao_acertou ← nao_acertou_resultado palp_mandante palp_visitante
                                      res_mandante res_visitante;
  let nao_acertou_gols_individuais :=
    negb (py_eq palp_mandante res_mandante || py_eq palp_visitante res_visitante) in
  Retorna (acertou_soma && nao_acertou && nao_acertou_gols_individuais).

Definition verificar_resultado_inverso (palpite : Palpite) (resultado : Resultado) : bool :=
  let palp_mandante := obter_ou_zero (palpite_mandante palpite) in
  let palp_visitante := obter_ou_zero (palpite_visitante palpite) in
  let res_mandante := obter_ou_zero (gols_mandante resultado) in
  let res_visitante := obter_ou_zero (gols_visitante resultado) in
  py_eq palp_mandante res_visitante &&
  py_eq palp_visitante res_mandante &&
  negb (py_eq palp_mandante palp_visitante && py_eq res_mandante res_visitante).

Definition calcular_bonus_resultado_exato (total_acertos_exatos : Z) : Py spec_float :=
  if total_acertos_exatos <=? 0 then Retorna zero
  else truediv_int um total_acertos_exatos.

(** The answer of a rule other than the exact score. *)
Definition da_regra (regras : gmap string Regra) (nome : string)
    (pontos_padrao : Z) (codigo_padrao : string) : Py (Numero * string) :=
  let pontos := get (pontos (regra_de regras nome)) (Int pontos_padrao) in
  let codigo := get (codigo (regra_de regras nome)) codigo_padrao in
  Retorna (pontos, codigo).

Definition calcular_pontuacao (palpite : Palpite) (resultado : Resultado)
    (regras : gmap string Regra) (total_acertos_exatos : Z)
    : Py (Numero * string) :=
  if verificar_resultado_inverso palpite resultado then
    da_regra regras "resultado_inverso" (-3) "RI"
  else if verificar_resultado_exato palpite resultado then
    let pontos_base := get (pontos_base (regra_de regras "resultado_exato")) (Int 12) in
    bonus ← calcular_bonus_resultado_exato total_acertos_exatos;
    let codigo := get (codigo (regra_de regras "resultado_exato")) "AR"%string in
    pontos ← add_float pontos_base bonus;
    Retorna (Float pontos, codigo)
  else
    vale ← verificar_vitoria_gols_um_time palpite resultado;
    if (vale : bool) then da_regra regras "vitoria_gols_um_time" 7 "VG" else
    vale ← verificar_vitoria_diferenca_gols palpite resultado;
    if (vale : bool) then da_regra regras "vitoria_diferenca_gols" 6 "VD" else
    vale ← verificar_vitoria_soma_gols palpite resultado;
    if (vale : bool) then da_regra regras "vitoria_soma_gols" 6 "VS" else
    vale ← verificar_apenas_vitoria palpite resultado;
    if (vale : bool) then da_regra regras "apenas_vitoria" 5 "AV" else
    if verificar_apenas_empate palpite resultado
    then da_regra regras "apenas_empate" 5 "AE" else
    vale ← verificar_gols_um_time palpite resultado;
    if (vale : bool) then da_regra regras "gols_um_time" 2 "AG" else
    vale ← verificar_soma_gols palpite resultado;
    if (vale : bool) then da_regra regras "soma_gols" 1 "AS" else
    Retorna (Float zero, "NP"%string).

(** [REGRAS_PONTUACAO_PADRAO] of [src/config.py]: its points are
    [int]s. *)
Definition REGRAS_PONTUACAO_PADRAO : gmap string Regra :=
  list_to_map [
    ("resultado_exato"%string,
      {| pontos := None; pontos_base := Some (Int 12); codigo := Some "AR"%string |});
    ("vitoria_gols_um_time"%string,
      {| pontos := Some (Int 7); pontos_base := None; codigo := Some "VG"%string |});
    ("vitoria_diferenca_gols"%string,
      {| pontos := Some (Int 6); pontos_base := None; codigo := Some "VD"%string |});
    ("vitoria_soma_gols"%string,
      {| pontos := Some (Int 6); pontos_base := None; codigo := Some "VS"%string |});
    ("apenas_vitoria"%string,
      {| pontos := Some (Int 5); pontos_base := None; codigo := Some "V"%string |});
    ("apenas_empate"%string,
      {| pontos := Some (Int 5); pontos_base := None; codigo := Some "E"%string |});
    ("gols_um_time"%string,
      {| pontos := Some (Int 2); pontos_base := None; codigo := Some "G"%string |});
    ("soma_gols"%string,
      {| pontos := Some (Int 1); pontos_base := None; codigo := Some "S"%string |});
    ("resultado_inverso"%string,
      {| pontos := Some (Int (-3)); pontos_base := None; codigo := Some "RI"%string |});
    ("palpite_ausente"%string,
      {| pontos := Some (Int (-1)); pontos_base := None; codigo := Some "PA"%string |})
  ].

(** A prediction and a result with both goal counts present. *)
Definition palpite_de (m v : Z) : Palpite :=
  {| palpite_mandante := Gols m; palpite_visitante := Gols v |}.

Definition resultado_de (m v : Z) : Resultado :=
  {| gols_mandante := Gols m; gols_visitante := Gols v |}.

(** No goal count is [None]. *)
Definition presente (campo : Campo) : bool :=
  match campo with
  | Nulo => false
  | Ausente | Gols _ => true
  end.

Definition sem_nulos (palpite : Palpite) (resultado : Resultado) : bool :=
  presente (palpite_mandante palpite) && presente (palpite_visitante palpite) &&
  presente (gols_mandante resultado) && presente (gols_visitante resultado).

(** The base points the exact score reads from a configuration. *)
Definition pontos_base_de (regras : gmap string Regra) : Numero :=
  get (pontos_base (regra_de regras "resultado_exato")) (Int 12).

Definition codigo_exato_de (regras : gmap string Regra) : string :=
  get (codigo (regra_de regras "resultado_exato")) "AR"%string.

(** An [int] is converted to a [float] before it is added to one;
    [x + bonus] returns when [x] is a [float] or an [int] that has a
    double. *)
Definition convertivel (x : Numero) : Prop :=
  match x with
  | Int z => retornou (float_de_int z)
  | Float _ => True
  end.

(** [f] is a finite double within [2^-49], the unit in the last place
    of the doubles between 8 and 16, of the rational [12 + 1/n]. *)
Definition perto_de_doze_mais_um_sobre (n : Z) (f : spec_float) : bool :=
  match f with
  | S754_finite _ _ _ =>
    Qle_bool (valor f - (12 + 1 / inject_Z n)) (1 # Pos.pow 2 49) &&
    Qle_bool ((12 + 1 / inject_Z n) - valor f) (1 # Pos.pow 2 49)
  | _ => false
  end.

(** The points of an exact score under the base [12], for the count
    [n] of exact hits, checked against [12 + 1/n]. *)
Definition bonus_conferido (n : Z) : bool :=
  match bonus ← calcular_bonus_resultado_exato n; add_float (Int 12) bonus with
  | Retorna f => perto_de_doze_mais_um_sobre n f
  | Levanta _ => false
  end.

(** The largest count of exact hits for which the points are checked
    here, count by count. *)
Definition maior_total_conferido : Z := 10000.

Definition totais_conferidos : list Z :=
  map Z.of_nat (seq 1 (Z.to_nat maior_total_conferido)).

(** The doubles [13.0] and [12.5]. *)
Definition treze : spec_float := S754_finite false 7318349394477056 (-49).
Definition doze_e_meio : spec_float := S754_finite false 7036874417766400 (-49).

End PontuacaoPython.

(** ** src/scripts/processar_resultados.py: scoring one game of a round *)

Module ProcessarResultados.
Import Pontuacao.

(** A game of the schedule, with the keys [calcular_pontuacao_participante]
    reads. *)
Record Jogo := {
  id : option string;
  status : option string;
  obrigatorio : option bool;
  gols_mandante : option Z;
  gols_visitante : option Z
}.

(** The rules file: a dict whose key ["regras"] holds the rule table. *)
Record ArquivoRegras := {
  regras : option (gmap string Regra)
}.

(** The game dict as [calcular_pontuacao] reads it. *)
Definition como_resultado (jogo : Jogo) : Resultado :=
  {| Pontuacao.gols_mandante := gols_mandante jogo;
     Pontuacao.gols_visitante := gols_visitante jogo |}.

(** The entry one game adds to [jogos_resultado], if any. *)
Inductive Lancamento :=
  | Ignorado
  | Lancado (pontos : Q) (codigo_regra : string) (participou : bool).

(** The body of the [for jogo in jogos] loop of
    [calcular_pontuacao_participante]. *)
Definition pontuar_jogo (jogo : Jogo) (palpites_rodada : gmap string Palpite)
    (arquivo : ArquivoRegras) (acertos_exatos_por_jogo : gmap string Z)
    : option Lancamento :=
  match id jogo with
  | None => Some Ignorado
  | Some id_jogo =>
    if String.eqb id_jogo "" then Some Ignorado
    else if negb (bool_decide (status jogo = Some "finalizado"%string)) then Some Ignorado
    else
      match palpites_rodada !! id_jogo with
      | Some palpite =>
        let total_acertos_exatos := get (acertos_exatos_por_jogo !! id_jogo) 1 in
        '(pontos, codigo_regra) ←
          calcular_pontuacao palpite (como_resultado jogo)
            (get (regras arquivo) ∅) total_acertos_exatos;
        Some (Lancado pontos codigo_regra true)
      | None =>
        if get (obrigatorio jogo) false then
          let '(pontos, codigo_regra) := calcular_pontuacao_palpite_ausente in
          Some (Lancado pontos codigo_regra false)
        else Some Ignorado
      end
  end.

End ProcessarResultados.

(** ** src/utils/normalizacao.py *)

Module Normalizacao.

Local Open Scope N_scope.

(** A Python [str] is the list of its Unicode code points. *)
Abbreviation str := (list N).

(** The ASCII text of a literal, as a [str]. *)
Definition txt (s : string) : str :=
  map N_of_ascii (list_ascii_of_string s).

(** The Python runtime's view of the Unicode Character Database, as far
    as [normalizar_nome_time] uses it.  The tables belong to the
    interpreter (modules [unicodedata], [str], [re]), not to the
    repository, so the definitions take them as a parameter. *)
Class Unicode := {
  (** [c.isspace()]; it is also the class [\s] of [re] on [str]. *)
  isspace : N -> bool;
  (** [unicodedata.normalize('NFD', s)]. *)
  nfd : str -> str;
  (** [unicodedata.category(c) == 'Mn']. *)
  category_Mn : N -> bool;
  (** [s.lower()]. *)
  lower : str -> str;
  (** [s.upper()]. *)
  upper : str -> str
}.

(** *** String primitives *)

(** [s.lstrip()] for the characters satisfying [p]. *)
Fixpoint lstrip (p : N -> bool) (s : str) : str :=
  match s with
  | [] => []
  | c :: resto => if p c then lstrip p resto else s
  end.

Definition rstrip (p : N -> bool) (s : str) : str :=
  rev (lstrip p (rev s)).

(** [s.strip()] / [s.strip(chars)]: [p] says which characters go. *)
Definition strip (p : N -> bool) (s : str) : str :=
  rstrip p (lstrip p s).

(** [s.replace(a, b)] for single characters [a] and [b]. *)
Definition replace (a b : N) (s : str) : str :=
  map (fun c => if c =? a then b else c) s.

(** [re.sub(r'C+', r, s)] for a character class [C] (given by [p]) and a
    one-character replacement: every maximal run of [C] becomes [r]. *)
Fixpoint sub_sequencias (p : N -> bool) (r : N) (s : str) : str :=
  match s with
  | [] => []
  | c :: resto =>
    if p c then
      match resto with
      | [] => [r]
      | c' :: _ => if p c' then sub_sequencias p r resto
                   else r :: sub_sequencias p r resto
      end
    else c :: sub_sequencias p r resto
  end.

Definition barra : N := 47.   (* '/' *)
Definition hifen : N := 45.   (* '-' *)
Definition espaco : N := 32.  (* ' ' *)

(** The class [[a-z0-9\-]]. *)
Definition permitido (c : N) : bool :=
  ((97 <=? c) && (c <=? 122)) || ((48 <=? c) && (c <=? 57)) || (c =? hifen).

Definition e_hifen (c : N) : bool := c =? hifen.

Section ComUnicode.
Context `{!Unicode}.

Definition normalizar_nome_time (nome : str) : str :=
  match nome with
  | [] => []
  | _ =>
    (* Remove espaços extras no início e fim *)
    let nome := strip isspace nome in
    (* Remove acentos *)
    let nome := nfd nome in
    let nome := List.filter (fun char => negb (category_Mn char)) nome in
    (* Converte para lowercase *)
    let nome := lower nome in
    (* Converte barras para hífens *)
    let nome := replace barra hifen nome in
    (* Normaliza espaços múltiplos para um único espaço *)
    let nome := sub_sequencias isspace espaco nome in
    (* Substitui espaços por hífens *)
    let nome := replace espaco hifen nome in
    (* Remove caracteres especiais exceto hífens *)
    let nome := List.filter permitido nome in
    (* Remove hífens múltiplos *)
    let nome := sub_sequencias e_hifen hifen nome in
    (* Remove hífens no início e fim *)
    strip e_hifen nome
  end.

End ComUnicode.

(** *** [Levenshtein.distance]

    The edit distance of the third-party package [Levenshtein]: the
    least number of insertions, deletions and substitutions of one
    character that turn [a] into [b]. *)
Fixpoint distance (a b : str) : nat :=
  match a with
  | [] => length b
  | x :: a' =>
    (fix distance_a (b : str) : nat :=
       match b with
       | [] => length a
       | y :: b' =>
         Nat.min (Nat.min (S (distance a' b)) (S (distance_a b')))
                 (distance a' b' + (if N.eqb x y then 0 else 1))%nat
       end) b
  end.

Section ComUnicode.
Context `{!Unicode}.

(** [dist < menor_distancia], where [menor_distancia] starts as
    [float('inf')] ([None]) and then holds a distance. *)
Definition menor_que (dist : nat) (menor_distancia : option nat) : bool :=
  match menor_distancia with
  | None => true
  | Some m => (dist <? m)%nat
  end.

(** The [for time_valido in times_validos] loop of
    [encontrar_time_similar], from the state ([melhor_match],
    [menor_distancia]) it has reached. *)
Fixpoint procurar_time (nome_normalizado : str) (limite_distancia : Z)
    (times_validos : list str)
    (melhor_match : option str) (menor_distancia : option nat) : option str :=
  match times_validos with
  | [] => melhor_match
  | time_valido :: resto =>
    let time_normalizado := normalizar_nome_time time_valido in
    let dist := distance nome_normalizado time_normalizado in
    if (dist =? 0)%nat then Some time_valido
    else if (Z.of_nat dist <=? limite_distancia)%Z && menor_que dist menor_distancia then
      procurar_time nome_normalizado limite_distancia resto (Some time_valido) (Some dist)
    else
      procurar_time nome_normalizado limite_distancia resto melhor_match menor_distancia
  end.

(** [limite_distancia] defaults to 3 in the source. *)
Definition encontrar_time_similar (nome : str) (times_validos : list str)
    (limite_distancia : Z) : option str :=
  match nome, times_validos with
  | [], _ | _, [] => None
  | _, _ =>
    let nome_normalizado := normalizar_nome_time nome in
    procurar_time nome_normalizado limite_distancia times_validos None None
  end.

End ComUnicode.

(** *** The Unicode tables on U+0000..U+00FF

    What Python answers for the characters of Basic Latin and the
    Latin-1 Supplement, the range Portuguese team names are written in.
    [ucd_latin1] extends the tables to every code point by treating the
    others as caseless symbols; it is used to run examples, and the
    theorems that depend on the tables are stated for any [Unicode] that
    agrees with them on this range ([concorda_latin1]). *)

Definition isspace_latin1 (c : N) : bool :=
  ((9 <=? c) && (c <=? 13)) || ((28 <=? c) && (c <=? 32))
  || (c =? 133) || (c =? 160).

(** Canonical decomposition of one character. *)
Definition nfd_latin1 (c : N) : str :=
  match c with
  | 192 => [65; 768] | 193 => [65; 769] | 194 => [65; 770]
  | 195 => [65; 771] | 196 => [65; 776] | 197 => [65; 778]
  | 199 => [67; 807] | 200 => [69; 768] | 201 => [69; 769]
  | 202 => [69; 770] | 203 => [69; 776] | 204 => [73; 768]
  | 205 => [73; 769] | 206 => [73; 770] | 207 => [73; 776]
  | 209 => [78; 771] | 210 => [79; 768] | 211 => [79; 769]
  | 212 => [79; 770] | 213 => [79; 771] | 214 => [79; 776]
  | 217 => [85; 768] | 218 => [85; 769] | 219 => [85; 770]
  | 220 => [85; 776] | 221 => [89; 769] | 224 => [97; 768]
  | 225 => [97; 769] | 226 => [97; 770] | 227 => [97; 771]
  | 228 => [97; 776] | 229 => [97; 778] | 231 => [99; 807]
  | 232 => [101; 768] | 233 => [101; 769] | 234 => [101; 770]
  | 235 => [101; 776] | 236 => [105; 768] | 237 => [105; 769]
  | 238 => [105; 770] | 239 => [105; 776] | 241 => [110; 771]
  | 242 => [111; 768] | 243 => [111; 769] | 244 => [111; 770]
  | 245 => [111; 771] | 246 => [111; 776] | 249 => [117; 768]
  | 250 => [117; 769] | 251 => [117; 770] | 252 => [117; 776]
  | 253 => [121; 769] | 255 => [121; 776]
  | _ => [c]
  end.

(** Every code point of the block Combining Diacritical Marks
    (U+0300..U+036F) has category Mn. *)
Definition marca_combinante (c : N) : bool := (768 <=? c) && (c <=? 879).

Definition lower_latin1 (c : N) : N :=
  if (65 <=? c) && (c <=? 90) then c + 32
  else if (192 <=? c) && (c <=? 222) && negb (c =? 215) then c + 32
  else c.

Definition upper_latin1 (c : N) : str :=
  if (97 <=? c) && (c <=? 122) then [c - 32]
  else if c =? 181 then [924]
  else if c =? 223 then [83; 83]
  else if (224 <=? c) && (c <=? 254) && negb (c =? 247) then [c - 32]
  else if c =? 255 then [376]
  else [c].

Definition ucd_latin1 : Unicode := {|
  isspace := isspace_latin1;
  nfd := flat_map nfd_latin1;
  category_Mn := marca_combinante;
  lower := map lower_latin1;
  upper := flat_map upper_latin1
|}.

(** A string over U+0000..U+00FF. *)
Definition latin1 (s : str) : Prop := Forall (fun c => c < 256) s.

(** [U] answers as Python does on strings over U+0000..U+00FF. *)
Record concorda_latin1 (U : Unicode) : Prop := {
  concorda_isspace : forall c, c < 256 -> isspace c = isspace_latin1 c;
  concorda_nfd : forall s, latin1 s -> nfd s = flat_map nfd_latin1 s;
  concorda_Mn_latin1 : forall c, c < 256 -> category_Mn c = false;
  concorda_Mn_marca : forall c, marca_combinante c = true -> category_Mn c = true;
  concorda_lower : forall s, latin1 s -> lower s = map lower_latin1 s;
  concorda_upper : forall s, latin1 s -> upper s = flat_map upper_latin1 s
}.

(** The character left of a character of U+0000..U+00FF once it is
    decomposed and its combining marks are removed. *)
Definition sem_acento (c : N) : N :=
  match nfd_latin1 c with
  | b :: _ => b
  | [] => c
  end.

(** The same, in lowercase: what the steps from NFD to [lower] make of
    one character of U+0000..U+00FF. *)
Definition dobra (c : N) : N := lower_latin1 (sem_acento c).

(** [replace barra hifen] on one character. *)
Definition troca_barra (c : N) : N := if c =? barra then hifen else c.

(** Facts about the tables, each checked on the 256 characters. *)
Definition decomposicao_ok (c : N) : bool :=
  match nfd_latin1 c with
  | [b] => b <? 256
  | [b; m] => (b <? 256) && marca_combinante m
  | _ => false
  end.

Definition acento_ok (c : N) : bool :=
  Bool.eqb (isspace_latin1 (sem_acento c)) (isspace_latin1 c)
  && (sem_acento c <? 256)
  && (dobra (sem_acento c) =? dobra c).

(** *** What a character leaves in the normalized name *)

(** The characters one character of the folded name (decomposed,
    without marks, in lowercase) leaves behind: a hyphen for whitespace,
    else the character itself, a slash as a hyphen, when the class
    [[a-z0-9\-]] keeps it. *)
Definition ficha (esp : N -> bool) (d : N) : str :=
  if esp d then [hifen] else List.filter permitido [troca_barra d].

(** The same for a character of the name, whose folded form is
    [nucleo c]. *)
Definition fichas (esp : N -> bool) (nucleo : N -> str) (c : N) : str :=
  flat_map (ficha esp) (nucleo c).

(** The last two steps of [normalizar_nome_time]: runs of hyphens
    collapsed, hyphens stripped at both ends. *)
Definition canonico (s : str) : str :=
  strip e_hifen (sub_sequencias e_hifen hifen s).

(** One step of the collapse of the runs of hyphens, from the right. *)
Definition junta (c : N) (r : str) : str :=
  if e_hifen c then
    match r with
    | [] => [hifen]
    | h :: _ => if e_hifen h then r else hifen :: r
    end
  else c :: r.

Fixpoint str_eqb (a b : str) : bool :=
  match a, b with
  | [], [] => true
  | x :: a', y :: b' => (x =? y) && str_eqb a' b'
  | _, _ => false
  end.

(** *** The tables beyond U+00FF

    The uppercase of the micro sign (U+00B5) is the Greek capital mu
    (U+039C), whose lowercase is the small mu (U+03BC); the uppercase of
    y with diaeresis (U+00FF) is U+0178, which decomposes into [Y] and
    the combining diaeresis.  [alfabeto] is U+0000..U+00FF with these
    three characters. *)

Definition alfabeto (c : N) : bool :=
  (c <? 256) || (c =? 376) || (c =? 924) || (c =? 956).

Definition nfd_alem (c : N) : str :=
  if c =? 376 then [89; 776]
  else if c <? 256 then nfd_latin1 c
  else [c].

Definition lower_alem (c : N) : N :=
  if c =? 376 then 255
  else if c =? 924 then 956
  else lower_latin1 c.

Definition ucd_alem : Unicode := {|
  isspace := isspace_latin1;
  nfd := flat_map nfd_alem;
  category_Mn := marca_combinante;
  lower := map lower_alem;
  upper := flat_map upper_latin1
|}.

(** [U] answers as Python does on the strings over [alfabeto]. *)
Record concorda_alem (U : Unicode) : Prop := {
  alem_isspace : forall c, alfabeto c = true -> isspace c = isspace_latin1 c;
  alem_nfd : forall s, Forall (fun c => alfabeto c = true) s ->
               nfd s = flat_map nfd_alem s;
  alem_Mn : forall c, alfabeto c = true -> category_Mn c = false;
  alem_lower : forall s, Forall (fun c => alfabeto c = true) s ->
                 lower s = map lower_alem s
}.

(** The slash and the hyphen are characters without a decomposition,
    without case and without a part in the case of their neighbours:
    NFD and [lower] act on a string with slashes as on the string with
    hyphens in their place.  Python's tables are such, on every
    string. *)
Record barra_neutra (U : Unicode) : Prop := {
  barra_nfd : forall s,
    nfd (replace barra hifen s) = replace barra hifen (nfd s);
  barra_lower : forall s,
    lower (replace barra hifen s) = replace barra hifen (lower s)
}.

(** What the steps from NFD to [lower] make of one character of
    [alfabeto]. *)
Definition nucleo_alem (c : N) : str :=
  map lower_alem (List.filter (fun d => negb (marca_combinante d)) (nfd_alem c)).

Definition alfabeto_lista : str :=
  map N.of_nat (seq 0 256) ++ [376; 924; 956].

(** Facts about the tables, each checked on the characters of
    [alfabeto]. *)
Definition nucleo_ok (c : N) : bool :=
  forallb (fun d => marca_combinante d || alfabeto d) (nfd_alem c)
  && forallb alfabeto (nucleo_alem c)
  && (negb (isspace_latin1 c) || forallb isspace_latin1 (nucleo_alem c)).

Definition maiuscula_alem_ok (c : N) : bool :=
  (c =? 223) || negb (c <? 256) ||
  (forallb alfabeto (upper_latin1 c)
   && str_eqb (flat_map (fichas isspace_latin1 nucleo_alem) (upper_latin1 c))
              (fichas isspace_latin1 nucleo_alem c)).

Definition sem_barra_ok (c : N) : bool :=
  (c =? barra) || forallb (fun d => negb (d =? barra)) (nfd_latin1 c).

End Normalizacao.

(** ** The dicts exchanged between the parser and the import script

    Each record is one kind of dict, with the keys of the source as field
    names.  Keys the data always carries (a game's id and teams, a
    prediction's teams) are plain fields; keys the code allows to be
    absent or [None] are [option] fields. *)

(** The schedule, [tabela.json]. *)
Module Tabela.
Import Normalizacao.

Record Jogo := {
  id : string;
  mandante : str;
  visitante : str
}.

Record Rodada := {
  numero : option Z;
  jogos : option (list Jogo)
}.

Record t := {
  rodadas : option (list Rodada)
}.

End Tabela.

(** A prediction as the parser extracts it ([extrair_palpites],
    [identificar_apostas_extras]). *)
Module PalpiteBruto.
Import Normalizacao.

Record t := {
  mandante : str;
  visitante : str;
  gols_mandante : option Z;
  gols_visitante : option Z;
  tipo : option string;
  identificador : option string
}.

End PalpiteBruto.

(** A prediction linked to a game of the schedule, as stored in
    [palpites.json]. *)
Module PalpiteValidado.
Import Normalizacao.

Record t := {
  id : string;
  mandante : str;
  visitante : str;
  palpite_mandante : Z;
  palpite_visitante : Z;
  tipo : option string;
  identificador : option string
}.

End PalpiteValidado.

(** ** src/utils/parser.py: [inferir_rodada] *)

Module Parser.
Import Normalizacao.

(** [x < y] on rationals, as a boolean. *)
Definition Qlt_bool (x y : Q) : bool := negb (Qle_bool y x).

Section ComUnicode.
Context `{!Unicode}.

(** A set with the normalized form of [nome] added when [nome] is a
    non-empty string. *)
Definition adicionar_time (times : gset str) (nome : str) : gset str :=
  match nome with
  | [] => times
  | _ => times ∪ {[ normalizar_nome_time nome ]}
  end.

(** The set [times_palpites] built by the first loop. *)
Definition times_palpites (palpites : list PalpiteBruto.t) : gset str :=
  fold_left
    (fun times palpite =>
       adicionar_time (adicionar_time times (PalpiteBruto.mandante palpite))
                      (PalpiteBruto.visitante palpite))
    palpites ∅.

(** The set [times_rodada] built for one round. *)
Definition times_rodada (jogos : list Tabela.Jogo) : gset str :=
  fold_left
    (fun times jogo =>
       adicionar_time (adicionar_time times (Tabela.mandante jogo))
                      (Tabela.visitante jogo))
    jogos ∅.

(** [score = correspondencias / len(times_palpites) if times_palpites
    else 0].  The quotient of the two counts is kept as the exact
    rational: the comparisons the code makes on the float ([== 1.0],
    [>], [>= 0.5]) have the same outcome on it. *)
Definition score (times_palpites times_rodada : gset str) : Q :=
  let correspondencias := size (times_palpites ∩ times_rodada) in
  if decide (times_palpites = ∅) then 0%Q
  else (inject_Z (Z.of_nat correspondencias)
        / inject_Z (Z.of_nat (size times_palpites)))%Q.

(** The [for rodada in tabela['rodadas']] loop and the final test, from
    the state ([melhor_rodada], [melhor_score]) reached so far. *)
Fixpoint percorrer_rodadas (times_palpites : gset str)
    (rodadas : list Tabela.Rodada)
    (melhor_rodada : option Z) (melhor_score : Q) : option Z :=
  match rodadas with
  | [] =>
    if Qle_bool (1 # 2) melhor_score then melhor_rodada else None
  | rodada :: resto =>
    match Tabela.numero rodada, Tabela.jogos rodada with
    | Some numero, Some jogos =>
      let times_rodada := times_rodada jogos in
      if decide (times_rodada = ∅) then
        percorrer_rodadas times_palpites resto melhor_rodada melhor_score
      else
        let score := score times_palpites times_rodada in
        if Qeq_bool score 1 then Some numero
        else if Qlt_bool melhor_score score then
          percorrer_rodadas times_palpites resto (Some numero) score
        else
          percorrer_rodadas times_palpites resto melhor_rodada melhor_score
    | _, _ =>
      percorrer_rodadas times_palpites resto melhor_rodada melhor_score
    end
  end.

Definition inferir_rodada (palpites : list PalpiteBruto.t) (tabela : Tabela.t)
    : option Z :=
  match palpites, Tabela.rodadas tabela with
  | [], _ | _, None => None
  | _, Some rodadas =>
    let times_palpites := times_palpites palpites in
    if decide (times_palpites = ∅) then None
    else percorrer_rodadas times_palpites rodadas None 0%Q
  end.

(** Round number [numero] at position [i] of the schedule has team set
    [times]. *)
Definition rodada_na_posicao (rodadas : list Tabela.Rodada) (i : nat)
    (numero : Z) (times : gset str) : Prop :=
  exists rodada jogos,
    rodadas !! i = Some rodada /\
    Tabela.numero rodada = Some numero /\
    Tabela.jogos rodada = Some jogos /\
    times = times_rodada jogos.

End ComUnicode.

(** A schedule whose second round has the teams A, B, C, D, and a
    submission that mentions A and B only. *)
Definition tabela_duas_rodadas : Tabela.t :=
  {| Tabela.rodadas := Some [
       {| Tabela.numero := Some 1%Z;
          Tabela.jogos := Some [
            {| Tabela.id := "jogo-001"; Tabela.mandante := txt "E";
               Tabela.visitante := txt "F" |} ] |};
       {| Tabela.numero := Some 2%Z;
          Tabela.jogos := Some [
            {| Tabela.id := "jogo-002"; Tabela.mandante := txt "A";
               Tabela.visitante := txt "B" |};
            {| Tabela.id := "jogo-003"; Tabela.mandante := txt "C";
               Tabela.visitante := txt "D" |} ] |} ] |}.

Definition palpite_a_b : list PalpiteBruto.t := [
  {| PalpiteBruto.mandante := txt "a"; PalpiteBruto.visitante := txt " B ";
     PalpiteBruto.gols_mandante := Some 1%Z; PalpiteBruto.gols_visitante := Some 0%Z;
     PalpiteBruto.tipo := None; PalpiteBruto.identificador := None |} ].

End Parser.

(** ** src/scripts/importar_palpites.py *)

Module ImportarPalpites.
Import Normalizacao.

(** The error messages of [validar_palpites_contra_tabela], one
    constructor per message, with the values its f-string formats. *)
Inductive Erro :=
  | TabelaInvalida
  | RodadaNaoEncontrada (rodada : Z)
  | PalpiteSemPlacar (mandante visitante : str)
  | JogoNaoEncontrado (rodada : Z) (mandante visitante : str).

(** First round [r] of the list with [r.get('numero') == rodada]. *)
Definition procurar_rodada (rodadas : list Tabela.Rodada) (rodada : Z)
    : option Tabela.Rodada :=
  snd <$> list_find (fun r => Tabela.numero r = Some rodada) rodadas.

(** First game of the round with the prediction's home and away teams. *)
Definition procurar_jogo (jogos_rodada : list Tabela.Jogo)
    (palpite : PalpiteBruto.t) : option Tabela.Jogo :=
  snd <$> list_find
    (fun jogo =>
       Tabela.mandante jogo = PalpiteBruto.mandante palpite /\
       Tabela.visitante jogo = PalpiteBruto.visitante palpite)
    jogos_rodada.

(** One iteration of the [for palpite in palpites] loop, on the pair
    ([palpites_validados], [erros]). *)
Definition validar_palpite (rodada : Z) (jogos_rodada : list Tabela.Jogo)
    (estado : list PalpiteValidado.t * list Erro) (palpite : PalpiteBruto.t)
    : list PalpiteValidado.t * list Erro :=
  let '(palpites_validados, erros) := estado in
  match PalpiteBruto.gols_mandante palpite, PalpiteBruto.gols_visitante palpite with
  | Some gols_mandante, Some gols_visitante =>
    match procurar_jogo jogos_rodada palpite with
    | None =>
      (palpites_validados,
       erros ++ [JogoNaoEncontrado rodada (PalpiteBruto.mandante palpite)
                                   (PalpiteBruto.visitante palpite)])
    | Some jogo_encontrado =>
      let palpite_validado :=
        {| PalpiteValidado.id := Tabela.id jogo_encontrado;
           PalpiteValidado.mandante := Tabela.mandante jogo_encontrado;
           PalpiteValidado.visitante := Tabela.visitante jogo_encontrado;
           PalpiteValidado.palpite_mandante := gols_mandante;
           PalpiteValidado.palpite_visitante := gols_visitante;
           PalpiteValidado.tipo := PalpiteBruto.tipo palpite;
           PalpiteValidado.identificador := PalpiteBruto.identificador palpite |} in
      (palpites_validados ++ [palpite_validado], erros)
    end
  | _, _ =>
    (palpites_validados,
     erros ++ [PalpiteSemPlacar (PalpiteBruto.mandante palpite)
                                (PalpiteBruto.visitante palpite)])
  end.

Definition validar_palpites_contra_tabela (palpites : list PalpiteBruto.t)
    (rodada : Z) (tabela : Tabela.t) : list PalpiteValidado.t * list Erro :=
  match Tabela.rodadas tabela with
  | None => ([], [TabelaInvalida])
  | Some rodadas =>
    match procurar_rodada rodadas rodada with
    | None => ([], [RodadaNaoEncontrada rodada])
    | Some rodada_encontrada =>
      let jogos_rodada := get (Tabela.jogos rodada_encontrada) [] in
      fold_left (validar_palpite rodada jogos_rodada) palpites ([], [])
    end
  end.

(** One entry of a participant's [palpites] list: a round. *)
Record Entrada := {
  rodada : option Z;
  data_palpite : string;
  jogos : option (list PalpiteValidado.t);
  apostas_extras : option (list PalpiteValidado.t)
}.

(** A participant's [palpites.json]. *)
Record DadosParticipante := {
  apostador : string;
  codigo_apostador : string;
  palpites : option (list Entrada)
}.

(** What the function does to the round's entry once it holds it:
    timestamp, regular predictions, extra bets.  [agora] is
    [datetime.now().isoformat()]. *)
Definition atualizar_entrada (entrada_rodada : Entrada) (agora : string)
    (palpites_validados apostas_extras : list PalpiteValidado.t) : Entrada :=
  let jogos_atuais := get (jogos entrada_rodada) [] in
  let ids_novos_palpites : gset string :=
    list_to_set (map PalpiteValidado.id palpites_validados) in
  let jogos_novos :=
    List.filter (fun j => bool_decide (PalpiteValidado.id j ∉ ids_novos_palpites))
                jogos_atuais
    ++ palpites_validados in
  let extras_novas :=
    match apostas_extras with
    | [] => ImportarPalpites.apostas_extras entrada_rodada
    | _ =>
      let extras_atuais := get (ImportarPalpites.apostas_extras entrada_rodada) [] in
      let identificadores_novos : gset string :=
        list_to_set (omap PalpiteValidado.identificador apostas_extras) in
      Some (List.filter
              (fun ae =>
                 match PalpiteValidado.identificador ae with
                 | None => true
                 | Some i => bool_decide (i ∉ identificadores_novos)
                 end)
              extras_atuais
            ++ apostas_extras)
    end in
  {| rodada := rodada entrada_rodada;
     data_palpite := agora;
     jogos := Some jogos_novos;
     apostas_extras := extras_novas |}.

Definition atualizar_palpites_participante (dados_participante : DadosParticipante)
    (rodada : Z) (palpites_validados apostas_extras : list PalpiteValidado.t)
    (agora : string) : DadosParticipante :=
  let lista := get (palpites dados_participante) [] in
  let lista_nova :=
    match list_find (fun entrada => ImportarPalpites.rodada entrada = Some rodada) lista with
    | Some (i, entrada_rodada) =>
      <[ i := atualizar_entrada entrada_rodada agora palpites_validados apostas_extras ]>
        lista
    | None =>
      let entrada_rodada :=
        {| ImportarPalpites.rodada := Some rodada; data_palpite := agora;
           jogos := Some []; apostas_extras := None |} in
      lista ++ [atualizar_entrada entrada_rodada agora palpites_validados apostas_extras]
    end in
  {| apostador := apostador dados_participante;
     codigo_apostador := codigo_apostador dados_participante;
     palpites := Some lista_nova |}.

(** The lookup of [main] before it asks to overwrite: the [jogos] of the
    first entry of the round, [[]] when there is none. *)
Definition palpites_existentes (dados_participante : DadosParticipante)
    (rodada : Z) : list PalpiteValidado.t :=
  match list_find (fun entrada => ImportarPalpites.rodada entrada = Some rodada)
                  (get (palpites dados_participante) []) with
  | Some (_, entrada) => get (jogos entrada) []
  | None => []
  end.

(** The outcome of one prediction against the games of the round, in
    the words of the claim: an error when a goal count is missing or no
    game has the same (home, away) pair; otherwise the validated
    prediction built from the first such game. *)
Inductive classifica (rodada : Z) (jogos_rodada : list Tabela.Jogo)
    (palpite : PalpiteBruto.t) : PalpiteValidado.t + Erro -> Prop :=
  | classifica_sem_placar :
      PalpiteBruto.gols_mandante palpite = None \/
      PalpiteBruto.gols_visitante palpite = None ->
      classifica rodada jogos_rodada palpite
        (inr (PalpiteSemPlacar (PalpiteBruto.mandante palpite)
                               (PalpiteBruto.visitante palpite)))
  | classifica_sem_jogo gols_mandante gols_visitante :
      PalpiteBruto.gols_mandante palpite = Some gols_mandante ->
      PalpiteBruto.gols_visitante palpite = Some gols_visitante ->
      (forall jogo, jogo ∈ jogos_rodada ->
         ~ (Tabela.mandante jogo = PalpiteBruto.mandante palpite /\
            Tabela.visitante jogo = PalpiteBruto.visitante palpite)) ->
      classifica rodada jogos_rodada palpite
        (inr (JogoNaoEncontrado rodada (PalpiteBruto.mandante palpite)
                                (PalpiteBruto.visitante palpite)))
  | classifica_valido gols_mandante gols_visitante i jogo :
      PalpiteBruto.gols_mandante palpite = Some gols_mandante ->
      PalpiteBruto.gols_visitante palpite = Some gols_visitante ->
      jogos_rodada !! i = Some jogo ->
      Tabela.mandante jogo = PalpiteBruto.mandante palpite ->
      Tabela.visitante jogo = PalpiteBruto.visitante palpite ->
      (forall j jogo', jogos_rodada !! j = Some jogo' -> (j < i)%nat ->
         ~ (Tabela.mandante jogo' = PalpiteBruto.mandante palpite /\
            Tabela.visitante jogo' = PalpiteBruto.visitante palpite)) ->
      classifica rodada jogos_rodada palpite
        (inl {| PalpiteValidado.id := Tabela.id jogo;
                PalpiteValidado.mandante := Tabela.mandante jogo;
                PalpiteValidado.visitante := Tabela.visitante jogo;
                PalpiteValidado.palpite_mandante := gols_mandante;
                PalpiteValidado.palpite_visitante := gols_visitante;
                PalpiteValidado.tipo := PalpiteBruto.tipo palpite;
                PalpiteValidado.identificador := PalpiteBruto.identificador palpite |}).

(** The validated predictions and the errors of a list of outcomes. *)
Definition validados (resultados : list (PalpiteValidado.t + Erro))
    : list PalpiteValidado.t :=
  omap (fun x => match x with inl v => Some v | inr _ => None end) resultados.

Definition erros_de (resultados : list (PalpiteValidado.t + Erro)) : list Erro :=
  omap (fun x => match x with inl _ => None | inr e => Some e end) resultados.

(** The filter of [atualizar_entrada] on the stored games. *)
Definition fora_dos_novos (palpites_validados : list PalpiteValidado.t)
    (j : PalpiteValidado.t) : bool :=
  bool_decide (PalpiteValidado.id j ∉
    (list_to_set (map PalpiteValidado.id palpites_validados) : gset string)).

(** A schedule with one round and one game, and three predictions: one
    matching the game, one without a score, one for another fixture. *)
Definition tabela_exemplo : Tabela.t :=
  {| Tabela.rodadas := Some [
       {| Tabela.numero := Some 1%Z;
          Tabela.jogos := Some [
            {| Tabela.id := "jogo-001"; Tabela.mandante := txt "Flamengo";
               Tabela.visitante := txt "Palmeiras" |} ] |} ] |}.

Definition palpites_exemplo : list PalpiteBruto.t := [
  {| PalpiteBruto.mandante := txt "Flamengo"; PalpiteBruto.visitante := txt "Palmeiras";
     PalpiteBruto.gols_mandante := Some 2%Z; PalpiteBruto.gols_visitante := Some 1%Z;
     PalpiteBruto.tipo := None; PalpiteBruto.identificador := None |};
  {| PalpiteBruto.mandante := txt "Santos"; PalpiteBruto.visitante := txt "Vasco";
     PalpiteBruto.gols_mandante := None; PalpiteBruto.gols_visitante := None;
     PalpiteBruto.tipo := None; PalpiteBruto.identificador := None |};
  {| PalpiteBruto.mandante := txt "Palmeiras"; PalpiteBruto.visitante := txt "Flamengo";
     PalpiteBruto.gols_mandante := Some 0%Z; PalpiteBruto.gols_visitante := Some 0%Z;
     PalpiteBruto.tipo := None; PalpiteBruto.identificador := None |} ].

(** A participant with two stored predictions for round 1 and one for
    round 2, and a new submission for the first game of round 1. *)
Definition palpite_guardado (id : string) (m v : Z) : PalpiteValidado.t :=
  {| PalpiteValidado.id := id;
     PalpiteValidado.mandante := txt "Flamengo";
     PalpiteValidado.visitante := txt "Palmeiras";
     PalpiteValidado.palpite_mandante := m;
     PalpiteValidado.palpite_visitante := v;
     PalpiteValidado.tipo := None;
     PalpiteValidado.identificador := None |}.

Definition dados_exemplo : DadosParticipante :=
  {| apostador := "Maria"; codigo_apostador := "0001";
     palpites := Some [
       {| rodada := Some 1%Z; data_palpite := "2025-01-01T10:00:00";
          jogos := Some [palpite_guardado "jogo-001" 1 0;
                         palpite_guardado "jogo-002" 2 2];
          apostas_extras := None |};
       {| rodada := Some 2%Z; data_palpite := "2025-01-08T10:00:00";
          jogos := Some [palpite_guardado "jogo-011" 0 0];
          apostas_extras := None |} ] |}.

End ImportarPalpites.

(** ** Further vocabulary for the scoring rules *)

Module Espelho.
Import Pontuacao.

(** The same match seen from the other side: home and away swapped. *)
Definition espelhar_palpite (palpite : Palpite) : Palpite :=
  {| palpite_mandante := palpite_visitante palpite;
     palpite_visitante := palpite_mandante palpite |}.

Definition espelhar_resultado (resultado : Resultado) : Resultado :=
  {| gols_mandante := gols_visitante resultado;
     gols_visitante := gols_mandante resultado |}.

End Espelho.

(** ** src/utils/normalizacao.py: names of directories *)

Module NormalizacaoDiretorios.
Import Normalizacao.

Local Open Scope N_scope.

(** The class [[a-zA-Z0-9]]. *)
Definition alfanumerico (c : N) : bool :=
  ((97 <=? c) && (c <=? 122)) || ((65 <=? c) && (c <=? 90))
  || ((48 <=? c) && (c <=? 57)).

(** The class [[a-zA-Z0-9\-]]. *)
Definition alfanumerico_ou_hifen (c : N) : bool :=
  ((97 <=? c) && (c <=? 122)) || ((65 <=? c) && (c <=? 90))
  || ((48 <=? c) && (c <=? 57)) || (c =? hifen).

(** The class of [normalizar_nome_campeonato]'s first substitution:
    slash, backslash, colon, asterisk, question mark, double quote,
    less-than, greater-than and vertical bar. *)
Definition problematico (c : N) : bool :=
  (c =? 47) || (c =? 92) || (c =? 58) || (c =? 42) || (c =? 63)
  || (c =? 34) || (c =? 60) || (c =? 62) || (c =? 124).

(** [re.sub(C, r, s)] for a class [C] of single characters. *)
Definition sub_classe (p : N -> bool) (r : N) (s : str) : str :=
  map (fun c => if p c then r else c) s.

Section ComUnicode.
Context `{!Unicode}.

Definition normalizar_nome_participante (nome : str) : str :=
  match nome with
  | [] => []
  | _ =>
    (* Remove espaços extras no início e fim *)
    let nome := strip isspace nome in
    (* Remove acentos *)
    let nome := nfd nome in
    let nome := List.filter (fun char => negb (category_Mn char)) nome in
    (* Remove espaços e caracteres especiais *)
    List.filter alfanumerico nome
  end.

Definition normalizar_nome_campeonato (nome : str) : str :=
  match nome with
  | [] => []
  | _ =>
    (* Remove espaços extras no início e fim *)
    let nome := strip isspace nome in
    (* Remove acentos *)
    let nome := nfd nome in
    let nome := List.filter (fun char => negb (category_Mn char)) nome in
    (* Substitui caracteres problemáticos por hífens *)
    let nome := sub_classe problematico hifen nome in
    (* Normaliza espaços múltiplos para um único espaço *)
    let nome := sub_sequencias isspace espaco nome in
    (* Substitui espaços por hífens *)
    let nome := replace espaco hifen nome in
    (* Remove caracteres especiais exceto hífens e números *)
    let nome := List.filter alfanumerico_ou_hifen nome in
    (* Remove hífens múltiplos *)
    let nome := sub_sequencias e_hifen hifen nome in
    (* Remove hífens no início e fim *)
    strip e_hifen nome
  end.

End ComUnicode.

(** *** The shape of a normalized name *)

(** No two hyphens in a row. *)
Fixpoint sem_hifen_duplo (s : str) : bool :=
  match s with
  | c :: resto =>
    match resto with
    | c' :: _ => negb (e_hifen c && e_hifen c') && sem_hifen_duplo resto
    | [] => true
    end
  | [] => true
  end.

Definition nao_e_hifen (c : option N) : bool :=
  match c with
  | Some c => negb (e_hifen c)
  | None => true
  end.

(** Words over the class [classe] joined by single hyphens: every
    character is in the class, no hyphen is first or last, and no two
    hyphens are adjacent. *)
Definition palavras_com_hifen (classe : N -> bool) (s : str) : bool :=
  forallb classe s && nao_e_hifen (head s) && nao_e_hifen (last s)
  && sem_hifen_duplo s.

End NormalizacaoDiretorios.

(** ** src/scripts/importar_palpites.py: team names and extra bets *)

Module ImportarPalpitesNomes.
Import Normalizacao ImportarPalpites.

(** [times_tabela.add(nome)] under its guard [if nome]. *)
Definition adicionar_nome (times : gset str) (nome : str) : gset str :=
  match nome with
  | [] => times
  | _ => times ∪ {[ nome ]}
  end.

(** The set [times_tabela] built by the two nested loops of
    [normalizar_palpites_times]. *)
Definition times_tabela (tabela : Tabela.t) : gset str :=
  fold_left
    (fun times rodada =>
       fold_left
         (fun times jogo =>
            adicionar_nome (adicionar_nome times (Tabela.mandante jogo))
                           (Tabela.visitante jogo))
         (get (Tabela.jogos rodada) []) times)
    (get (Tabela.rodadas tabela) []) ∅.

Section ComUnicode.
Context `{!Unicode}.

(** What the loop makes of one team name: the similar name of the
    schedule when there is one (and it is not the empty string), the
    name as written otherwise.  The warning printed in the second case
    is not modelled. *)
Definition normalizar_time (times_tabela_list : list str) (nome : str) : str :=
  match nome with
  | [] => nome
  | _ =>
    match encontrar_time_similar nome times_tabela_list 3 with
    | Some time_similar =>
      match time_similar with
      | [] => nome
      | _ => time_similar
      end
    | None => nome
    end
  end.

Definition normalizar_palpite (times_tabela_list : list str)
    (palpite : PalpiteBruto.t) : PalpiteBruto.t :=
  {| PalpiteBruto.mandante :=
       normalizar_time times_tabela_list (PalpiteBruto.mandante palpite);
     PalpiteBruto.visitante :=
       normalizar_time times_tabela_list (PalpiteBruto.visitante palpite);
     PalpiteBruto.gols_mandante := PalpiteBruto.gols_mandante palpite;
     PalpiteBruto.gols_visitante := PalpiteBruto.gols_visitante palpite;
     PalpiteBruto.tipo := PalpiteBruto.tipo palpite;
     PalpiteBruto.identificador := PalpiteBruto.identificador palpite |}.

(** [times_tabela_list] is [list(times_tabela)]: the elements of the
    set in the order of Python's hash table, which depends on the run.
    It is a parameter here, and the theorems hold for every list that
    has the elements of the set. *)
Definition normalizar_palpites_times (times_tabela_list : list str)
    (palpites : list PalpiteBruto.t) (tabela : Tabela.t)
    : list PalpiteBruto.t :=
  match palpites, Tabela.rodadas tabela with
  | [], _ | _, None => palpites
  | _, Some _ => map (normalizar_palpite times_tabela_list) palpites
  end.

(** What the loop may do to a name: leave it, or put in its place a
    name of the list that has the same normalized form or is within
    distance 3 of it. *)
Definition resolvido (times_tabela_list : list str) (escrito novo : str) : Prop :=
  novo = escrito \/
  (escrito <> [] /\ novo ∈ times_tabela_list /\
   (normalizar_nome_time novo = normalizar_nome_time escrito \/
    (distance (normalizar_nome_time escrito) (normalizar_nome_time novo) <= 3)%nat)).

(** A prediction with both goal counts whose team names have the
    normalized forms of the team names of a game of [jogos]. *)
Definition reconhecivel (jogos : list Tabela.Jogo) (palpite : PalpiteBruto.t) : Prop :=
  PalpiteBruto.gols_mandante palpite <> None /\
  PalpiteBruto.gols_visitante palpite <> None /\
  PalpiteBruto.mandante palpite <> [] /\
  PalpiteBruto.visitante palpite <> [] /\
  exists jogo, jogo ∈ jogos /\
    Tabela.mandante jogo <> [] /\ Tabela.visitante jogo <> [] /\
    normalizar_nome_time (PalpiteBruto.mandante palpite)
      = normalizar_nome_time (Tabela.mandante jogo) /\
    normalizar_nome_time (PalpiteBruto.visitante palpite)
      = normalizar_nome_time (Tabela.visitante jogo).

(** A validated prediction that carries the goal counts of [palpite]
    and the id and team names of a game of [jogos] whose team names
    have the normalized forms of the ones of [palpite]. *)
Definition validado_de (jogos : list Tabela.Jogo) (palpite : PalpiteBruto.t)
    (validado : PalpiteValidado.t) : Prop :=
  PalpiteBruto.gols_mandante palpite = Some (PalpiteValidado.palpite_mandante validado) /\
  PalpiteBruto.gols_visitante palpite = Some (PalpiteValidado.palpite_visitante validado) /\
  PalpiteValidado.tipo validado = PalpiteBruto.tipo palpite /\
  PalpiteValidado.identificador validado = PalpiteBruto.identificador palpite /\
  normalizar_nome_time (PalpiteValidado.mandante validado)
    = normalizar_nome_time (PalpiteBruto.mandante palpite) /\
  normalizar_nome_time (PalpiteValidado.visitante validado)
    = normalizar_nome_time (PalpiteBruto.visitante palpite) /\
  exists jogo, jogo ∈ jogos /\
    PalpiteValidado.id validado = Tabela.id jogo /\
    PalpiteValidado.mandante validado = Tabela.mandante jogo /\
    PalpiteValidado.visitante validado = Tabela.visitante jogo.

End ComUnicode.

(** The extra bets stored for a round: the [apostas_extras] of the
    first entry of the round, [[]] when there is none. *)
Definition extras_existentes (dados_participante : DadosParticipante)
    (rodada : Z) : list PalpiteValidado.t :=
  match list_find (fun entrada => ImportarPalpites.rodada entrada = Some rodada)
                  (get (palpites dados_participante) []) with
  | Some (_, entrada) => get (apostas_extras entrada) []
  | None => []
  end.

(** The filter of [atualizar_palpites_participante] on the stored extra
    bets: those without an identifier and those whose identifier is not
    among the new ones stay. *)
Definition extra_fica (apostas_extras : list PalpiteValidado.t)
    (ae : PalpiteValidado.t) : bool :=
  match PalpiteValidado.identificador ae with
  | None => true
  | Some i =>
    bool_decide (i ∉ (list_to_set (omap PalpiteValidado.identificador apostas_extras)
                       : gset string))
  end.

Definition sem_identificador (ae : PalpiteValidado.t) : bool :=
  match PalpiteValidado.identificador ae with
  | None => true
  | Some _ => false
  end.

(** The round numbers of the stored entries, in order. *)
Definition rodadas_guardadas (dados_participante : DadosParticipante)
    : list (option Z) :=
  map ImportarPalpites.rodada (get (palpites dados_participante) []).

(** The game of [tabela_exemplo] as a participant may write it. *)
Definition palpites_outra_grafia : list PalpiteBruto.t := [
  {| PalpiteBruto.mandante := txt " FLAMENGO"; PalpiteBruto.visitante := txt "palmeiras ";
     PalpiteBruto.gols_mandante := Some 2%Z; PalpiteBruto.gols_visitante := Some 1%Z;
     PalpiteBruto.tipo := None; PalpiteBruto.identificador := None |} ].

Definition rodada_exemplo : Tabela.Rodada :=
  {| Tabela.numero := Some 1%Z;
     Tabela.jogos := Some [
       {| Tabela.id := "jogo-001"; Tabela.mandante := txt "Flamengo";
          Tabela.visitante := txt "Palmeiras" |} ] |}.

End ImportarPalpitesNomes.

(** ** src/scripts/processar_resultados.py: scoring a round *)

(** A game of the round: the keys of [ProcessarResultados.Jogo] and the
    two team names, which the results copy. *)
Module JogoRodada.
Import Normalizacao.

Record t := {
  jogo : ProcessarResultados.Jogo;
  mandante : option str;
  visitante : option str
}.

End JogoRodada.

(** One entry of [jogos_resultado]. *)
Module ResultadoJogo.
Import Normalizacao.

Record t := {
  id : string;
  mandante : option str;
  visitante : option str;
  pontos : Q;
  codigo_regra : string
}.

End ResultadoJogo.

(** The dict [calcular_pontuacao_participante] returns. *)
Module ResultadoParticipante.

Record t := {
  participante : string;
  codigo : string;
  jogos : list ResultadoJogo.t;
  total_rodada : Q;
  jogos_participados : Z;
  codigos_regra : list string
}.

End ResultadoParticipante.

Module ProcessarRodada.
Import Pontuacao ProcessarResultados ImportarPalpites.

(** A stored prediction as the scoring functions read it: the keys
    [palpite_mandante] and [palpite_visitante], which
    [validar_palpites_contra_tabela] always writes. *)
Definition como_palpite (jogo_palpite : PalpiteValidado.t) : Palpite :=
  {| palpite_mandante := Some (PalpiteValidado.palpite_mandante jogo_palpite);
     palpite_visitante := Some (PalpiteValidado.palpite_visitante jogo_palpite) |}.

(** The body of the inner loop of [obter_palpites_participante_rodada]:
    [if id_jogo: palpites_rodada[id_jogo] = jogo_palpite]. *)
Definition guardar_palpite (palpites_rodada : gmap string PalpiteValidado.t)
    (jogo_palpite : PalpiteValidado.t) : gmap string PalpiteValidado.t :=
  let id_jogo := PalpiteValidado.id jogo_palpite in
  if String.eqb id_jogo "" then palpites_rodada
  else <[ id_jogo := jogo_palpite ]> palpites_rodada.

(** The outer loop stops ([break]) at the first entry of the round. *)
Definition obter_palpites_participante_rodada
    (palpites_participante : DadosParticipante) (numero_rodada : Z)
    : gmap string PalpiteValidado.t :=
  match list_find (fun rodada_palpites => rodada rodada_palpites = Some numero_rodada)
                  (get (palpites palpites_participante) []) with
  | Some (_, rodada_palpites) =>
    fold_left guardar_palpite (get (jogos rodada_palpites) []) ∅
  | None => ∅
  end.

(** The test of the inner loop of [contar_acertos_exatos_por_jogo]: the
    participant has a prediction for the game, with both goal counts
    equal to the game's. *)
Definition acertou_exato (jogo : Jogo) (id_jogo : string) (numero_rodada : Z)
    (palpites_participante : DadosParticipante) : bool :=
  match obter_palpites_participante_rodada palpites_participante numero_rodada
        !! id_jogo with
  | Some palpite =>
    py_eq (palpite_mandante (como_palpite palpite)) (gols_mandante jogo)
    && py_eq (palpite_visitante (como_palpite palpite)) (gols_visitante jogo)
  | None => false
  end.

(** The inner loop: [acertos_exatos] after all the participants. *)
Definition contar_acertos (jogo : Jogo) (id_jogo : string) (numero_rodada : Z)
    (todos_palpites : list DadosParticipante) : Z :=
  fold_left
    (fun acertos_exatos palpites_participante =>
       if acertou_exato jogo id_jogo numero_rodada palpites_participante
       then acertos_exatos + 1 else acertos_exatos)
    todos_palpites 0.

(** A game the loops do not skip: it has a non-empty id and is
    finished. *)
Definition finalizado_com_id (jogo : Jogo) : option string :=
  match id jogo with
  | None => None
  | Some id_jogo =>
    if String.eqb id_jogo "" then None
    else if negb (bool_decide (status jogo = Some "finalizado"%string)) then None
    else Some id_jogo
  end.

Definition contar_acertos_exatos_por_jogo (jogos : list JogoRodada.t)
    (todos_palpites : list DadosParticipante) (numero_rodada : Z)
    : gmap string Z :=
  fold_left
    (fun acertos_por_jogo jogo =>
       match finalizado_com_id (JogoRodada.jogo jogo) with
       | None => acertos_por_jogo
       | Some id_jogo =>
         <[ id_jogo := contar_acertos (JogoRodada.jogo jogo) id_jogo numero_rodada
                         todos_palpites ]> acertos_por_jogo
       end)
    jogos ∅.

(** The state of the loop of [calcular_pontuacao_participante]:
    [jogos_resultado], [total_pontos_rodada], [jogos_participados]. *)
Definition Estado : Type := list ResultadoJogo.t * Q * Z.

(** One iteration of the loop; [None] when [calcular_pontuacao] raises.
    An entry is made only for a game with an id, which is then the
    entry's. *)
Definition lancar (palpites_rodada : gmap string Palpite)
    (arquivo : ArquivoRegras) (acertos_exatos_por_jogo : gmap string Z)
    (estado : option Estado) (jogo : JogoRodada.t) : option Estado :=
  '(jogos_resultado, total_pontos_rodada, jogos_participados) ← estado;
  lancamento ← pontuar_jogo (JogoRodada.jogo jogo) palpites_rodada arquivo
                            acertos_exatos_por_jogo;
  match lancamento with
  | Ignorado => Some (jogos_resultado, total_pontos_rodada, jogos_participados)
  | Lancado pontos codigo_regra participou =>
    Some (jogos_resultado ++
            [ {| ResultadoJogo.id := get (id (JogoRodada.jogo jogo)) ""%string;
                 ResultadoJogo.mandante := JogoRodada.mandante jogo;
                 ResultadoJogo.visitante := JogoRodada.visitante jogo;
                 ResultadoJogo.pontos := pontos;
                 ResultadoJogo.codigo_regra := codigo_regra |} ],
          (total_pontos_rodada + pontos)%Q,
          if participou then jogos_participados + 1 else jogos_participados)
  end.

(** [DadosParticipante] always carries the keys [apostador] and
    [codigo_apostador], so the defaults of the two [.get] are not
    reached. *)
Definition calcular_pontuacao_participante (participante : DadosParticipante)
    (jogos : list JogoRodada.t) (regras : ArquivoRegras) (numero_rodada : Z)
    (acertos_exatos_por_jogo : gmap string Z) : option ResultadoParticipante.t :=
  let nome_participante := apostador participante in
  let codigo_participante := codigo_apostador participante in
  let palpites_rodada :=
    como_palpite <$> obter_palpites_participante_rodada participante numero_rodada in
  '(jogos_resultado, total_pontos_rodada, jogos_participados) ←
    fold_left (lancar palpites_rodada regras acertos_exatos_por_jogo)
              jogos (Some ([], 0%Q, 0));
  Some {| ResultadoParticipante.participante := nome_participante;
          ResultadoParticipante.codigo := codigo_participante;
          ResultadoParticipante.jogos := jogos_resultado;
          ResultadoParticipante.total_rodada := total_pontos_rodada;
          ResultadoParticipante.jogos_participados := jogos_participados;
          ResultadoParticipante.codigos_regra :=
            map ResultadoJogo.codigo_regra jogos_resultado |}.

(** The games that get an entry in the results of a participant with
    the predictions [palpites_rodada]: finished, with an id, and either
    predicted or mandatory. *)
Definition lancavel (palpites_rodada : gmap string PalpiteValidado.t)
    (jogo : JogoRodada.t) : bool :=
  match finalizado_com_id (JogoRodada.jogo jogo) with
  | None => false
  | Some id_jogo =>
    match palpites_rodada !! id_jogo with
    | Some _ => true
    | None => get (obrigatorio (JogoRodada.jogo jogo)) false
    end
  end.

(** Among them, the games the participant predicted. *)
Definition palpitado (palpites_rodada : gmap string PalpiteValidado.t)
    (jogo : JogoRodada.t) : bool :=
  match finalizado_com_id (JogoRodada.jogo jogo) with
  | None => false
  | Some id_jogo => bool_decide (is_Some (palpites_rodada !! id_jogo))
  end.

(** The entry of a game in the results of a participant with the
    predictions [palpites_rodada]: the game's id and team names, and
    the points and code the loop body gives. *)
Definition entrada_de (palpites_rodada : gmap string PalpiteValidado.t)
    (arquivo : ArquivoRegras) (acertos_exatos_por_jogo : gmap string Z)
    (jogo : JogoRodada.t) (entrada : ResultadoJogo.t) : Prop :=
  finalizado_com_id (JogoRodada.jogo jogo) = Some (ResultadoJogo.id entrada) /\
  ResultadoJogo.mandante entrada = JogoRodada.mandante jogo /\
  ResultadoJogo.visitante entrada = JogoRodada.visitante jogo /\
  pontuar_jogo (JogoRodada.jogo jogo) (como_palpite <$> palpites_rodada) arquivo
               acertos_exatos_por_jogo
  = Some (Lancado (ResultadoJogo.pontos entrada) (ResultadoJogo.codigo_regra entrada)
                  (palpitado palpites_rodada jogo)).

(** The sum of the points of a list of entries. *)
Definition soma_pontos (jogos_resultado : list ResultadoJogo.t) : Q :=
  fold_left (fun total j => (total + ResultadoJogo.pontos j)%Q) jogos_resultado 0%Q.

(** Two participants and a finished game both predicted exactly. *)
Definition participante_exemplo (nome : string) (m v : Z) : DadosParticipante :=
  {| apostador := nome; codigo_apostador := "0001";
     palpites := Some [
       {| rodada := Some 1%Z; data_palpite := "2025-01-01T10:00:00";
          jogos := Some [palpite_guardado "jogo-001" m v];
          apostas_extras := None |} ] |}.

Definition jogo_exemplo : JogoRodada.t :=
  {| JogoRodada.jogo :=
       {| id := Some "jogo-001"%string; status := Some "finalizado"%string;
          obrigatorio := Some true;
          gols_mandante := Some 2; gols_visitante := Some 1 |};
     JogoRodada.mandante := Some (Normalizacao.txt "Flamengo");
     JogoRodada.visitante := Some (Normalizacao.txt "Palmeiras") |}.

End ProcessarRodada.

(* ================================================================== *)
(** * Theorems *)
(* ================================================================== *)

Module PontuacaoProps.
Import Pontuacao.

(** *** Reflection of the integer tests *)

Ltac reflete :=
  repeat match goal with
  | H : (_ =? _) = true |- _ => apply Z.eqb_eq in H
  | H : (_ =? _) = false |- _ => apply Z.eqb_neq in H
  | H : (_ >? _) = true |- _ => apply Z.gtb_gt in H
  | H : (_ >? _) = false |- _ => rewrite Z.gtb_ltb in H; apply Z.ltb_ge in H
  end.

(** Case analysis on every integer test of a goal about the predicates. *)
Ltac casos :=
  repeat match goal with
  | |- context [?a =? ?b] => destruct (a =? b) eqn:?
  | |- context [?a >? ?b] => destruct (a >? b) eqn:?
  end; reflete; simpl in *; try (exfalso; lia); try lia; try congruence.

Lemma py_eq_true (a b : option Z) : py_eq a b = true <-> a = b.
Proof.
  destruct a as [x|], b as [y|]; simpl; split; intros H;
    try discriminate; try reflexivity.
  - apply Z.eqb_eq in H. congruence.
  - injection H as ->. apply Z.eqb_refl.
Qed.

Lemma verificar_resultado_inverso_spec palpite resultado :
  verificar_resultado_inverso palpite resultado = true <->
  placar_invertido palpite resultado.
Proof.
  unfold verificar_resultado_inverso, placar_invertido.
  set (pm := get (palpite_mandante palpite) 0).
  set (pv := get (palpite_visitante palpite) 0).
  set (rm := get (gols_mandante resultado) 0).
  set (rv := get (gols_visitante resultado) 0).
  split.
  - intros H. revert H. casos; intros; try discriminate; lia.
  - intros (H1 & H2 & H3). casos.
Qed.

(** An exact score is never an inverted score. *)
Lemma exato_nao_inverso palpite resultado :
  verificar_resultado_exato palpite resultado = true ->
  verificar_resultado_inverso palpite resultado = false.
Proof.
  unfold verificar_resultado_exato. intros H.
  apply andb_true_iff in H as [Hm Hv].
  apply py_eq_true in Hm. apply py_eq_true in Hv.
  destruct (verificar_resultado_inverso palpite resultado) eqn:E; [|reflexivity].
  apply verificar_resultado_inverso_spec in E.
  unfold placar_invertido in E. rewrite Hm, Hv in E. lia.
Qed.

(** The bonus is always defined: the guard keeps [/] away from zero. *)
Lemma bonus_definido (n : Z) :
  calcular_bonus_resultado_exato n =
    Some (if n <=? 0 then 0%Q else (1 / inject_Z n)%Q).
Proof.
  unfold calcular_bonus_resultado_exato, truediv.
  destruct (n <=? 0) eqn:E; [reflexivity|].
  apply Z.leb_gt in E.
  destruct (n =? 0) eqn:E0; [apply Z.eqb_eq in E0; lia | reflexivity].
Qed.

(** [calcular_pontuacao] unfolded into "the first rule that holds". *)
Lemma calcular_pontuacao_primeira palpite resultado regras n x :
  predicado x palpite resultado = true ->
  (forall y, (prioridade y < prioridade x)%nat -> predicado y palpite resultado = false) ->
  calcular_pontuacao palpite resultado regras n = Some (resposta regras n x).
Proof.
  intros Hx Hantes.
  assert (Hy : forall y b, (prioridade y <? prioridade x)%nat = b -> b = true ->
                 predicado y palpite resultado = false).
  { intros y b <- Hb. apply Hantes. by apply Nat.ltb_lt. }
  unfold calcular_pontuacao. rewrite bonus_definido.
  destruct x; simpl in Hx;
    repeat match goal with
    | |- context [if ?p palpite resultado then _ else _] =>
        first [ rewrite Hx
              | match p with
                | verificar_resultado_inverso => rewrite (Hy RI _ eq_refl eq_refl : p _ _ = false)
                | verificar_resultado_exato => rewrite (Hy AR _ eq_refl eq_refl : p _ _ = false)
                | verificar_vitoria_gols_um_time => rewrite (Hy VG _ eq_refl eq_refl : p _ _ = false)
                | verificar_vitoria_diferenca_gols => rewrite (Hy VD _ eq_refl eq_refl : p _ _ = false)
                | verificar_vitoria_soma_gols => rewrite (Hy VS _ eq_refl eq_refl : p _ _ = false)
                | verificar_apenas_vitoria => rewrite (Hy AV _ eq_refl eq_refl : p _ _ = false)
                | verificar_apenas_empate => rewrite (Hy AE _ eq_refl eq_refl : p _ _ = false)
                | verificar_gols_um_time => rewrite (Hy AG _ eq_refl eq_refl : p _ _ = false)
                end ]
    end; reflexivity.
Qed.

Lemma calcular_pontuacao_nenhuma palpite resultado regras n :
  (forall y, predicado y palpite resultado = false) ->
  calcular_pontuacao palpite resultado regras n = Some (0%Q, "NP"%string).
Proof.
  intros H. unfold calcular_pontuacao.
  rewrite (H RI : verificar_resultado_inverso _ _ = false),
          (H AR : verificar_resultado_exato _ _ = false),
          (H VG : verificar_vitoria_gols_um_time _ _ = false),
          (H VD : verificar_vitoria_diferenca_gols _ _ = false),
          (H VS : verificar_vitoria_soma_gols _ _ = false),
          (H AV : verificar_apenas_vitoria _ _ = false),
          (H AE : verificar_apenas_empate _ _ = false),
          (H AG : verificar_gols_um_time _ _ = false),
          (H AS : verificar_soma_gols _ _ = false).
  reflexivity.
Qed.

(** Either some rule is the first to hold, or none holds. *)
Lemma primeira_ou_nenhuma palpite resultado :
  (exists x, predicado x palpite resultado = true /\
     forall y, (prioridade y < prioridade x)%nat -> predicado y palpite resultado = false)
  \/ (forall y, predicado y palpite resultado = false).
Proof.
  destruct (predicado RI palpite resultado) eqn:E0;
    [left; exists RI; split; [done|]; intros []; simpl; intros; try lia; done|].
  destruct (predicado AR palpite resultado) eqn:E1;
    [left; exists AR; split; [done|]; intros []; simpl; intros; try lia; done|].
  destruct (predicado VG palpite resultado) eqn:E2;
    [left; exists VG; split; [done|]; intros []; simpl; intros; try lia; done|].
  destruct (predicado VD palpite resultado) eqn:E3;
    [left; exists VD; split; [done|]; intros []; simpl; intros; try lia; done|].
  destruct (predicado VS palpite resultado) eqn:E4;
    [left; exists VS; split; [done|]; intros []; simpl; intros; try lia; done|].
  destruct (predicado AV palpite resultado) eqn:E5;
    [left; exists AV; split; [done|]; intros []; simpl; intros; try lia; done|].
  destruct (predicado AE palpite resultado) eqn:E6;
    [left; exists AE; split; [done|]; intros []; simpl; intros; try lia; done|].
  destruct (predicado AG palpite resultado) eqn:E7;
    [left; exists AG; split; [done|]; intros []; simpl; intros; try lia; done|].
  destruct (predicado AS palpite resultado) eqn:E8;
    [left; exists AS; split; [done|]; intros []; simpl; intros; try lia; done|].
  right. intros []; done.
Qed.

(** *** C1: the rule hierarchy *)




(** *** C3: the inverted-score penalty *)

(** Whenever the configuration gives the inverted-score rule a code that
    no other rule (nor the fixed NP) uses, the function returns that
    rule's points and code exactly for inverted scores. *)
Lemma inverso_sse_codigo_exclusivo palpite resultado regras n :
  (forall x, x <> RI -> codigo_configurado regras x <> codigo_configurado regras RI) ->
  codigo_configurado regras RI <> "NP"%string ->
  calcular_pontuacao palpite resultado regras n
    = Some (pontos_configurados regras RI, codigo_configurado regras RI)
  <-> placar_invertido palpite resultado.
Proof.
  intros Hexcl Hnp. split.
  - intros Hc. apply verificar_resultado_inverso_spec.
    destruct (primeira_ou_nenhuma palpite resultado) as [(x & Hx & Hantes)|Hnone].
    + rewrite (calcular_pontuacao_primeira _ _ regras n x Hx Hantes) in Hc.
      destruct x; try exact Hx; exfalso;
        injection Hc as _ Hcod; eapply Hexcl; try exact Hcod; discriminate.
    + rewrite calcular_pontuacao_nenhuma in Hc by done.
      injection Hc as _ Hcod. by destruct Hnp.
  - intros Hinv. apply verificar_resultado_inverso_spec in Hinv.
    unfold calcular_pontuacao. by rewrite Hinv.
Qed.

Lemma codigos_padrao_config x :
  codigo_configurado REGRAS_PONTUACAO_PADRAO x
  = match x with
    | AV => "V" | AE => "E" | AG => "G" | AS => "S"
    | _ => codigo_padrao x
    end%string.
Proof. destruct x; vm_compute; reflexivity. Qed.

Lemma codigos_config_vazia x : codigo_configurado ∅ x = codigo_padrao x.
Proof. destruct x; vm_compute; reflexivity. Qed.

(** C3.  [calcular_pontuacao] returns the configured inverted-score
    penalty and code, whatever the configuration, if and only if the
    predicted home goals equal the actual away goals, the predicted away
    goals equal the actual home goals and the actual result is not a
    draw; with the default configuration (and with the built-in
    defaults) that is [(-3, RI)].  A draw predicted for a draw (1x1
    against 1x1) is not inverted and scores as an exact result. *)
Theorem resultado_inverso_penalidade palpite resultado n :
  (placar_invertido palpite resultado <->
     forall regras,
       calcular_pontuacao palpite resultado regras n
       = Some (pontos_configurados regras RI, codigo_configurado regras RI)) /\
  (calcular_pontuacao palpite resultado REGRAS_PONTUACAO_PADRAO n
     = Some ((-3)%Q, "RI"%string)
   <-> placar_invertido palpite resultado) /\
  (calcular_pontuacao palpite resultado ∅ n = Some ((-3)%Q, "RI"%string)
   <-> placar_invertido palpite resultado) /\
  (forall g regras,
     ~ placar_invertido (palpite_de g g) (resultado_de g g) /\
     calcular_pontuacao (palpite_de g g) (resultado_de g g) regras n
     = Some (resposta regras n AR)).
Proof.
  assert (Hvazia : calcular_pontuacao palpite resultado ∅ n
                   = Some ((-3)%Q, "RI"%string)
                   <-> placar_invertido palpite resultado).
  { assert (E : (pontos_configurados ∅ RI, codigo_configurado ∅ RI)
                 = ((-3)%Q, "RI"%string)) by (vm_compute; reflexivity).
    rewrite <- E.
    apply (inverso_sse_codigo_exclusivo palpite resultado ∅ n).
    - intros x Hx. rewrite !codigos_config_vazia. by destruct x.
    - by rewrite codigos_config_vazia. }
  split; [|split; [|split]].
  - split.
    + intros Hinv regras. apply verificar_resultado_inverso_spec in Hinv.
      unfold calcular_pontuacao. by rewrite Hinv.
    + intros Hall. apply Hvazia. rewrite (Hall ∅). vm_compute. reflexivity.
  - assert (E : (pontos_configurados REGRAS_PONTUACAO_PADRAO RI,
                 codigo_configurado REGRAS_PONTUACAO_PADRAO RI)
                = ((-3)%Q, "RI"%string)) by (vm_compute; reflexivity).
    rewrite <- E.
    apply (inverso_sse_codigo_exclusivo palpite resultado REGRAS_PONTUACAO_PADRAO n).
    + intros x Hx. rewrite !codigos_padrao_config. by destruct x.
    + by rewrite codigos_padrao_config.
  - exact Hvazia.
  - intros g regras. split.
    + unfold placar_invertido. simpl. lia.
    + apply calcular_pontuacao_primeira.
      * simpl. unfold verificar_resultado_exato. simpl. by rewrite Z.eqb_refl.
      * intros y Hy. destruct y; simpl in Hy; try lia.
        simpl. unfold verificar_resultado_inverso. simpl.
        rewrite !Z.eqb_refl. reflexivity.
Qed.

Example resultado_inverso_2x1_1x2 :
  calcular_pontuacao (palpite_de 2 1) (resultado_de 1 2) REGRAS_PONTUACAO_PADRAO 1
  = Some ((-3)%Q, "RI"%string).
Proof. vm_compute. reflexivity. Qed.

(** *** C4: what the configuration drives *)




(** With no exact hit counted, the exact score earns the base points. *)
Example exato_com_zero_acertos :
  calcular_pontuacao (palpite_de 1 1) (resultado_de 1 1) REGRAS_PONTUACAO_PADRAO 0
  = Some (12%Q, "AR"%string).
Proof. vm_compute. reflexivity. Qed.

End PontuacaoProps.

(** ** Python's conversion of an [int] to a [float] *)

Module PythonProps.
Import Python.

Lemma digitos_limites p :
  2 ^ (Z.pos (digits2_pos p) - 1) <= Z.pos p < 2 ^ Z.pos (digits2_pos p).
Proof.
  induction p as [p IH | p IH |]; cbn [digits2_pos].
  - rewrite Pos2Z.inj_succ.
    replace (Z.succ (Z.pos (digits2_pos p)) - 1) with (Z.succ (Z.pos (digits2_pos p) - 1)) by lia.
    rewrite !Z.pow_succ_r by lia. lia.
  - rewrite Pos2Z.inj_succ.
    replace (Z.succ (Z.pos (digits2_pos p)) - 1) with (Z.succ (Z.pos (digits2_pos p) - 1)) by lia.
    rewrite !Z.pow_succ_r by lia. lia.
  - cbn. lia.
Qed.

Lemma digitos_unicos p k :
  2 ^ (k - 1) <= Z.pos p < 2 ^ k -> Z.pos (digits2_pos p) = k.
Proof.
  intros [Hl Hu]. pose proof (digitos_limites p) as [Hl' Hu'].
  assert (0 < k).
  { destruct (Z_lt_le_dec 0 k) as [|Hk]; [done|].
    destruct (Z.eq_dec k 0) as [->|]; [cbn in Hu; lia|].
    rewrite (Z.pow_neg_r 2 k) in Hu by lia. lia. }
  assert (Hlt1 : 2 ^ (k - 1) < 2 ^ Z.pos (digits2_pos p)) by lia.
  assert (Hlt2 : 2 ^ (Z.pos (digits2_pos p) - 1) < 2 ^ k) by lia.
  apply Z.pow_lt_mono_r_iff in Hlt1; [|lia|lia].
  apply Z.pow_lt_mono_r_iff in Hlt2; [|lia|lia].
  lia.
Qed.

Lemma fexp_normal e : -1021 <= e -> fexp prec emax e = e - 53.
Proof. unfold fexp, emin, prec, emax. lia. Qed.

Lemma shr_1_metade mrs :
  0 <= shr_m mrs -> shr_m (shr_1 mrs) = shr_m mrs / 2.
Proof.
  destruct mrs as [m r s]. cbn [shr_m]. intros Hm.
  destruct m as [|[p|p|]|p]; cbn [shr_1 shr_m]; [done| | |done|lia].
  - apply Z.div_unique with 1; lia.
  - apply Z.div_unique with 0; lia.
Qed.

Lemma iter_shr_1 k mrs :
  0 <= shr_m mrs -> shr_m (iter_pos shr_1 k mrs) = shr_m mrs / 2 ^ Z.pos k.
Proof.
  revert mrs. induction k as [k IH | k IH |]; intros mrs Hm; cbn [iter_pos].
  - assert (H1 : 0 <= shr_m (shr_1 mrs)).
    { rewrite shr_1_metade by done. apply Z.div_pos; lia. }
    assert (H2 : 0 <= shr_m (iter_pos shr_1 k (shr_1 mrs))).
    { rewrite IH by done. apply Z.div_pos; [done|]. apply Z.pow_pos_nonneg; lia. }
    rewrite IH, IH, shr_1_metade by done.
    rewrite !Z.div_div by (try apply Z.pow_pos_nonneg; lia).
    f_equal.
    replace (Z.pos k~1) with (1 + Z.pos k + Z.pos k) by lia.
    rewrite !Z.pow_add_r by lia. lia.
  - assert (H2 : 0 <= shr_m (iter_pos shr_1 k mrs)).
    { rewrite IH by done. apply Z.div_pos; [done|]. apply Z.pow_pos_nonneg; lia. }
    rewrite IH, IH by done.
    rewrite !Z.div_div by (try apply Z.pow_pos_nonneg; lia).
    f_equal.
    replace (Z.pos k~0) with (Z.pos k + Z.pos k) by lia.
    rewrite !Z.pow_add_r by lia. lia.
  - rewrite shr_1_metade by done. done.
Qed.

(** A mantissa of 53 digits is kept as it is. *)
Lemma arredonda_53 s m e :
  Z.pos (digits2_pos m) = 53 -> -1074 <= e ->
  binary_round_aux prec emax s (Z.pos m) e loc_Exact =
    if e <=? 971 then S754_finite s m e else S754_infinity s.
Proof.
  intros Hd He.
  assert (Hn : fexp prec emax (Zdigits2 (Z.pos m) + e) - e = 0).
  { cbn [Zdigits2]. rewrite Hd. unfold fexp, emin, prec, emax. lia. }
  unfold binary_round_aux, shr_fexp. rewrite Hn.
  cbn [shr shr_record_of_loc shr_m loc_of_shr_record round_nearest_even].
  rewrite Hn. cbn [shr shr_record_of_loc shr_m]. done.
Qed.

Lemma iter_xO_vezes k p : Z.pos (Pos.iter xO p k) = Z.pos p * 2 ^ Z.pos k.
Proof.
  induction k as [|k IH] using Pos.peano_ind.
  - cbn. lia.
  - rewrite Pos.iter_succ, Pos2Z.inj_succ, Z.pow_succ_r by lia. lia.
Qed.

(** The conversion of a positive integer of [d] binary digits: a
    finite double of exponent [d - 53] or [d - 52], or an infinity
    when that exponent is beyond the largest. *)
Lemma arredonda_inteiro s p :
  exists m e,
    Z.pos (digits2_pos p) - 53 <= e <= Z.pos (digits2_pos p) - 52 /\
    binary_round prec emax s p 0 =
      if e <=? 971 then S754_finite s m e else S754_infinity s.
Proof.
  pose proof (digitos_limites p) as Hp.
  set (d := Z.pos (digits2_pos p)) in *.
  assert (Hd : 1 <= d) by (unfold d; lia).
  unfold binary_round, shl_align.
  rewrite Z.add_0_r, fexp_normal by (fold d; lia). fold d.
  destruct (d - 53 - 0) as [|k|k] eqn:Hk.
  - exists p, 0. split; [lia|].
    rewrite arredonda_53; [done|fold d; lia|lia].
  - (* more than 53 digits: [k] of them are shifted out *)
    assert (Hdk : d = 53 + Z.pos k) by lia.
    unfold binary_round_aux, shr_fexp.
    cbn [Zdigits2]. fold d.
    rewrite Z.add_0_r, fexp_normal, Z.sub_0_r by lia.
    replace (d - 53) with (Z.pos k) by lia.
    cbn [shr shr_record_of_loc].
    set (mrs := iter_pos shr_1 k _).
    assert (Hm : shr_m mrs = Z.pos p / 2 ^ Z.pos k).
    { unfold mrs. rewrite iter_shr_1; cbn [shr_m]; [done|lia]. }
    assert (Hpk : 0 < 2 ^ Z.pos k) by (apply Z.pow_pos_nonneg; lia).
    assert (Hlim : 2 ^ 52 <= shr_m mrs < 2 ^ 53).
    { rewrite Hm. split.
      - apply Z.div_le_lower_bound; [done|].
        rewrite <- Z.pow_add_r by lia.
        replace (Z.pos k + 52) with (d - 1) by lia. lia.
      - apply Z.div_lt_upper_bound; [done|].
        rewrite <- Z.pow_add_r by lia.
        replace (Z.pos k + 53) with d by lia. lia. }
    set (m2 := round_nearest_even _ _).
    assert (Hm2 : m2 = shr_m mrs \/ m2 = shr_m mrs + 1).
    { unfold m2, round_nearest_even.
      destruct (loc_of_shr_record mrs) as [|[]]; try (by left); try (by right).
      destruct (Z.even _); [by left|by right]. }
    rewrite Z.add_0_l. clearbody m2.
    destruct (Z.eq_dec m2 (2 ^ 53)) as [Hcheio|Hcheio].
    + rewrite Hcheio. exists (4503599627370496)%positive, (Z.pos k + 1).
      split; [lia|].
      change (2 ^ 53) with 9007199254740992.
      change (Zdigits2 9007199254740992) with 54.
      rewrite fexp_normal by lia.
      replace (54 + Z.pos k - 53 - Z.pos k) with 1 by lia.
      cbn [shr shr_record_of_loc iter_pos shr_1 shr_m]. done.
    + destruct m2 as [|q|q] eqn:Hq; [lia| |lia].
      assert (Hdq : Z.pos (digits2_pos q) = 53).
      { apply digitos_unicos. change (53 - 1) with 52. lia. }
      exists q, (Z.pos k). split; [lia|].
      cbn [Zdigits2]. rewrite Hdq, fexp_normal by lia.
      replace (53 + Z.pos k - 53 - Z.pos k) with 0 by lia.
      cbn [shr shr_record_of_loc shr_m]. done.
  - (* fewer than 53 digits: the mantissa is shifted left *)
    exists (Pos.iter xO p k), (d - 53). split; [lia|].
    rewrite arredonda_53; [done| |lia].
    apply digitos_unicos. rewrite iter_xO_vezes.
    assert (H53 : 53 = d + Z.pos k) by lia.
    replace (53 - 1) with ((d - 1) + Z.pos k) by lia.
    replace 53 with (d + Z.pos k) by lia. rewrite !Z.pow_add_r by lia.
    assert (0 < 2 ^ Z.pos k) by (apply Z.pow_pos_nonneg; lia).
    nia.
Qed.

(** [float(n)] of a non-zero [int]: a finite non-zero double, or
    [OverflowError]. *)
Lemma float_de_int_forma n :
  n <> 0 ->
  exists m e,
    Zdigits2 n - 53 <= e <= Zdigits2 n - 52 /\
    float_de_int n =
      if e <=? 971 then Retorna (S754_finite (n <? 0) m e)
      else Levanta OverflowError.
Proof.
  intros Hn. unfold float_de_int.
  destruct n as [|p|p]; [done| |]; cbn [binary_normalize Zdigits2].
  - destruct (arredonda_inteiro false p) as (m & e & He & ->).
    exists m, e. split; [done|]. by destruct (e <=? 971).
  - destruct (arredonda_inteiro true p) as (m & e & He & ->).
    exists m, e. split; [done|]. by destruct (e <=? 971).
Qed.

Lemma float_de_int_zero : float_de_int 0 = Retorna zero.
Proof. reflexivity. Qed.

Lemma digitos_abs n : n <> 0 -> 2 ^ (Zdigits2 n - 1) <= Z.abs n < 2 ^ Zdigits2 n.
Proof.
  destruct n as [|p|p]; [done| |]; intros _; cbn [Zdigits2 Z.abs];
    apply digitos_limites.
Qed.

(** The conversion returns for every [int] below [2^1023] in absolute
    value. *)
Lemma float_de_int_retorna n :
  Z.abs n < 2 ^ 1023 -> retornou (float_de_int n).
Proof.
  intros Hn. destruct (Z.eq_dec n 0) as [->|Hz]; [by eexists|].
  destruct (float_de_int_forma n Hz) as (m & e & He & ->).
  pose proof (digitos_abs n Hz) as [Hl _].
  assert (Hlt : 2 ^ (Zdigits2 n - 1) < 2 ^ 1023) by lia.
  apply Z.pow_lt_mono_r_iff in Hlt; [|lia|lia].
  destruct (Z.leb_spec e 971); [by eexists|lia].
Qed.

(** It raises [OverflowError] for every [int] from [2^1024] on. *)
Lemma float_de_int_overflow n :
  2 ^ 1024 <= Z.abs n -> float_de_int n = Levanta OverflowError.
Proof.
  intros Hn.
  assert (Hz : n <> 0).
  { intros ->. cbn [Z.abs] in Hn. pose proof (Z.pow_pos_nonneg 2 1024). lia. }
  destruct (float_de_int_forma n Hz) as (m & e & He & ->).
  pose proof (digitos_abs n Hz) as [_ Hu].
  assert (Hlt : 2 ^ 1024 < 2 ^ Zdigits2 n) by lia.
  apply Z.pow_lt_mono_r_iff in Hlt; [|lia|].
  2:{ destruct n; cbn [Zdigits2]; lia. }
  destruct (Z.leb_spec e 971); [lia|done].
Qed.

(** The double of a non-zero [int] is not zero. *)
Lemma float_de_int_nao_zero n f :
  n <> 0 -> float_de_int n = Retorna f -> e_zero f = false.
Proof.
  intros Hz Hf. destruct (float_de_int_forma n Hz) as (m & e & _ & Heq).
  rewrite Heq in Hf. destruct (e <=? 971); [|done]. by injection Hf as <-.
Qed.

(** The conversion raises nothing but [OverflowError]. *)
Lemma float_de_int_excecao n ex :
  float_de_int n = Levanta ex -> ex = OverflowError.
Proof.
  unfold float_de_int. destruct (binary_normalize _ _ _ _ _); congruence.
Qed.

(** [x / n] for a non-zero [int] [n] never divides by zero. *)
Lemma truediv_int_excecao x n ex :
  n <> 0 -> truediv_int x n = Levanta ex -> ex = OverflowError.
Proof.
  intros Hz. unfold truediv_int.
  destruct (float_de_int n) as [f|e'] eqn:Hf; cbn.
  - unfold float_truediv. by rewrite (float_de_int_nao_zero n f Hz Hf).
  - intros [= <-]. by apply (float_de_int_excecao n).
Qed.

Lemma truediv_int_retorna x n :
  n <> 0 -> retornou (truediv_int x n) <-> retornou (float_de_int n).
Proof.
  intros Hz. unfold truediv_int.
  destruct (float_de_int n) as [f|e'] eqn:Hf; cbn.
  - unfold float_truediv. rewrite (float_de_int_nao_zero n f Hz Hf).
    split; intros _; by eexists.
  - split; intros [a Ha]; done.
Qed.

Lemma add_float_retorna x y : retornou (add_float x y) <-> PontuacaoPython.convertivel x.
Proof.
  destruct x as [z|f]; cbn.
  - destruct (float_de_int z) as [fz|e]; cbn.
    + split; intros _; by eexists.
    + split; intros [a Ha]; done.
  - split; [done|]. intros _. by eexists.
Qed.

Lemma add_float_excecao x y ex :
  add_float x y = Levanta ex -> ex = OverflowError.
Proof.
  destruct x as [z|f]; cbn; [|done].
  destruct (float_de_int z) as [fz|e] eqn:Hz; cbn; [done|].
  intros [= <-]. by apply (float_de_int_excecao z).
Qed.

End PythonProps.

(** ** The scoring function on Python's values *)

Module PontuacaoPythonProps.
Import Python PontuacaoPython PythonProps.

(** *** Goal counts that are not [None] *)

Lemma presente_some campo :
  presente campo = true -> exists z, obter_ou_zero campo = Some z.
Proof. destruct campo; [by exists 0|done|by eexists]. Qed.

Lemma presente_none campo :
  presente campo = false -> obter_ou_zero campo = None.
Proof. by destruct campo. Qed.

(** With no [None] among the goal counts, the values compared by an
    exact score are the values compared by the other predicates. *)
Lemma py_eq_obter a b :
  presente a = true -> presente b = true ->
  py_eq (obter a) (obter b) = true ->
  obter_ou_zero a = obter_ou_zero b.
Proof.
  destruct a as [| |x], b as [| |y]; cbn; intros ? ? H; try done.
  by apply Z.eqb_eq in H as ->.
Qed.

Lemma py_eq_some (x y : Z) : py_eq (Some x) (Some y) = (x =? y).
Proof. reflexivity. Qed.

(** An exact score among [int]s is not an inverted one. *)
Lemma exato_sem_inverso palpite resultado :
  sem_nulos palpite resultado = true ->
  verificar_resultado_exato palpite resultado = true ->
  verificar_resultado_inverso palpite resultado = false.
Proof.
  unfold sem_nulos, verificar_resultado_exato, verificar_resultado_inverso.
  intros Hs He. cbv zeta.
  apply andb_true_iff in Hs as [Hs H4]. apply andb_true_iff in Hs as [Hs H3].
  apply andb_true_iff in Hs as [H1 H2]. apply andb_true_iff in He as [Hm Hv].
  rewrite (py_eq_obter _ _ H1 H3 Hm), (py_eq_obter _ _ H2 H4 Hv).
  destruct (presente_some _ H3) as [a ->], (presente_some _ H4) as [b ->].
  rewrite !py_eq_some. lia.
Qed.

(** *** The predicates that compare with [>] *)

Section Comparacoes.
Variables (palpite : Palpite) (resultado : Resultado).

Ltac abre :=
  unfold verificar_vitoria_gols_um_time, verificar_vitoria_diferenca_gols,
    verificar_vitoria_soma_gols, verificar_apenas_vitoria,
    verificar_gols_um_time, verificar_soma_gols, nao_acertou_resultado;
  cbv zeta.

Ltac compara :=
  cbn [gt sub add e_tambem mbind Py_bind];
  repeat match goal with
  | |- context [?x >? ?y] => destruct (x >? y)
  end;
  cbn [gt sub add e_tambem mbind Py_bind].

(** With no [None] among the goal counts every predicate returns. *)
Lemma predicados_retornam :
  sem_nulos palpite resultado = true ->
  retornou (verificar_vitoria_gols_um_time palpite resultado) /\
  retornou (verificar_vitoria_diferenca_gols palpite resultado) /\
  retornou (verificar_vitoria_soma_gols palpite resultado) /\
  retornou (verificar_apenas_vitoria palpite resultado) /\
  retornou (verificar_gols_um_time palpite resultado) /\
  retornou (verificar_soma_gols palpite resultado).
Proof.
  unfold sem_nulos. intros Hs.
  apply andb_true_iff in Hs as [Hs H4]. apply andb_true_iff in Hs as [Hs H3].
  apply andb_true_iff in Hs as [H1 H2].
  abre.
  destruct (presente_some _ H1) as [a ->], (presente_some _ H2) as [b ->],
    (presente_some _ H3) as [c ->], (presente_some _ H4) as [d ->].
  split_and!; compara; try (by eexists);
    destruct (py_eq (Some a) (Some b) && py_eq (Some c) (Some d)); by eexists.
Qed.

(** With a [None] among them, the first predicate of the chain raises
    [TypeError], or it answers no and the second raises it. *)
Lemma predicados_levantam :
  sem_nulos palpite resultado = false ->
  verificar_vitoria_gols_um_time palpite resultado = Levanta TypeError \/
  (verificar_vitoria_gols_um_time palpite resultado = Retorna false /\
   verificar_vitoria_diferenca_gols palpite resultado = Levanta TypeError).
Proof.
  unfold sem_nulos. intros Hs. abre.
  destruct (presente (palpite_mandante palpite)) eqn:H1.
  2:{ rewrite (presente_none _ H1). by left. }
  destruct (presente_some _ H1) as [a ->].
  destruct (presente (palpite_visitante palpite)) eqn:H2.
  2:{ rewrite (presente_none _ H2). by left. }
  destruct (presente_some _ H2) as [b ->].
  assert (Hnone : obter_ou_zero (gols_mandante resultado) = None \/
                  obter_ou_zero (gols_visitante resultado) = None).
  { destruct (presente (gols_mandante resultado)) eqn:H3;
      [|left; by apply presente_none].
    destruct (presente (gols_visitante resultado)) eqn:H4; [done|].
    right. by apply presente_none. }
  destruct (obter_ou_zero (gols_mandante resultado)) as [c|],
    (obter_ou_zero (gols_visitante resultado)) as [d|];
    [by destruct Hnone|..]; compara; first [by left | by right].
Qed.

End Comparacoes.

(** *** The two branches of [calcular_pontuacao] *)

Lemma da_regra_retorna regras nome pontos_padrao codigo_padrao :
  retornou (da_regra regras nome pontos_padrao codigo_padrao).
Proof. by eexists. Qed.

(** The chain of the rules after the exact score. *)
Lemma calcular_pontuacao_outras palpite resultado regras N :
  verificar_resultado_inverso palpite resultado = false ->
  verificar_resultado_exato palpite resultado = false ->
  (sem_nulos palpite resultado = true ->
     retornou (calcular_pontuacao palpite resultado regras N)) /\
  (sem_nulos palpite resultado = false ->
     calcular_pontuacao palpite resultado regras N = Levanta TypeError).
Proof.
  intros Hri Har. unfold calcular_pontuacao. rewrite Hri, Har. split.
  - intros Hs.
    destruct (predicados_retornam palpite resultado Hs)
      as ([vg ->] & [vd ->] & [vs ->] & [av ->] & [ag ->] & [asg ->]).
    cbn [mbind Py_bind].
    destruct vg; [apply da_regra_retorna|].
    destruct vd; [apply da_regra_retorna|].
    destruct vs; [apply da_regra_retorna|].
    destruct av; [apply da_regra_retorna|].
    destruct (verificar_apenas_empate palpite resultado); [apply da_regra_retorna|].
    destruct ag; [apply da_regra_retorna|].
    destruct asg; [apply da_regra_retorna|].
    by eexists.
  - intros Hs.
    destruct (predicados_levantam palpite resultado Hs) as [-> | [-> ->]]; done.
Qed.

(** The bonus: [0.0] for a count that is not positive, else the double
    of [1.0 / N]. *)
Lemma calcular_bonus_forma N :
  calcular_bonus_resultado_exato N =
    if N <=? 0 then Retorna zero
    else fn ← float_de_int N; Retorna (SFdiv prec emax um fn).
Proof.
  unfold calcular_bonus_resultado_exato, truediv_int.
  destruct (Z.leb_spec N 0) as [|Hpos]; [done|].
  destruct (float_de_int N) as [fn|e] eqn:Hfn; cbn [mbind Py_bind]; [|done].
  unfold float_truediv. by rewrite (float_de_int_nao_zero N fn) by (done || lia).
Qed.

Lemma calcular_bonus_retorna N :
  retornou (calcular_bonus_resultado_exato N) <->
  N <= 0 \/ retornou (float_de_int N).
Proof.
  rewrite calcular_bonus_forma. destruct (Z.leb_spec N 0) as [|Hpos].
  - split; [by left|]. intros _. by eexists.
  - destruct (float_de_int N) as [fn|e]; cbn [mbind Py_bind].
    + split; [intros _; right|intros _]; by eexists.
    + split; [intros [a Ha]; done|]. intros [?|[a Ha]]; [lia|done].
Qed.

Lemma calcular_bonus_excecao N ex :
  calcular_bonus_resultado_exato N = Levanta ex -> ex = OverflowError.
Proof.
  rewrite calcular_bonus_forma. destruct (N <=? 0); [done|].
  destruct (float_de_int N) as [fn|e] eqn:Hfn; cbn [mbind Py_bind]; [done|].
  intros [= <-]. by apply (float_de_int_excecao N).
Qed.

(** The exact score. *)
Lemma calcular_pontuacao_exata palpite resultado regras N :
  verificar_resultado_inverso palpite resultado = false ->
  verificar_resultado_exato palpite resultado = true ->
  calcular_pontuacao palpite resultado regras N =
    (bonus ← calcular_bonus_resultado_exato N;
     pontos ← add_float (pontos_base_de regras) bonus;
     Retorna (Float pontos, codigo_exato_de regras)).
Proof.
  intros Hri Har. unfold calcular_pontuacao. by rewrite Hri, Har.
Qed.

Lemma calcular_pontuacao_exata_retorna palpite resultado regras N :
  verificar_resultado_inverso palpite resultado = false ->
  verificar_resultado_exato palpite resultado = true ->
  (retornou (calcular_pontuacao palpite resultado regras N) <->
     (N <= 0 \/ retornou (float_de_int N)) /\ convertivel (pontos_base_de regras)) /\
  (forall ex, calcular_pontuacao palpite resultado regras N = Levanta ex ->
     ex = OverflowError).
Proof.
  intros Hri Har. rewrite calcular_pontuacao_exata by done.
  rewrite <- calcular_bonus_retorna, <- (add_float_retorna (pontos_base_de regras) zero).
  destruct (calcular_bonus_resultado_exato N) as [bonus|e] eqn:Hb; cbn [mbind Py_bind].
  - pose proof (add_float_retorna (pontos_base_de regras) bonus) as Hconv.
    pose proof (add_float_retorna (pontos_base_de regras) zero) as Hzero.
    destruct (add_float (pontos_base_de regras) bonus) as [pontos|e] eqn:Hp;
      cbn [mbind Py_bind].
    + split.
      * split; [intros _|intros _; by eexists].
        split; [by eexists|]. apply Hzero, Hconv. by eexists.
      * done.
    + split.
      * split; [intros [a Ha]; done|]. intros [_ Hz].
        apply Hzero, Hconv in Hz as [a Ha]. done.
      * intros ex [= <-]. by apply (add_float_excecao _ _ _ Hp).
  - split.
    + split; [intros [a Ha]; done|]. intros [[a Ha] _]. done.
    + intros ex [= <-]. by apply (calcular_bonus_excecao N).
Qed.

(** *** The points checked count by count *)

Lemma totais_conferidos_todos :
  forallb bonus_conferido totais_conferidos = true.
Proof. vm_compute. reflexivity. Qed.

Lemma bonus_conferido_ate N :
  1 <= N <= maior_total_conferido -> bonus_conferido N = true.
Proof.
  intros HN. pose proof totais_conferidos_todos as H.
  rewrite forallb_forall in H. apply H. unfold totais_conferidos.
  rewrite <- (Z2Nat.id N) by lia. apply in_map, in_seq. lia.
Qed.

(** C2, counterexample.  Three participants with the exact score: the
    points are the double [6943049425529515 * 2^-49], which is not the
    rational [12 + 1/3]; and with [10^400] of them the conversion of
    the count raises [OverflowError]. *)
Lemma resultado_exato_um_terco :
  calcular_pontuacao (palpite_de 2 1) (resultado_de 2 1) REGRAS_PONTUACAO_PADRAO 3
    = Retorna (Float (S754_finite false 6943049425529515 (-49)), "AR"%string) /\
  ~ (valor (S754_finite false 6943049425529515 (-49)) == 12 + 1 / 3)%Q /\
  calcular_pontuacao (palpite_de 2 1) (resultado_de 2 1) REGRAS_PONTUACAO_PADRAO
    (10 ^ 400) = Levanta OverflowError.
Proof.
  split_and!.
  - vm_compute. reflexivity.
  - vm_compute. discriminate.
  - vm_compute. reflexivity.
Qed.

(** C2, amended.  For an exact score that is not also an inverted one
    (no exact score among [int]s is) and a count [N >= 1] of exact
    hits, [calcular_pontuacao] computes in binary64: it converts [N],
    divides [1.0] by it, adds the configured base points and returns
    the sum with the configured code of [resultado_exato]; it returns
    whenever [N < 2^1023] and the base is a [float] or an [int] that
    has a double.  Under the base 12 the points are exactly [13.0] for
    [N = 1] and [12.5] for [N = 2], and within [2^-49] of [12 + 1/N]
    for every [N] up to [maior_total_conferido].  The base is 12 and
    the code [AR] in the default configuration and when the key is
    absent. *)
Theorem resultado_exato_bonus palpite resultado regras N :
  (sem_nulos palpite resultado = true ->
   verificar_resultado_exato palpite resultado = true ->
   verificar_resultado_inverso palpite resultado = false) /\
  (verificar_resultado_exato palpite resultado = true ->
   verificar_resultado_inverso palpite resultado = false ->
   1 <= N ->
   calcular_pontuacao palpite resultado regras N =
     (fn ← float_de_int N;
      pontos ← add_float (pontos_base_de regras) (SFdiv prec emax um fn);
      Retorna (Float pontos, codigo_exato_de regras)) /\
   (N < 2 ^ 1023 -> convertivel (pontos_base_de regras) ->
      exists pontos,
        calcular_pontuacao palpite resultado regras N =
          Retorna (Float pontos, codigo_exato_de regras)) /\
   (pontos_base_de regras = Int 12 ->
      (N = 1 ->
         calcular_pontuacao palpite resultado regras N =
           Retorna (Float treze, codigo_exato_de regras)) /\
      (N = 2 ->
         calcular_pontuacao palpite resultado regras N =
           Retorna (Float doze_e_meio, codigo_exato_de regras)) /\
      (N <= maior_total_conferido ->
         exists pontos,
           calcular_pontuacao palpite resultado regras N =
             Retorna (Float pontos, codigo_exato_de regras) /\
           perto_de_doze_mais_um_sobre N pontos = true))) /\
  (valor treze == 13)%Q /\ (valor doze_e_meio == 25 # 2)%Q /\
  pontos_base_de REGRAS_PONTUACAO_PADRAO = Int 12 /\
  codigo_exato_de REGRAS_PONTUACAO_PADRAO = "AR"%string /\
  pontos_base_de ∅ = Int 12 /\
  codigo_exato_de ∅ = "AR"%string.
Proof.
  split; [apply exato_sem_inverso|].
  split; [|by split_and!; vm_compute].
  intros Har Hri HN.
  rewrite (calcular_pontuacao_exata _ _ _ _ Hri Har).
  split_and!.
  - rewrite calcular_bonus_forma.
    destruct (Z.leb_spec N 0); [lia|].
    by destruct (float_de_int N).
  - intros Hlim Hconv.
    assert (Hret : retornou (calcular_pontuacao palpite resultado regras N)).
    { apply (calcular_pontuacao_exata_retorna _ _ _ _ Hri Har). split; [|done].
      right. apply float_de_int_retorna. lia. }
    rewrite (calcular_pontuacao_exata _ _ _ _ Hri Har) in Hret.
    destruct Hret as [[pontos codigo] Hret]. rewrite Hret.
    destruct (calcular_bonus_resultado_exato N) as [bonus|]; [|done].
    cbn [mbind Py_bind] in Hret.
    destruct (add_float (pontos_base_de regras) bonus) as [p|]; [|done].
    cbn [mbind Py_bind] in Hret. injection Hret as <- <-. by eexists.
  - intros Hb. rewrite Hb. split_and!.
    + intros ->. vm_compute. reflexivity.
    + intros ->. vm_compute. reflexivity.
    + intros Hmax.
      pose proof (bonus_conferido_ate N ltac:(lia)) as Hok.
      unfold bonus_conferido in Hok.
      destruct (calcular_bonus_resultado_exato N) as [bonus|]; [|done].
      cbn [mbind Py_bind] in Hok |- *.
      destruct (add_float (Int 12) bonus) as [p|]; [|done].
      cbn [mbind Py_bind]. by exists p.
Qed.

(** Two participants with the exact score 2x1 under the default
    configuration: 12.5 points each. *)
Lemma resultado_exato_bonus_witness :
  calcular_pontuacao (palpite_de 2 1) (resultado_de 2 1) REGRAS_PONTUACAO_PADRAO 2
  = Retorna (Float doze_e_meio, "AR"%string).
Proof.
  apply (proj1 (proj2 (proj2 (proj2
    (proj1 (proj2 (resultado_exato_bonus (palpite_de 2 1) (resultado_de 2 1)
                     REGRAS_PONTUACAO_PADRAO 2))
       eq_refl eq_refl ltac:(lia))) eq_refl))).
  reflexivity.
Defined.

(** C10, counterexample.  An exact score with [10^400] exact hits:
    [1.0 / N] raises [OverflowError]; and a prediction whose home goal
    count is [None]: the first comparison raises [TypeError]. *)
Lemma calcular_pontuacao_levanta :
  calcular_pontuacao (palpite_de 2 1) (resultado_de 2 1) REGRAS_PONTUACAO_PADRAO
    (10 ^ 400) = Levanta OverflowError /\
  calcular_pontuacao {| palpite_mandante := Nulo; palpite_visitante := Gols 1 |}
    (resultado_de 2 1) REGRAS_PONTUACAO_PADRAO 1 = Levanta TypeError.
Proof. split; vm_compute; reflexivity. Qed.

(** C10, amended.  [calcular_bonus_resultado_exato] returns [0.0] for
    every [N <= 0] and never divides by zero: the only exception it
    raises is [OverflowError], when [N] has no double.
    [calcular_pontuacao] never raises [ZeroDivisionError] either, and it
    returns a pair

    - whenever the score is inverted;
    - for an exact score that is not inverted, exactly when [N <= 0] or
      [N] has a double, and the base points are a [float] or an [int]
      that has a double; otherwise it raises [OverflowError];
    - for any other score, exactly when no goal count is [None];
      otherwise it raises [TypeError].

    An [int] has a double when it is below [2^1023] in absolute value,
    and none from [2^1024] on. *)
Theorem calcular_pontuacao_quando_retorna palpite resultado regras N :
  (N <= 0 -> calcular_bonus_resultado_exato N = Retorna zero) /\
  (forall ex, calcular_bonus_resultado_exato N = Levanta ex -> ex = OverflowError) /\
  calcular_pontuacao palpite resultado regras N <> Levanta ZeroDivisionError /\
  (verificar_resultado_inverso palpite resultado = true ->
     retornou (calcular_pontuacao palpite resultado regras N)) /\
  (verificar_resultado_inverso palpite resultado = false ->
   verificar_resultado_exato palpite resultado = true ->
     (retornou (calcular_pontuacao palpite resultado regras N) <->
        (N <= 0 \/ retornou (float_de_int N)) /\
        convertivel (pontos_base_de regras)) /\
     (~ retornou (calcular_pontuacao palpite resultado regras N) ->
        calcular_pontuacao palpite resultado regras N = Levanta OverflowError)) /\
  (verificar_resultado_inverso palpite resultado = false ->
   verificar_resultado_exato palpite resultado = false ->
     (sem_nulos palpite resultado = true ->
        retornou (calcular_pontuacao palpite resultado regras N)) /\
     (sem_nulos palpite resultado = false ->
        calcular_pontuacao palpite resultado regras N = Levanta TypeError)) /\
  (forall n, Z.abs n < 2 ^ 1023 -> retornou (float_de_int n)) /\
  (forall n, 2 ^ 1024 <= Z.abs n -> float_de_int n = Levanta OverflowError).
Proof.
  split_and!.
  - intros HN. unfold calcular_bonus_resultado_exato.
    by destruct (Z.leb_spec N 0); [|lia].
  - apply calcular_bonus_excecao.
  - destruct (verificar_resultado_inverso palpite resultado) eqn:Hri.
    { unfold calcular_pontuacao. by rewrite Hri. }
    destruct (verificar_resultado_exato palpite resultado) eqn:Har.
    + intros H.
      by apply (calcular_pontuacao_exata_retorna _ _ regras N Hri Har) in H.
    + destruct (sem_nulos palpite resultado) eqn:Hs.
      * destruct (proj1 (calcular_pontuacao_outras _ _ regras N Hri Har) Hs)
          as [a ->]. done.
      * by rewrite (proj2 (calcular_pontuacao_outras _ _ regras N Hri Har) Hs).
  - intros Hri. unfold calcular_pontuacao. rewrite Hri. apply da_regra_retorna.
  - intros Hri Har.
    destruct (calcular_pontuacao_exata_retorna _ _ regras N Hri Har) as [Hiff Hex].
    split; [exact Hiff|]. intros Hno.
    destruct (calcular_pontuacao palpite resultado regras N) as [a|ex] eqn:Hc.
    + exfalso. apply Hno. by eexists.
    + by rewrite (Hex ex).
  - apply calcular_pontuacao_outras.
  - apply float_de_int_retorna.
  - apply float_de_int_overflow.
Qed.

End PontuacaoPythonProps.

Module ImportarPalpitesProps.
Import Normalizacao ImportarPalpites.

(** *** Searching a list *)

Section Busca.
Context {A : Type} (P : A -> Prop) `{!forall x, Decision (P x)}.

(** Replacing the element found by another one that is found too. *)
Lemma list_find_troca_achado (l : list A) i x y :
  list_find P l = Some (i, x) -> P y ->
  list_find P (<[i := y]> l) = Some (i, y).
Proof.
  intros Hf Hy. apply list_find_Some in Hf as (Hi & _ & Hmin).
  apply list_find_Some. split_and!.
  - apply list_lookup_insert_eq. by eapply lookup_lt_Some.
  - done.
  - intros j z Hj Hlt. rewrite list_lookup_insert_ne in Hj by lia. eauto.
Qed.

(** Replacing an element the search skips by another one it skips. *)
Lemma list_find_troca_ignorado (l : list A) i x y :
  l !! i = Some x -> ~ P x -> ~ P y ->
  list_find P (<[i := y]> l) = list_find P l.
Proof.
  intros Hi Hx Hy. apply option_eq. intros [j z]. rewrite !list_find_Some.
  destruct (decide (j = i)) as [->|Hne].
  - rewrite list_lookup_insert_eq by (by eapply lookup_lt_Some).
    rewrite Hi. split; intros (? & ? & _); simplify_eq; done.
  - rewrite list_lookup_insert_ne by done.
    split; intros (Hj & Hz & Hmin); split_and!; try done; intros k w Hk Hlt.
    + destruct (decide (k = i)) as [->|]; [by simplify_eq|].
      apply (Hmin k); [by rewrite list_lookup_insert_ne|done].
    + destruct (decide (k = i)) as [->|].
      * rewrite list_lookup_insert_eq in Hk by (by eapply lookup_lt_Some).
        by simplify_eq.
      * rewrite list_lookup_insert_ne in Hk by done. eauto.
Qed.

(** Appending an element the search skips. *)
Lemma list_find_acrescenta_ignorado (l : list A) y :
  ~ P y -> list_find P (l ++ [y]) = list_find P l.
Proof.
  intros Hy. destruct (list_find P l) as [[i x]|] eqn:E.
  - by apply list_find_app_l.
  - rewrite list_find_app_r by done. simpl. by rewrite decide_False.
Qed.

(** Appending an element the search wants to a list without one. *)
Lemma list_find_acrescenta_achado (l : list A) y :
  list_find P l = None -> P y ->
  list_find P (l ++ [y]) = Some (length l, y).
Proof.
  intros Hn Hy. rewrite list_find_app_r by done. simpl.
  by rewrite decide_True.
Qed.

End Busca.

Lemma filter_filter_bool {A} (f : A -> bool) (l : list A) :
  List.filter f (List.filter f l) = List.filter f l.
Proof.
  induction l as [|x l IH]; simpl; [done|].
  destruct (f x) eqn:E; simpl; [rewrite E|]; by rewrite ?IH.
Qed.

Lemma filter_nenhum {A} (f : A -> bool) (l : list A) :
  (forall x, x ∈ l -> f x = false) -> List.filter f l = [].
Proof.
  induction l as [|x l IH]; simpl; intros H; [done|].
  rewrite (H x) by constructor. apply IH. intros y Hy. apply H. by constructor.
Qed.

Lemma elem_of_filter_bool {A} (f : A -> bool) (l : list A) x :
  x ∈ List.filter f l <-> x ∈ l /\ f x = true.
Proof. rewrite !list_elem_of_In. apply filter_In. Qed.

(** *** C6: validation against the schedule *)

(** The loop of [validar_palpites_contra_tabela] adds, for each
    prediction and in order, exactly one outcome to its two lists. *)
Lemma validar_laco rodada jogos_rodada palpites validos erros :
  exists resultados,
    Forall2 (classifica rodada jogos_rodada) palpites resultados /\
    fold_left (validar_palpite rodada jogos_rodada) palpites (validos, erros)
    = (validos ++ validados resultados, erros ++ erros_de resultados).
Proof.
  revert validos erros.
  induction palpites as [|p ps IH]; intros validos erros.
  { exists []. split; [constructor|]. simpl. by rewrite !app_nil_r. }
  cbn [fold_left].
  assert (Hpasso : exists r, classifica rodada jogos_rodada p r /\
            validar_palpite rodada jogos_rodada (validos, erros) p
            = (validos ++ validados [r], erros ++ erros_de [r])).
  { unfold validar_palpite.
    destruct (PalpiteBruto.gols_mandante p) as [gm|] eqn:Hgm;
      [destruct (PalpiteBruto.gols_visitante p) as [gv|] eqn:Hgv|].
    - unfold procurar_jogo.
      destruct (list_find _ jogos_rodada) as [[i jogo]|] eqn:Hf; simpl.
      + apply list_find_Some in Hf as (Hi & [Hm Hv] & Hmin).
        eexists (inl _). split; [by eapply classifica_valido|].
        by rewrite app_nil_r.
      + apply list_find_None in Hf.
        eexists (inr _). split.
        * eapply classifica_sem_jogo; [done..|].
          intros jogo Hin. by eapply Forall_forall in Hf.
        * by rewrite app_nil_r.
    - eexists (inr _). split; [apply classifica_sem_placar; by right|].
      by rewrite app_nil_r.
    - eexists (inr _). split; [apply classifica_sem_placar; by left|].
      by rewrite app_nil_r. }
  destruct Hpasso as (r & Hr & ->).
  destruct (IH (validos ++ validados [r]) (erros ++ erros_de [r]))
    as (rs & Hrs & ->).
  exists (r :: rs). split; [by constructor|].
  change (r :: rs) with ([r] ++ rs).
  unfold validados, erros_de. rewrite !omap_app, !app_assoc. done.
Qed.

Lemma validados_erros_length resultados :
  (length (validados resultados) + length (erros_de resultados))%nat
  = length resultados.
Proof.
  induction resultados as [|[v|e] rs IH]; simpl; lia.
Qed.

(** C6.  [validar_palpites_contra_tabela] returns no validated
    prediction and one error when the schedule has no round with the
    target number.  Otherwise, with the games of the first round of that
    number, each prediction gives exactly one outcome, in order: an error
    (and no validated prediction) when a goal count is missing or no game
    of the round has exactly its (home, away) pair, and else one
    validated prediction with the first such game's id and team names and
    the prediction's goal counts. *)
Theorem validar_palpites_contra_tabela_spec palpites rodada tabela :
  (Tabela.rodadas tabela = None ->
     validar_palpites_contra_tabela palpites rodada tabela = ([], [TabelaInvalida])) /\
  (forall rodadas,
     Tabela.rodadas tabela = Some rodadas ->
     (forall r, r ∈ rodadas -> Tabela.numero r <> Some rodada) ->
     validar_palpites_contra_tabela palpites rodada tabela
     = ([], [RodadaNaoEncontrada rodada])) /\
  (forall rodadas i r,
     Tabela.rodadas tabela = Some rodadas ->
     rodadas !! i = Some r ->
     Tabela.numero r = Some rodada ->
     (forall j r', rodadas !! j = Some r' -> (j < i)%nat ->
                   Tabela.numero r' <> Some rodada) ->
     exists resultados,
       Forall2 (classifica rodada (get (Tabela.jogos r) [])) palpites resultados /\
       validar_palpites_contra_tabela palpites rodada tabela
       = (validados resultados, erros_de resultados) /\
       (length (validados resultados) + length (erros_de resultados))%nat
       = length palpites).
Proof.
  unfold validar_palpites_contra_tabela, procurar_rodada. split_and!.
  - by intros ->.
  - intros rodadas -> Hnone.
    assert (list_find (fun r => Tabela.numero r = Some rodada) rodadas = None) as ->.
    { apply list_find_None, Forall_forall. intros r Hr. by apply Hnone. }
    done.
  - intros rodadas i r -> Hi Hnum Hmin.
    assert (list_find (fun r => Tabela.numero r = Some rodada) rodadas
            = Some (i, r)) as ->.
    { apply list_find_Some. by split_and!. }
    simpl.
    destruct (validar_laco rodada (get (Tabela.jogos r) []) palpites [] [])
      as (rs & Hrs & ->).
    exists rs. split_and!; [done|done|].
    rewrite validados_erros_length. symmetry. by eapply Forall2_length.
Qed.

Example validar_exemplo :
  validar_palpites_contra_tabela palpites_exemplo 1 tabela_exemplo
  = ([ {| PalpiteValidado.id := "jogo-001";
          PalpiteValidado.mandante := txt "Flamengo";
          PalpiteValidado.visitante := txt "Palmeiras";
          PalpiteValidado.palpite_mandante := 2;
          PalpiteValidado.palpite_visitante := 1;
          PalpiteValidado.tipo := None;
          PalpiteValidado.identificador := None |} ],
     [ PalpiteSemPlacar (txt "Santos") (txt "Vasco");
       JogoNaoEncontrado 1 (txt "Palmeiras") (txt "Flamengo") ]).
Proof. vm_compute. reflexivity. Qed.

Example validar_rodada_ausente :
  validar_palpites_contra_tabela palpites_exemplo 7 tabela_exemplo
  = ([], [RodadaNaoEncontrada 7]).
Proof. vm_compute. reflexivity. Qed.

Lemma validar_palpites_contra_tabela_spec_witness :
  exists resultados,
    Forall2 (classifica 1
               [ {| Tabela.id := "jogo-001"; Tabela.mandante := txt "Flamengo";
                    Tabela.visitante := txt "Palmeiras" |} ])
            palpites_exemplo resultados /\
    validar_palpites_contra_tabela palpites_exemplo 1 tabela_exemplo
    = (validados resultados, erros_de resultados) /\
    (length (validados resultados) + length (erros_de resultados))%nat = 3%nat.
Proof.
  apply (proj2 (proj2 (validar_palpites_contra_tabela_spec
                         palpites_exemplo 1 tabela_exemplo))
           _ 0%nat _ eq_refl eq_refl eq_refl).
  intros j r' _ Hj. lia.
Defined.

(** *** C5: updating the stored predictions *)

Lemma jogos_atualizar_entrada entrada agora P E :
  jogos (atualizar_entrada entrada agora P E)
  = Some (List.filter (fora_dos_novos P) (get (jogos entrada) []) ++ P).
Proof. reflexivity. Qed.

Lemma rodada_atualizar_entrada entrada agora P E :
  rodada (atualizar_entrada entrada agora P E) = rodada entrada.
Proof. reflexivity. Qed.

Lemma fora_dos_novos_false P j : j ∈ P -> fora_dos_novos P j = false.
Proof.
  intros Hj. unfold fora_dos_novos. apply bool_decide_eq_false.
  intros Hn. apply Hn. apply elem_of_list_to_set.
  apply list_elem_of_fmap. by exists j.
Qed.

(** The stored predictions of the updated round. *)
Lemma palpites_existentes_atualizada dados r P E agora :
  palpites_existentes (atualizar_palpites_participante dados r P E agora) r
  = List.filter (fora_dos_novos P) (palpites_existentes dados r) ++ P.
Proof.
  unfold palpites_existentes, atualizar_palpites_participante. simpl.
  destruct (list_find _ (get (palpites dados) [])) as [[i e]|] eqn:Hf.
  - erewrite list_find_troca_achado; [|exact Hf|].
    + by rewrite jogos_atualizar_entrada.
    + rewrite rodada_atualizar_entrada.
      by apply list_find_Some in Hf as (_ & ? & _).
  - rewrite list_find_acrescenta_achado; [|done|done].
    by rewrite jogos_atualizar_entrada.
Qed.

(** The stored predictions of any other round. *)
Lemma palpites_existentes_outra dados r r' P E agora :
  r' <> r ->
  palpites_existentes (atualizar_palpites_participante dados r P E agora) r'
  = palpites_existentes dados r'.
Proof.
  intros Hne. unfold palpites_existentes, atualizar_palpites_participante. simpl.
  destruct (list_find (fun entrada => rodada entrada = Some r)
              (get (palpites dados) [])) as [[i e]|] eqn:Hf.
  - apply list_find_Some in Hf as (Hi & Hr & _).
    erewrite list_find_troca_ignorado; [done|exact Hi|..].
    + rewrite Hr. congruence.
    + rewrite rodada_atualizar_entrada, Hr. congruence.
  - rewrite list_find_acrescenta_ignorado; [done|]. simpl. congruence.
Qed.

Lemma NoDup_ids_filter (f : PalpiteValidado.t -> bool) (l : list PalpiteValidado.t) :
  NoDup (map PalpiteValidado.id l) ->
  NoDup (map PalpiteValidado.id (List.filter f l)).
Proof.
  induction l as [|x l IH]; simpl; [done|].
  intros [Hx Hl]%NoDup_cons. destruct (f x); simpl; [|by apply IH].
  apply NoDup_cons. split; [|by apply IH].
  intros (y & Hy & Hin)%list_elem_of_fmap.
  apply elem_of_filter_bool in Hin as [Hin _].
  apply Hx. apply list_elem_of_fmap. by exists y.
Qed.

(** C5.  Updating the stored predictions of round [r] with the validated
    list [P] leaves, as the round's predictions, the previously stored
    ones whose game id does not occur in [P], followed by [P]; every
    entry of another round stays where it was, unchanged; and a second
    update with the same [P] (whatever the extra bets and the timestamp)
    leaves the stored predictions of every round as the first left
    them.  When the stored predictions and [P] each name a game at most
    once, so does the result. *)
Theorem atualizar_palpites_mescla dados r P E agora :
  let dados' := atualizar_palpites_participante dados r P E agora in
  palpites_existentes dados' r
    = List.filter (fora_dos_novos P) (palpites_existentes dados r) ++ P /\
  (forall j, j ∈ palpites_existentes dados' r <->
     (j ∈ palpites_existentes dados r /\
      PalpiteValidado.id j ∉ map PalpiteValidado.id P) \/ j ∈ P) /\
  (forall r', r' <> r ->
     palpites_existentes dados' r' = palpites_existentes dados r') /\
  (forall i entrada,
     get (palpites dados) [] !! i = Some entrada ->
     rodada entrada <> Some r ->
     get (palpites dados') [] !! i = Some entrada) /\
  (forall E' agora' r',
     palpites_existentes
       (atualizar_palpites_participante dados' r P E' agora') r'
     = palpites_existentes dados' r') /\
  (NoDup (map PalpiteValidado.id (palpites_existentes dados r)) ->
   NoDup (map PalpiteValidado.id P) ->
   NoDup (map PalpiteValidado.id (palpites_existentes dados' r))).
Proof.
  intros dados'. subst dados'. split_and!.
  - apply palpites_existentes_atualizada.
  - intros j. rewrite palpites_existentes_atualizada, elem_of_app.
    rewrite elem_of_filter_bool.
    unfold fora_dos_novos. rewrite bool_decide_eq_true, elem_of_list_to_set.
    tauto.
  - intros r' Hne. by apply palpites_existentes_outra.
  - intros i entrada Hi Hr.
    unfold atualizar_palpites_participante. simpl.
    destruct (list_find _ (get (palpites dados) [])) as [[k e]|] eqn:Hf.
    + apply list_find_Some in Hf as (Hk & Hrk & _).
      rewrite list_lookup_insert_ne; [done|]. intros ->. congruence.
    + by apply lookup_app_l_Some.
  - intros E' agora' r'. destruct (decide (r' = r)) as [->|Hne].
    + rewrite !palpites_existentes_atualizada.
      rewrite List.filter_app, filter_filter_bool.
      rewrite (filter_nenhum (fora_dos_novos P) P)
        by (intros; by apply fora_dos_novos_false).
      by rewrite app_nil_r.
    + by rewrite palpites_existentes_outra.
  - intros Hold HP. rewrite palpites_existentes_atualizada, map_app.
    apply NoDup_app. split_and!; [by apply NoDup_ids_filter| |done].
    intros i (j & -> & Hj)%list_elem_of_fmap Hin.
    apply elem_of_filter_bool in Hj as [_ Hj].
    unfold fora_dos_novos in Hj. apply bool_decide_eq_true in Hj.
    apply Hj. by apply elem_of_list_to_set.
Qed.

Example atualizar_exemplo :
  palpites_existentes
    (atualizar_palpites_participante dados_exemplo 1
       [palpite_guardado "jogo-001" 3 1] [] "2025-01-02T09:30:00") 1
  = [palpite_guardado "jogo-002" 2 2; palpite_guardado "jogo-001" 3 1].
Proof. vm_compute. reflexivity. Qed.

Example atualizar_duas_vezes :
  atualizar_palpites_participante
    (atualizar_palpites_participante dados_exemplo 1
       [palpite_guardado "jogo-001" 3 1] [] "2025-01-02T09:30:00") 1
    [palpite_guardado "jogo-001" 3 1] [] "2025-01-02T09:30:00"
  = atualizar_palpites_participante dados_exemplo 1
      [palpite_guardado "jogo-001" 3 1] [] "2025-01-02T09:30:00".
Proof. vm_compute. reflexivity. Qed.

(** The other round of the example keeps its prediction. *)
Lemma atualizar_palpites_mescla_witness :
  palpites_existentes
    (atualizar_palpites_participante dados_exemplo 1
       [palpite_guardado "jogo-001" 3 1] [] "2025-01-02T09:30:00") 2
  = palpites_existentes dados_exemplo 2.
Proof.
  apply (proj1 (proj2 (proj2
           (atualizar_palpites_mescla dados_exemplo 1
              [palpite_guardado "jogo-001" 3 1] [] "2025-01-02T09:30:00")))).
  lia.
Defined.

End ImportarPalpitesProps.

Module NormalizacaoProps.
Import Normalizacao.

(** *** The edit distance *)

Lemma distance_cons x a y b :
  distance (x :: a) (y :: b)
  = Nat.min (Nat.min (S (distance a (y :: b))) (S (distance (x :: a) b)))
            (distance a b + (if N.eqb x y then 0 else 1))%nat.
Proof. reflexivity. Qed.

(** Two strings are at distance zero exactly when they are equal. *)
Lemma distance_zero a b : distance a b = 0%nat <-> a = b.
Proof.
  revert b. induction a as [|x a IH]; intros b.
  - simpl. destruct b; simpl; split; intros H; try done.
  - destruct b as [|y b]; [simpl; split; intros H; done|].
    rewrite distance_cons. split.
    + intros H.
      assert (Hd : (distance a b + (if N.eqb x y then 0 else 1))%nat = 0%nat) by lia.
      destruct (N.eqb x y) eqn:E; [|lia].
      apply N.eqb_eq in E as ->. f_equal. apply IH. lia.
    + intros [= -> ->]. rewrite N.eqb_refl.
      rewrite (proj2 (IH b) eq_refl). simpl. lia.
Qed.

(** *** C8: the closest known name *)

Section Procura.
Context `{!Unicode}.
Variables (nome_normalizado : str) (limite : Z).

Local Abbreviation dist t := (distance nome_normalizado (normalizar_nome_time t)).
Local Abbreviation dentro t := (Z.of_nat (dist t) <= limite)%Z.

(** The loop stops at the first name at distance zero. *)
Lemma procurar_time_exato resto :
  forall i t melhor menor,
    resto !! i = Some t ->
    dist t = 0%nat ->
    (forall j t', resto !! j = Some t' -> (j < i)%nat -> dist t' <> 0%nat) ->
    procurar_time nome_normalizado limite resto melhor menor = Some t.
Proof.
  induction resto as [|x xs IH]; intros i t melhor menor Hi H0 Hmin; [done|].
  destruct i as [|i]; simpl in Hi.
  - injection Hi as ->. simpl. by rewrite H0.
  - simpl. destruct (Nat.eqb_spec (dist x) 0) as [E|E].
    { exfalso. apply (Hmin 0%nat x); [done|lia|done]. }
    assert (Hmin' : forall j t', xs !! j = Some t' -> (j < i)%nat -> dist t' <> 0%nat).
    { intros j t' Hj Hlt. apply (Hmin (S j) t'); [done|lia]. }
    destruct (_ && _); eapply IH; eauto.
Qed.

(** Without a name that improves on the state, the state is returned. *)
Lemma procurar_time_sem_melhora resto melhor menor :
  (forall t, t ∈ resto -> dist t <> 0%nat) ->
  (forall t, t ∈ resto -> dentro t -> menor_que (dist t) menor = false) ->
  procurar_time nome_normalizado limite resto melhor menor = melhor.
Proof.
  induction resto as [|x xs IH]; intros Hnz Hsem; [done|]. simpl.
  destruct (Nat.eqb_spec (dist x) 0) as [E|E].
  { exfalso. apply (Hnz x); [by left|done]. }
  destruct (Z.leb_spec (Z.of_nat (dist x)) limite) as [Hd|Hd]; simpl.
  - rewrite (Hsem x) by (by left || done).
    apply IH; intros t Ht; [apply Hnz|apply Hsem]; by right.
  - apply IH; intros t Ht; [apply Hnz|apply Hsem]; by right.
Qed.

(** The first name at the least distance within the limit, when it
    improves on the state, is returned. *)
Lemma procurar_time_minimo resto :
  forall i t melhor menor,
    (forall t', t' ∈ resto -> dist t' <> 0%nat) ->
    resto !! i = Some t ->
    dentro t ->
    menor_que (dist t) menor = true ->
    (forall t', t' ∈ resto -> dentro t' -> (dist t <= dist t')%nat) ->
    (forall j t', resto !! j = Some t' -> (j < i)%nat -> dentro t' ->
                  (dist t < dist t')%nat) ->
    procurar_time nome_normalizado limite resto melhor menor = Some t.
Proof.
  induction resto as [|x xs IH]; intros i t melhor menor Hnz Hi Hd Hm Hmin Hprim;
    [done|].
  assert (Hx : dist x <> 0%nat) by (apply Hnz; by left).
  simpl. destruct (Nat.eqb_spec (dist x) 0) as [E|_]; [done|].
  destruct i as [|i]; simpl in Hi.
  - injection Hi as ->.
    destruct (Z.leb_spec (Z.of_nat (dist t)) limite) as [_|?]; [|lia].
    rewrite Hm. simpl. apply procurar_time_sem_melhora.
    + intros t' Ht'. apply Hnz. by right.
    + intros t' Ht' Hd'. simpl. apply Nat.ltb_ge. apply Hmin; [by right|done].
  - assert (Hnz' : forall t', t' ∈ xs -> dist t' <> 0%nat)
      by (intros; apply Hnz; by right).
    assert (Hmin' : forall t', t' ∈ xs -> dentro t' -> (dist t <= dist t')%nat)
      by (intros; apply Hmin; [by right|done]).
    assert (Hprim' : forall j t', xs !! j = Some t' -> (j < i)%nat -> dentro t' ->
                                  (dist t < dist t')%nat).
    { intros j t' Hj Hlt Hd'. apply (Hprim (S j) t'); [done|lia|done]. }
    destruct (Z.leb_spec (Z.of_nat (dist x)) limite) as [Hdx|Hdx]; simpl.
    + destruct (menor_que (dist x) menor).
      * apply (IH i); try done. simpl. apply Nat.ltb_lt.
        apply (Hprim 0%nat x); [done|lia|done].
      * by apply (IH i).
    + by apply (IH i).
Qed.

End Procura.

(** C8.  For a non-empty candidate, [encontrar_time_similar] returns the
    first known name whose normalized form equals the normalized
    candidate, if there is one; otherwise the first known name at the
    least Levenshtein distance (between normalized forms) among those
    within [limite_distancia]; and [None] when no known name is within
    the limit. *)
Theorem encontrar_time_similar_spec `{!Unicode} nome times_validos limite :
  nome <> [] ->
  let dist t := distance (normalizar_nome_time nome) (normalizar_nome_time t) in
  (forall i t,
     times_validos !! i = Some t ->
     normalizar_nome_time t = normalizar_nome_time nome ->
     (forall j t', times_validos !! j = Some t' -> (j < i)%nat ->
                   normalizar_nome_time t' <> normalizar_nome_time nome) ->
     encontrar_time_similar nome times_validos limite = Some t) /\
  ((forall t, t ∈ times_validos ->
              normalizar_nome_time t <> normalizar_nome_time nome) ->
   (forall i t,
      times_validos !! i = Some t ->
      (Z.of_nat (dist t) <= limite)%Z ->
      (forall t', t' ∈ times_validos -> (Z.of_nat (dist t') <= limite)%Z ->
                  (dist t <= dist t')%nat) ->
      (forall j t', times_validos !! j = Some t' -> (j < i)%nat ->
                    (Z.of_nat (dist t') <= limite)%Z -> (dist t < dist t')%nat) ->
      encontrar_time_similar nome times_validos limite = Some t) /\
   ((forall t, t ∈ times_validos -> (limite < Z.of_nat (dist t))%Z) ->
    encontrar_time_similar nome times_validos limite = None)).
Proof.
  intros Hnome dist.
  assert (Hunf : forall t0 ts,
            encontrar_time_similar nome (t0 :: ts) limite
            = procurar_time (normalizar_nome_time nome) limite (t0 :: ts) None None).
  { intros. unfold encontrar_time_similar. by destruct nome. }
  assert (Hzero : forall t, dist t = 0%nat <->
                            normalizar_nome_time t = normalizar_nome_time nome).
  { intros t. unfold dist. rewrite distance_zero. split; congruence. }
  split; [|intros Hdif; split].
  - intros i t Hi Heq Hmin.
    destruct times_validos as [|t0 ts]; [done|]. rewrite Hunf.
    apply (procurar_time_exato _ _ _ i); [done|by apply Hzero|].
    intros j t' Hj Hlt Hz. apply (Hmin j t'); [done..|by apply Hzero].
  - intros i t Hi Hd Hmin Hprim.
    destruct times_validos as [|t0 ts]; [done|]. rewrite Hunf.
    apply (procurar_time_minimo _ _ _ i); try done.
    intros t' Ht' Hz. apply (Hdif t'); [done|by apply Hzero].
  - intros Hfora.
    destruct times_validos as [|t0 ts]; [by destruct nome|]. rewrite Hunf.
    apply procurar_time_sem_melhora.
    + intros t' Ht' Hz. apply (Hdif t'); [done|by apply Hzero].
    + intros t' Ht' Hd. specialize (Hfora t' Ht'). unfold dist in Hfora. lia.
Qed.

(** *** Stripping, mapping and appending *)

Section Strip.
Variable p : N -> bool.

Lemma lstrip_map (f : N -> N) (s : str) :
  Forall (fun c => p (f c) = p c) s ->
  lstrip p (map f s) = map f (lstrip p s).
Proof.
  induction 1 as [|c s Hc Hs IH]; [done|]. simpl. rewrite Hc.
  destruct (p c); [exact IH|done].
Qed.

Lemma lstrip_Forall (Q : N -> Prop) (s : str) :
  Forall Q s -> Forall Q (lstrip p s).
Proof.
  induction 1 as [|c s Hc Hs IH]; [done|]. simpl.
  destruct (p c); [exact IH|by constructor].
Qed.

Lemma rstrip_map (f : N -> N) (s : str) :
  Forall (fun c => p (f c) = p c) s ->
  rstrip p (map f s) = map f (rstrip p s).
Proof.
  intros H. unfold rstrip. rewrite <- map_rev, lstrip_map, map_rev; [done|].
  by apply Forall_rev.
Qed.

Lemma rstrip_Forall (Q : N -> Prop) (s : str) :
  Forall Q s -> Forall Q (rstrip p s).
Proof.
  intros H. unfold rstrip. by apply Forall_rev, lstrip_Forall, Forall_rev.
Qed.

Lemma strip_map (f : N -> N) (s : str) :
  Forall (fun c => p (f c) = p c) s ->
  strip p (map f s) = map f (strip p s).
Proof.
  intros H. unfold strip. rewrite lstrip_map by done.
  apply rstrip_map. by apply lstrip_Forall.
Qed.

Lemma strip_Forall (Q : N -> Prop) (s : str) :
  Forall Q s -> Forall Q (strip p s).
Proof. intros H. unfold strip. by apply rstrip_Forall, lstrip_Forall. Qed.

Lemma lstrip_todos (ws s : str) :
  Forall (fun c => p c = true) ws -> lstrip p (ws ++ s) = lstrip p s.
Proof. induction 1 as [|c ws Hc Hws IH]; [done|]. simpl. by rewrite Hc. Qed.

Lemma lstrip_app (s t : str) :
  lstrip p (s ++ t)
  = match lstrip p s with [] => lstrip p t | _ => lstrip p s ++ t end.
Proof.
  induction s as [|c s IH]; simpl; [by destruct (lstrip p t)|].
  destruct (p c); [exact IH|done].
Qed.

Lemma rstrip_todos (s ws : str) :
  Forall (fun c => p c = true) ws -> rstrip p (s ++ ws) = rstrip p s.
Proof.
  intros H. unfold rstrip. rewrite rev_app_distr, lstrip_todos; [done|].
  by apply Forall_rev.
Qed.

(** Whitespace added around a string is stripped with its own. *)
Lemma strip_em_volta (antes s depois : str) :
  Forall (fun c => p c = true) antes ->
  Forall (fun c => p c = true) depois ->
  strip p (antes ++ s ++ depois) = strip p s.
Proof.
  intros Ha Hd. unfold strip. rewrite lstrip_todos by done.
  rewrite lstrip_app. destruct (lstrip p s) as [|c r] eqn:E.
  - rewrite <- (app_nil_r depois), lstrip_todos by done. done.
  - by apply rstrip_todos.
Qed.

End Strip.

(** *** The tables, checked character by character *)

Lemma latin1_todos (f : N -> bool) :
  forallb f (map N.of_nat (seq 0 256)) = true ->
  forall c, (c < 256)%N -> f c = true.
Proof.
  intros H c Hc. rewrite forallb_forall in H. apply H.
  rewrite <- (N2Nat.id c). apply in_map, in_seq. lia.
Qed.

Lemma decomposicao_ok_todos c : (c < 256)%N -> decomposicao_ok c = true.
Proof. apply latin1_todos. vm_compute. reflexivity. Qed.

Lemma acento_ok_todos c : (c < 256)%N -> acento_ok c = true.
Proof. apply latin1_todos. vm_compute. reflexivity. Qed.

(** *** The pipeline of [normalizar_nome_time] on U+0000..U+00FF *)

(** Two non-empty names agree once they agree after the slash step. *)
Lemma normalizar_por_prefixo `{!Unicode} (a b : str) :
  a <> [] -> b <> [] ->
  replace barra hifen
    (lower (List.filter (fun char => negb (category_Mn char))
                        (nfd (strip isspace a))))
  = replace barra hifen
      (lower (List.filter (fun char => negb (category_Mn char))
                          (nfd (strip isspace b)))) ->
  normalizar_nome_time a = normalizar_nome_time b.
Proof.
  intros Ha Hb Hpre. destruct a as [|x a]; [done|]. destruct b as [|y b]; [done|].
  unfold normalizar_nome_time. cbv zeta. by rewrite Hpre.
Qed.

Section Latin1.
Context (U : Unicode) (HU : concorda_latin1 U).

Lemma sem_acento_latin1 c : (c < 256)%N -> (sem_acento c < 256)%N.
Proof.
  intros Hc. pose proof (acento_ok_todos c Hc) as H. unfold acento_ok in H.
  apply andb_true_iff in H as [H _]. apply andb_true_iff in H as [_ H].
  by apply N.ltb_lt.
Qed.

(** NFD followed by the removal of the marks, on a Latin-1 string. *)
Lemma sem_marcas (s : str) :
  latin1 s ->
  List.filter (fun char => negb (category_Mn char)) (nfd s) = map sem_acento s.
Proof using HU.
  intros Hs. rewrite (concorda_nfd U HU s Hs).
  induction Hs as [|c s Hc Hs IH]; [done|].
  simpl. rewrite List.filter_app, IH. f_equal.
  pose proof (decomposicao_ok_todos c Hc) as Hok.
  unfold decomposicao_ok in Hok. unfold sem_acento.
  destruct (nfd_latin1 c) as [|b [|m [|? ?]]]; try done.
  - apply N.ltb_lt in Hok. simpl.
    by rewrite (concorda_Mn_latin1 U HU b Hok).
  - apply andb_true_iff in Hok as [Hb Hm]. apply N.ltb_lt in Hb. simpl.
    rewrite (concorda_Mn_latin1 U HU b Hb), (concorda_Mn_marca U HU m Hm).
    done.
Qed.

(** The steps from NFD to [lower], on a Latin-1 string. *)
Lemma prefixo_latin1 (s : str) :
  latin1 s ->
  lower (List.filter (fun char => negb (category_Mn char)) (nfd s))
  = map dobra s.
Proof using HU.
  intros Hs. rewrite sem_marcas by done.
  rewrite (concorda_lower U HU).
  - by rewrite map_map.
  - apply Forall_map. eapply Forall_impl; [exact Hs|].
    intros c Hc. by apply sem_acento_latin1.
Qed.

(** A character-wise rewriting [f] of a Latin-1 name that keeps the
    whitespace and the folded character (up to slash and hyphen) does
    not change the normalized name. *)
Lemma normalizar_map (f : N -> N) (nome : str) :
  Forall (fun c => (c < 256)%N /\ (f c < 256)%N /\
                   isspace_latin1 (f c) = isspace_latin1 c /\
                   troca_barra (dobra (f c)) = troca_barra (dobra c)) nome ->
  normalizar_nome_time (map f nome) = normalizar_nome_time nome.
Proof using HU.
  intros H. destruct nome as [|x nome]; [done|].
  apply normalizar_por_prefixo; [done|done|].
  assert (Hl : latin1 (x :: nome)).
  { eapply Forall_impl; [exact H|]. by intros c (? & _). }
  rewrite strip_map.
  2:{ eapply Forall_impl; [exact H|]. intros c (Hc & Hf & Hs & _).
      by rewrite !(concorda_isspace U HU). }
  assert (Hs : Forall (fun c => (c < 256)%N /\ (f c < 256)%N /\
                   isspace_latin1 (f c) = isspace_latin1 c /\
                   troca_barra (dobra (f c)) = troca_barra (dobra c))
                 (strip isspace (x :: nome))) by (by apply strip_Forall).
  rewrite !prefixo_latin1.
  - unfold replace. rewrite !map_map.
    apply map_ext_Forall. eapply Forall_impl; [exact Hs|].
    intros c (_ & _ & _ & Hd). exact Hd.
  - eapply Forall_impl; [exact Hs|]. by intros c (? & _).
  - apply Forall_map. eapply Forall_impl; [exact Hs|]. by intros c (_ & ? & _).
Qed.

End Latin1.

Lemma strip_so_espacos (p : N -> bool) (w : str) :
  Forall (fun c => p c = true) w -> strip p w = [].
Proof.
  intros Hw. unfold strip.
  rewrite <- (app_nil_r w), lstrip_todos by done. done.
Qed.

(** A name made of whitespace only normalizes to the empty string. *)
Lemma normalizar_so_espacos (U : Unicode) (w : str) :
  concorda_latin1 U ->
  Forall (fun c => isspace c = true) w ->
  normalizar_nome_time w = [].
Proof.
  intros HU Hw. destruct w as [|c w]; [done|].
  unfold normalizar_nome_time. cbv zeta.
  rewrite (strip_so_espacos isspace (c :: w) Hw).
  rewrite (concorda_nfd U HU []) by constructor. simpl.
  rewrite (concorda_lower U HU []) by constructor. done.
Qed.

Lemma ucd_latin1_concorda : concorda_latin1 ucd_latin1.
Proof.
  split; try done.
  intros c Hc. simpl. unfold marca_combinante.
  apply andb_false_iff. left. apply N.leb_gt. lia.
Qed.

(** *** The normal form of a name *)

Lemma str_eqb_eq a b : str_eqb a b = true -> a = b.
Proof.
  revert b. induction a as [|x a IH]; intros [|y b]; simpl; try done.
  intros [Hx Hab]%andb_true_iff. apply N.eqb_eq in Hx as ->. by rewrite (IH b).
Qed.

Lemma flat_map_flat_map {A B C} (f : B -> list C) (g : A -> list B) (l : list A) :
  flat_map f (flat_map g l) = flat_map (fun x => flat_map f (g x)) l.
Proof.
  induction l as [|x l IH]; [done|]. simpl. by rewrite flat_map_app, IH.
Qed.

Lemma flat_map_ext_Forall {A B} (f g : A -> list B) (l : list A) :
  Forall (fun x => f x = g x) l -> flat_map f l = flat_map g l.
Proof. induction 1 as [|x l Hx Hl IH]; [done|]. simpl. by rewrite Hx, IH. Qed.

Lemma Forall_flat_map_intro {A B} (P : B -> Prop) (f : A -> list B) (l : list A) :
  Forall (fun x => Forall P (f x)) l -> Forall P (flat_map f l).
Proof.
  induction 1 as [|x l Hx Hl IH]; [constructor|]. simpl. by apply Forall_app.
Qed.

Lemma e_hifen_igual c : e_hifen c = true -> c = hifen.
Proof. unfold e_hifen. by intros ?%N.eqb_eq. Qed.

(** The collapse of a string starts with a hyphen exactly when the
    string does. *)
Lemma sub_sequencias_cabeca (s : str) :
  match s with
  | [] => sub_sequencias e_hifen hifen s = []
  | c :: _ => exists h r, sub_sequencias e_hifen hifen s = h :: r /\
                          e_hifen h = e_hifen c
  end.
Proof.
  induction s as [|c s IH]; [done|]. cbn [sub_sequencias].
  destruct (e_hifen c) eqn:Ec; [|by eexists _, _].
  destruct s as [|c' s']; [by eexists _, _|].
  destruct (e_hifen c') eqn:Ec'; [|by eexists _, _].
  destruct IH as (h & r & -> & Hh). exists h, r. split; [done|]. by rewrite Hh.
Qed.

(** The collapse of the runs of hyphens, read from the right. *)
Lemma sub_sequencias_junta (s : str) :
  sub_sequencias e_hifen hifen s = foldr junta [] s.
Proof.
  induction s as [|c s IH]; [done|].
  cbn [foldr]. rewrite <- IH. cbn [sub_sequencias]. unfold junta.
  destruct (e_hifen c) eqn:Ec; [|done].
  pose proof (sub_sequencias_cabeca s) as Hcab.
  destruct s as [|c' s']; [done|].
  destruct Hcab as (h & r & Heq & Hh). rewrite Heq, Hh. by rewrite <- Heq.
Qed.

Lemma junta_hifen_cabeca r :
  exists r', junta hifen r = hifen :: r'.
Proof.
  unfold junta. cbn [e_hifen]. change (e_hifen hifen) with true. cbv iota.
  destruct r as [|h r]; [by eexists|].
  destruct (e_hifen h) eqn:Eh; [|by eexists].
  apply e_hifen_igual in Eh as ->. by eexists.
Qed.

Lemma junta_hifen_idem r : junta hifen (junta hifen r) = junta hifen r.
Proof. destruct (junta_hifen_cabeca r) as [r' ->]. reflexivity. Qed.

Lemma foldr_junta_hifens (hs r : str) :
  Forall (fun c => e_hifen c = true) hs ->
  hs <> [] ->
  foldr junta r hs = junta hifen r.
Proof.
  induction 1 as [|c hs Hc Hhs IH]; [done|]. intros _.
  apply e_hifen_igual in Hc as ->. cbn [foldr].
  destruct hs as [|c' hs']; [done|].
  rewrite IH by done. apply junta_hifen_idem.
Qed.

(** Hyphens before a string do not change its canonical form. *)
Lemma canonico_hifens_antes (hs s : str) :
  Forall (fun c => e_hifen c = true) hs ->
  canonico (hs ++ s) = canonico s.
Proof.
  intros Hhs. destruct hs as [|c hs']; [done|].
  unfold canonico. rewrite !sub_sequencias_junta, foldr_app.
  rewrite foldr_junta_hifens by done.
  set (r := foldr junta [] s). unfold junta. change (e_hifen hifen) with true.
  cbv iota. destruct r as [|h r]; [done|].
  destruct (e_hifen h) eqn:Eh; [done|].
  unfold strip. cbn [lstrip]. by change (e_hifen hifen) with true.
Qed.

(** The collapse of a string followed by hyphens is the collapse of
    the string followed by hyphens. *)
Lemma foldr_junta_depois (s hs : str) :
  Forall (fun c => e_hifen c = true) hs ->
  exists suf, Forall (fun c => e_hifen c = true) suf /\
              foldr junta [] (s ++ hs) = foldr junta [] s ++ suf.
Proof.
  intros Hhs. induction s as [|c s IH].
  - destruct hs as [|h hs']; [by exists []|].
    exists [hifen]. split; [by repeat constructor|].
    cbn [app]. rewrite (foldr_junta_hifens (h :: hs') []) by done. reflexivity.
  - destruct IH as (suf & Hsuf & IH). cbn [app foldr]. rewrite IH.
    unfold junta at 1 3. destruct (e_hifen c) eqn:Ec; [|by exists suf].
    destruct (foldr junta [] s) as [|h r] eqn:Er.
    + cbn [app]. destruct suf as [|h' suf'].
      * by exists [].
      * apply Forall_cons in Hsuf as [Hh' Hsuf'].
        rewrite Hh'. apply e_hifen_igual in Hh' as ->. by exists suf'.
    + cbn [app]. destruct (e_hifen h); by exists suf.
Qed.

(** Hyphens after a string do not change its canonical form. *)
Lemma canonico_hifens_depois (s hs : str) :
  Forall (fun c => e_hifen c = true) hs ->
  canonico (s ++ hs) = canonico s.
Proof.
  intros Hhs. unfold canonico. rewrite !sub_sequencias_junta.
  destruct (foldr_junta_depois s hs Hhs) as (suf & Hsuf & ->).
  exact (strip_em_volta e_hifen [] (foldr junta [] s) suf ltac:(constructor) Hsuf).
Qed.

(** A string is its stripped form between the stripped characters. *)
Lemma lstrip_partes (p : N -> bool) (s : str) :
  exists a, s = a ++ lstrip p s /\ Forall (fun c => p c = true) a.
Proof.
  induction s as [|c s (a & Ha & Hpa)]; [by exists []|]. cbn [lstrip].
  destruct (p c) eqn:Hc; [|by exists []].
  exists (c :: a). split; [by rewrite Ha at 1|by constructor].
Qed.

Lemma strip_partes (p : N -> bool) (s : str) :
  exists a b, s = a ++ strip p s ++ b /\
              Forall (fun c => p c = true) a /\ Forall (fun c => p c = true) b.
Proof.
  destruct (lstrip_partes p s) as (a & Ha & Hpa).
  destruct (lstrip_partes p (rev (lstrip p s))) as (b & Hb & Hpb).
  exists a, (rev b). split_and!; [|done|by apply Forall_rev].
  unfold strip, rstrip. rewrite <- rev_app_distr, <- Hb, rev_involutive. done.
Qed.

Section Fichas.
Context (U : Unicode) (HU : concorda_latin1 U).

Lemma isspace_espaco : isspace espaco = true.
Proof using HU. by rewrite (concorda_isspace U HU). Qed.

Lemma isspace_troca_barra c : isspace (troca_barra c) = isspace c.
Proof using HU.
  unfold troca_barra. destruct (N.eqb_spec c barra) as [->|]; [|done].
  by rewrite !(concorda_isspace U HU).
Qed.

(** The steps after [lower], up to the collapse of the hyphens, on the
    folded name: what each of its characters leaves, collapsed. *)
Lemma cauda_fichas (x : str) :
  sub_sequencias e_hifen hifen
    (List.filter permitido
       (replace espaco hifen
          (sub_sequencias isspace espaco (replace barra hifen x))))
  = sub_sequencias e_hifen hifen (flat_map (ficha isspace) x).
Proof using HU.
  rewrite !sub_sequencias_junta.
  change (replace barra hifen x) with (map troca_barra x).
  induction x as [|c x IH]; [done|].
  cbn [map flat_map sub_sequencias]. rewrite foldr_app.
  rewrite isspace_troca_barra.
  assert (Hf : forall d, ficha isspace d
                 = if isspace d then [hifen]
                   else List.filter permitido [troca_barra d]) by done.
  rewrite (Hf c).
  destruct (isspace c) eqn:Hc.
  - destruct x as [|c' x'].
    + reflexivity.
    + cbn [map] in IH |- *. rewrite isspace_troca_barra.
      destruct (isspace c') eqn:Hc'.
      * rewrite IH. cbn [flat_map]. rewrite foldr_app, (Hf c'), Hc'.
        cbn [foldr]. by rewrite junta_hifen_idem.
      * cbn [replace map]. change (espaco =? espaco)%N with true. cbv iota.
        cbn [List.filter]. change (permitido hifen) with true. cbv iota.
        cbn [foldr]. by rewrite <- IH.
  - cbn [replace map].
    destruct (N.eqb_spec (troca_barra c) espaco) as [E|_].
    { rewrite <- (isspace_troca_barra c), E, isspace_espaco in Hc. done. }
    cbn [List.filter]. destruct (permitido (troca_barra c)); cbn [foldr];
      by rewrite <- IH.
Qed.

Section Alfabeto.
Variables (A : N -> Prop) (nucleo : N -> str).
Hypothesis age_nucleo : forall s, Forall A s ->
  lower (List.filter (fun char => negb (category_Mn char)) (nfd s))
  = flat_map nucleo s.
Hypothesis nucleo_espaco : forall c, A c -> isspace c = true ->
  Forall (fun d => isspace d = true) (nucleo c).

Lemma fichas_espacos (w : str) :
  Forall A w -> Forall (fun c => isspace c = true) w ->
  Forall (fun c => e_hifen c = true) (flat_map (fichas isspace nucleo) w).
Proof using nucleo_espaco.
  intros HA Hw. apply Forall_flat_map_intro.
  apply Forall_forall. intros c Hin.
  pose proof (proj1 (Forall_forall _ _) HA c Hin) as Hc.
  pose proof (proj1 (Forall_forall _ _) Hw c Hin) as Hs.
  unfold fichas. apply Forall_flat_map_intro.
  eapply Forall_impl; [exact (nucleo_espaco c Hc Hs)|].
  intros d Hd. unfold ficha. rewrite Hd. by repeat constructor.
Qed.

(** The normal form: on a string over [A], the normalized name is the
    canonical form of what its characters leave. *)
Lemma normalizar_forma_normal (nome : str) :
  Forall A nome ->
  normalizar_nome_time nome = canonico (flat_map (fichas isspace nucleo) nome).
Proof using HU age_nucleo nucleo_espaco.
  intros HA. destruct nome as [|x nome]; [done|].
  unfold normalizar_nome_time. cbv zeta.
  set (s := x :: nome) in *.
  rewrite age_nucleo by (by apply strip_Forall).
  rewrite cauda_fichas, flat_map_flat_map. fold (canonico (flat_map
    (fun c => flat_map (ficha isspace) (nucleo c)) (strip isspace s))).
  change (fun c => flat_map (ficha isspace) (nucleo c))
    with (fichas isspace nucleo).
  destruct (strip_partes isspace s) as (a & b & Hs & Ha & Hb).
  assert (HAs : Forall A (a ++ strip isspace s ++ b)) by (by rewrite <- Hs).
  apply Forall_app in HAs as [HAa HAs]. apply Forall_app in HAs as [_ HAb].
  rewrite Hs at 2. rewrite !flat_map_app.
  rewrite canonico_hifens_antes by (by apply fichas_espacos).
  rewrite canonico_hifens_depois by (by apply fichas_espacos).
  done.
Qed.

(** A rewriting of a name, character by character, that keeps what
    each character leaves does not change the normalized name. *)
Lemma normalizar_reescrita (g : N -> str) (nome : str) :
  Forall (fun c => A c /\ Forall A (g c) /\
                   flat_map (fichas isspace nucleo) (g c) = fichas isspace nucleo c)
         nome ->
  normalizar_nome_time (flat_map g nome) = normalizar_nome_time nome.
Proof using HU age_nucleo nucleo_espaco.
  intros H. rewrite !normalizar_forma_normal.
  - rewrite flat_map_flat_map. f_equal. apply flat_map_ext_Forall.
    eapply Forall_impl; [exact H|]. by intros c (_ & _ & Hc).
  - eapply Forall_impl; [exact H|]. by intros c (Hc & _).
  - apply Forall_flat_map_intro. eapply Forall_impl; [exact H|].
    by intros c (_ & Hc & _).
Qed.

End Alfabeto.
End Fichas.

(** *** The tables beyond U+00FF, checked character by character *)

Lemma alfabeto_todos (f : N -> bool) :
  forallb f alfabeto_lista = true ->
  forall c, alfabeto c = true -> f c = true.
Proof.
  intros H c Hc. rewrite forallb_forall in H. apply H.
  unfold alfabeto_lista. apply in_app_iff.
  unfold alfabeto in Hc.
  destruct (N.ltb_spec c 256) as [Hlt|_].
  - left. rewrite <- (N2Nat.id c). apply in_map, in_seq. lia.
  - right. cbn [orb] in Hc.
    destruct (N.eqb_spec c 376) as [E|_]; [rewrite E; by left|].
    destruct (N.eqb_spec c 924) as [E|_]; [rewrite E; by right; left|].
    destruct (N.eqb_spec c 956) as [E|_]; [rewrite E; by right; right; left|done].
Qed.

Lemma latin1_alfabeto c : (c < 256)%N -> alfabeto c = true.
Proof. intros Hc. unfold alfabeto. by rewrite (proj2 (N.ltb_lt c 256) Hc). Qed.

Lemma nucleo_ok_todos c : alfabeto c = true -> nucleo_ok c = true.
Proof. apply alfabeto_todos. vm_compute. reflexivity. Qed.

Lemma maiuscula_alem_ok_todos c : (c < 256)%N -> maiuscula_alem_ok c = true.
Proof. apply latin1_todos. vm_compute. reflexivity. Qed.

Lemma sem_barra_ok_todos c : (c < 256)%N -> sem_barra_ok c = true.
Proof. apply latin1_todos. vm_compute. reflexivity. Qed.

Lemma map_flat_map {A B C} (f : B -> C) (g : A -> list B) (l : list A) :
  map f (flat_map g l) = flat_map (fun x => map f (g x)) l.
Proof. induction l as [|x l IH]; [done|]. simpl. by rewrite map_app, IH. Qed.

Section Alem.
Context (U : Unicode) (HU : concorda_latin1 U) (HA : concorda_alem U).

(** The steps from NFD to [lower] act character by character on the
    strings over [alfabeto]. *)
Lemma nucleo_alem_age (s : str) :
  Forall (fun c => alfabeto c = true) s ->
  lower (List.filter (fun char => negb (category_Mn char)) (nfd s))
  = flat_map nucleo_alem s.
Proof using HU HA.
  intros Hs. rewrite (alem_nfd U HA s Hs).
  assert (Hfil : List.filter (fun char => negb (category_Mn char)) (flat_map nfd_alem s)
                 = flat_map (fun c => List.filter (fun d => negb (marca_combinante d))
                                                  (nfd_alem c)) s).
  { induction Hs as [|c s Hc Hs IH]; [done|]. cbn [flat_map].
    rewrite List.filter_app, IH. f_equal.
    apply filter_ext_in. intros d Hd.
    pose proof (nucleo_ok_todos c Hc) as Hok. unfold nucleo_ok in Hok.
    apply andb_true_iff in Hok as [Hok _]. apply andb_true_iff in Hok as [Hok _].
    rewrite forallb_forall in Hok. specialize (Hok d Hd).
    destruct (marca_combinante d) eqn:Hm.
    - by rewrite (concorda_Mn_marca U HU d Hm).
    - cbn [orb] in Hok. by rewrite (alem_Mn U HA d Hok). }
  rewrite Hfil, (alem_lower U HA).
  - by rewrite map_flat_map.
  - apply Forall_flat_map_intro. eapply Forall_impl; [exact Hs|].
    intros c Hc. apply Forall_forall. intros d Hd.
    apply list_elem_of_In, filter_In in Hd as [Hd Hm].
    pose proof (nucleo_ok_todos c Hc) as Hok. unfold nucleo_ok in Hok.
    apply andb_true_iff in Hok as [Hok _]. apply andb_true_iff in Hok as [Hok _].
    rewrite forallb_forall in Hok. specialize (Hok d Hd).
    destruct (marca_combinante d); [done|]. exact Hok.
Qed.

Lemma nucleo_alem_fechado c :
  alfabeto c = true -> Forall (fun d => alfabeto d = true) (nucleo_alem c).
Proof.
  intros Hc. pose proof (nucleo_ok_todos c Hc) as Hok. unfold nucleo_ok in Hok.
  apply andb_true_iff in Hok as [Hok _]. apply andb_true_iff in Hok as [_ Hok].
  apply List.Forall_forall. by apply forallb_forall.
Qed.

Lemma nucleo_alem_espaco c :
  alfabeto c = true -> isspace c = true ->
  Forall (fun d => isspace d = true) (nucleo_alem c).
Proof using HA.
  intros Hc Hs. rewrite (alem_isspace U HA c Hc) in Hs.
  pose proof (nucleo_ok_todos c Hc) as Hok. unfold nucleo_ok in Hok.
  apply andb_true_iff in Hok as [_ Hok]. rewrite Hs in Hok. cbn [negb orb] in Hok.
  rewrite forallb_forall in Hok. apply Forall_forall. intros d Hd.
  pose proof (proj1 (Forall_forall _ _) (nucleo_alem_fechado c Hc) d Hd) as Hal.
  rewrite (alem_isspace U HA d Hal). by apply Hok, list_elem_of_In.
Qed.

Lemma fichas_alem c :
  alfabeto c = true ->
  fichas isspace nucleo_alem c = fichas isspace_latin1 nucleo_alem c.
Proof using HA.
  intros Hc. unfold fichas. apply flat_map_ext_Forall.
  eapply Forall_impl; [exact (nucleo_alem_fechado c Hc)|].
  intros d Hd. unfold ficha. by rewrite (alem_isspace U HA d Hd).
Qed.

(** The uppercase of a name over U+0000..U+00FF without the sharp s
    normalizes as the name does. *)
Lemma normalizar_maiusculas_latin1 (nome : str) :
  Forall (fun c => (c < 256)%N /\ c <> 223%N) nome ->
  normalizar_nome_time (upper nome) = normalizar_nome_time nome.
Proof using HU HA.
  intros H.
  assert (Hl : latin1 nome).
  { eapply Forall_impl; [exact H|]. by intros c [? _]. }
  rewrite (concorda_upper U HU nome Hl).
  apply (normalizar_reescrita U HU (fun c => alfabeto c = true) nucleo_alem
           nucleo_alem_age nucleo_alem_espaco).
  eapply Forall_impl; [exact H|]. intros c [Hc Hss].
  pose proof (maiuscula_alem_ok_todos c Hc) as Hok. unfold maiuscula_alem_ok in Hok.
  destruct (N.eqb_spec c 223) as [|_]; [done|].
  rewrite (proj2 (N.ltb_lt c 256) Hc) in Hok. cbn [negb orb] in Hok.
  apply andb_true_iff in Hok as [Hal Heq].
  assert (Hal' : Forall (fun d => alfabeto d = true) (upper_latin1 c)).
  { apply Forall_forall. intros d Hd. rewrite forallb_forall in Hal.
    by apply Hal, list_elem_of_In. }
  split_and!; [by apply latin1_alfabeto|exact Hal'|].
  rewrite (fichas_alem c) by (by apply latin1_alfabeto).
  rewrite <- (str_eqb_eq _ _ Heq).
  apply flat_map_ext_Forall. eapply Forall_impl; [exact Hal'|].
  intros d Hd. by apply fichas_alem.
Qed.

End Alem.

(** *** Slashes and hyphens, on every string *)

Lemma troca_barra_idem c : troca_barra (troca_barra c) = troca_barra c.
Proof.
  unfold troca_barra. destruct (N.eqb_spec c barra) as [->|Hc]; [done|].
  by destruct (N.eqb_spec c barra).
Qed.

Lemma filter_map_igual {A} (p : A -> bool) (f : A -> A) (l : list A) :
  (forall x, p (f x) = p x) ->
  List.filter p (map f l) = map f (List.filter p l).
Proof.
  intros H. induction l as [|x l IH]; [done|]. cbn [map List.filter].
  rewrite H. destruct (p x); cbn [map]; by rewrite IH.
Qed.

Lemma normalizar_barra (U : Unicode) (nome : str) :
  concorda_latin1 U -> barra_neutra U ->
  normalizar_nome_time (replace barra hifen nome) = normalizar_nome_time nome.
Proof.
  intros HU HB. destruct nome as [|x nome]; [done|].
  apply normalizar_por_prefixo; [done|done|].
  assert (Hstrip : strip isspace (replace barra hifen (x :: nome))
                   = replace barra hifen (strip isspace (x :: nome))).
  { apply (strip_map isspace troca_barra). apply Forall_forall.
    intros c _. by apply isspace_troca_barra. }
  rewrite Hstrip, (barra_nfd U HB).
  assert (Hfil : forall s,
            List.filter (fun char => negb (category_Mn char)) (replace barra hifen s)
            = replace barra hifen
                (List.filter (fun char => negb (category_Mn char)) s)).
  { intros s. apply (filter_map_igual _ troca_barra). intros c.
    unfold troca_barra. destruct (N.eqb_spec c barra) as [->|]; [|done].
    by rewrite !(concorda_Mn_latin1 U HU). }
  rewrite Hfil, (barra_lower U HB).
  unfold replace. rewrite map_map. apply map_ext. intros c.
  apply troca_barra_idem.
Qed.

(** *** Accents, on every string *)

(** Two names with the same decomposed form without marks, once
    stripped, normalize identically. *)
Lemma normalizar_sem_marcas (U : Unicode) (a b : str) :
  concorda_latin1 U ->
  List.filter (fun char => negb (category_Mn char)) (nfd (strip isspace a))
  = List.filter (fun char => negb (category_Mn char)) (nfd (strip isspace b)) ->
  normalizar_nome_time a = normalizar_nome_time b.
Proof.
  intros HU H.
  assert (Hvazio : forall y s,
            List.filter (fun char => negb (category_Mn char)) (nfd (strip isspace (y :: s)))
            = List.filter (fun char => negb (category_Mn char)) (nfd (strip isspace []))
            -> normalizar_nome_time (y :: s) = []).
  { intros y s Hy. unfold normalizar_nome_time. cbv zeta. rewrite Hy.
    change (strip isspace []) with (@nil N).
    rewrite (concorda_nfd U HU []) by constructor. cbn [flat_map List.filter].
    rewrite (concorda_lower U HU []) by constructor. reflexivity. }
  destruct a as [|x a], b as [|y b]; [done| | |].
  - symmetry. by apply Hvazio.
  - by apply Hvazio.
  - unfold normalizar_nome_time. cbv zeta. by rewrite H.
Qed.

(** *** The tables [ucd_alem] *)

Lemma ucd_alem_latin1 : concorda_latin1 ucd_alem.
Proof.
  split; try done.
  - intros s Hs. cbn [nfd ucd_alem]. apply flat_map_ext_Forall.
    eapply Forall_impl; [exact Hs|]. intros c Hc. unfold nfd_alem.
    destruct (N.eqb_spec c 376) as [->|_]; [lia|].
    by rewrite (proj2 (N.ltb_lt c 256) Hc).
  - intros c Hc. cbn [category_Mn ucd_alem]. unfold marca_combinante.
    apply andb_false_iff. left. apply N.leb_gt. lia.
  - intros s Hs. cbn [lower ucd_alem]. apply map_ext_Forall.
    eapply Forall_impl; [exact Hs|]. intros c Hc. unfold lower_alem.
    destruct (N.eqb_spec c 376) as [->|_]; [lia|].
    destruct (N.eqb_spec c 924) as [->|_]; [lia|]. done.
Qed.

Lemma ucd_alem_alem : concorda_alem ucd_alem.
Proof.
  split; try done.
  intros c Hc. cbn [category_Mn ucd_alem].
  apply negb_true_iff.
  revert c Hc. apply (alfabeto_todos (fun c => negb (marca_combinante c))).
  vm_compute. reflexivity.
Qed.

Lemma nfd_alem_troca c : nfd_alem (troca_barra c) = map troca_barra (nfd_alem c).
Proof.
  unfold troca_barra at 1. destruct (N.eqb_spec c barra) as [->|Hc]; [done|].
  unfold nfd_alem. destruct (N.eqb_spec c 376) as [->|_]; [done|].
  destruct (N.ltb_spec c 256) as [Hlt|_].
  - pose proof (sem_barra_ok_todos c Hlt) as Hok. unfold sem_barra_ok in Hok.
    destruct (N.eqb_spec c barra) as [|_]; [done|]. cbn [orb] in Hok.
    rewrite forallb_forall in Hok.
    rewrite <- (map_id (nfd_latin1 c)) at 1. apply map_ext_in.
    intros d Hd. specialize (Hok d Hd). unfold troca_barra.
    by destruct (d =? barra)%N.
  - cbn [map]. unfold troca_barra. by destruct (N.eqb_spec c barra).
Qed.

Lemma lower_alem_troca c : lower_alem (troca_barra c) = troca_barra (lower_alem c).
Proof.
  unfold troca_barra at 1. destruct (N.eqb_spec c barra) as [->|Hc]; [done|].
  assert (Hl : lower_alem c <> barra).
  { unfold lower_alem, lower_latin1, barra in *.
    repeat match goal with
    | |- context [if ?b then _ else _] => destruct b eqn:?
    end; lia. }
  unfold troca_barra. by destruct (N.eqb_spec (lower_alem c) barra).
Qed.

Lemma ucd_alem_barra : barra_neutra ucd_alem.
Proof.
  split; intros s; cbn [nfd lower ucd_alem]; unfold replace;
    fold troca_barra; change (fun c => if (c =? barra)%N then hifen else c)
                        with troca_barra.
  - induction s as [|c s IH]; [done|]. cbn [map flat_map].
    by rewrite map_app, IH, nfd_alem_troca.
  - rewrite !map_map. apply map_ext. intros c. apply lower_alem_troca.
Qed.

(** *** C9: names that normalize identically *)

(** C9, counterexample.  The sharp s: ["ß".upper()] is ["SS"], which
    normalizes to ["ss"], while ["ß"] itself is dropped by the filter
    [[^a-z0-9\-]] and normalizes to the empty string. *)
Lemma normalizar_maiusculas_eszett :
  @upper ucd_latin1 [223%N] = txt "SS" /\
  @normalizar_nome_time ucd_latin1 [223%N] = [] /\
  @normalizar_nome_time ucd_latin1 (@upper ucd_latin1 [223%N]) = txt "ss" /\
  @normalizar_nome_time ucd_latin1 (@upper ucd_latin1 [223%N])
  <> @normalizar_nome_time ucd_latin1 [223%N].
Proof. repeat split; try (vm_compute; reflexivity). vm_compute. discriminate. Qed.

(** C9, amended.  With Python's answers on U+0000..U+00FF and on the
    three characters their case mappings add (U+0178, U+039C, U+03BC):

    - [normalizar_nome_time(name.upper())] equals
      [normalizar_nome_time(name)] for every name over U+0000..U+00FF
      without the sharp s (U+00DF);
    - replacing every "/" by "-" does not change the normalized form of
      any name;
    - two names that are equal once stripped, decomposed and without
      their combining marks normalize identically; a name over
      U+0000..U+00FF normalizes as the name with every accented letter
      replaced by its base letter;
    - whitespace added around any name (two spaces on each side in
      particular) does not change its normalized form;
    - on any set [A] of characters on which the steps from NFD to
      [lower] act character by character, the normalized form of a name
      is the canonical form (runs of hyphens collapsed, hyphens
      stripped) of what its characters leave, and when [upper] acts
      character by character too, a name whose characters leave what
      their uppercase leaves normalizes as its uppercase. *)
Theorem normalizar_equivalencias (U : Unicode) :
  concorda_latin1 U -> concorda_alem U -> barra_neutra U ->
  (forall nome, Forall (fun c => (c < 256)%N /\ c <> 223%N) nome ->
     normalizar_nome_time (upper nome) = normalizar_nome_time nome) /\
  (forall nome,
     normalizar_nome_time (replace barra hifen nome) = normalizar_nome_time nome) /\
  (forall a b,
     List.filter (fun char => negb (category_Mn char)) (nfd (strip isspace a))
     = List.filter (fun char => negb (category_Mn char)) (nfd (strip isspace b)) ->
     normalizar_nome_time a = normalizar_nome_time b) /\
  (forall nome, latin1 nome ->
     normalizar_nome_time (map sem_acento nome) = normalizar_nome_time nome) /\
  (forall nome antes depois,
     Forall (fun c => isspace c = true) antes ->
     Forall (fun c => isspace c = true) depois ->
     normalizar_nome_time (antes ++ nome ++ depois) = normalizar_nome_time nome) /\
  (forall nome,
     normalizar_nome_time (txt "  " ++ nome ++ txt "  ") = normalizar_nome_time nome) /\
  (forall (A : N -> Prop) (nucleo : N -> str),
     (forall s, Forall A s ->
        lower (List.filter (fun char => negb (category_Mn char)) (nfd s))
        = flat_map nucleo s) ->
     (forall c, A c -> isspace c = true ->
        Forall (fun d => isspace d = true) (nucleo c)) ->
     (forall nome, Forall A nome ->
        normalizar_nome_time nome
        = canonico (flat_map (fichas isspace nucleo) nome)) /\
     (forall (sobe : N -> str) nome,
        (forall s, Forall A s -> upper s = flat_map sobe s) ->
        Forall (fun c => A c /\ Forall A (sobe c) /\
                  flat_map (fichas isspace nucleo) (sobe c) = fichas isspace nucleo c)
               nome ->
        normalizar_nome_time (upper nome) = normalizar_nome_time nome)).
Proof.
  intros HU HA HB.
  assert (Hem_volta : forall nome antes depois,
     Forall (fun c => isspace c = true) antes ->
     Forall (fun c => isspace c = true) depois ->
     normalizar_nome_time (antes ++ nome ++ depois) = normalizar_nome_time nome).
  { intros nome antes depois Ha Hd. destruct nome as [|x nome].
    - simpl. apply (normalizar_so_espacos U); [done|]. by apply Forall_app.
    - apply normalizar_por_prefixo; [by destruct antes|done|].
      by rewrite (strip_em_volta isspace antes (x :: nome) depois Ha Hd). }
  split_and!.
  - by apply normalizar_maiusculas_latin1.
  - intros nome. by apply normalizar_barra.
  - intros a b. by apply normalizar_sem_marcas.
  - intros nome Hl. apply (normalizar_map U HU). eapply Forall_impl; [exact Hl|].
    intros c Hc. pose proof (acento_ok_todos c Hc) as Hb. unfold acento_ok in Hb.
    apply andb_true_iff in Hb as [Hb Hd]. apply andb_true_iff in Hb as [Hs Hlt].
    apply N.ltb_lt in Hlt. apply N.eqb_eq in Hd. apply Bool.eqb_prop in Hs.
    by rewrite Hd.
  - exact Hem_volta.
  - intros nome. apply Hem_volta.
    + repeat constructor; by rewrite (concorda_isspace U HU).
    + repeat constructor; by rewrite (concorda_isspace U HU).
  - intros A nucleo Hage Hesp. split.
    + intros nome HAn. by apply (normalizar_forma_normal U HU A nucleo).
    + intros sobe nome Hsobe Hn.
      rewrite Hsobe.
      * by apply (normalizar_reescrita U HU A nucleo).
      * eapply Forall_impl; [exact Hn|]. by intros c (? & _).
Qed.

(** "São Paulo/SP", then y with diaeresis and the micro sign, whose
    uppercase lies beyond U+00FF. *)
Lemma normalizar_equivalencias_witness :
  @normalizar_nome_time ucd_alem
     (@upper ucd_alem (txt "S" ++ [227%N] ++ txt "o Paulo/SP" ++ [255%N; 181%N]))
  = @normalizar_nome_time ucd_alem
      (txt "S" ++ [227%N] ++ txt "o Paulo/SP" ++ [255%N; 181%N]).
Proof.
  apply (proj1 (normalizar_equivalencias ucd_alem ucd_alem_latin1 ucd_alem_alem
                  ucd_alem_barra)).
  repeat constructor; done.
Defined.

Example normalizar_maiusculas_alem :
  @upper ucd_alem [255%N; 181%N] = [376%N; 924%N] /\
  @normalizar_nome_time ucd_alem [376%N; 924%N] = txt "y" /\
  @normalizar_nome_time ucd_alem [255%N; 181%N] = txt "y".
Proof. repeat split; vm_compute; reflexivity. Qed.

Example normalizar_atletico :
  @normalizar_nome_time ucd_latin1 (txt "Atl" ++ [233%N] ++ txt "tico/MG")
  = txt "atletico-mg".
Proof. vm_compute. reflexivity. Qed.

Example normalizar_sao_paulo :
  @normalizar_nome_time ucd_latin1 (txt "  S" ++ [195%N] ++ txt "O   PAULO ")
  = txt "sao-paulo".
Proof. vm_compute. reflexivity. Qed.

Example encontrar_flamego :
  @encontrar_time_similar ucd_latin1 (txt "Flamego")
    [txt "Flamengo"; txt "Palmeiras"; txt "S" ++ [227%N] ++ txt "o Paulo"] 3
  = Some (txt "Flamengo").
Proof. vm_compute. reflexivity. Qed.

Example encontrar_xyz :
  @encontrar_time_similar ucd_latin1 (txt "XYZ")
    [txt "Flamengo"; txt "Palmeiras"; txt "S" ++ [227%N] ++ txt "o Paulo"] 3
  = None.
Proof. vm_compute. reflexivity. Qed.

(** An exact match after normalization, found behind a closer-looking
    neighbour. *)
Lemma encontrar_time_similar_spec_witness :
  @encontrar_time_similar ucd_latin1 (txt "  SAO PAULO ")
    [txt "Sao Paolo"; txt "S" ++ [227%N] ++ txt "o Paulo"] 3
  = Some (txt "S" ++ [227%N] ++ txt "o Paulo").
Proof.
  apply (proj1 (@encontrar_time_similar_spec ucd_latin1 (txt "  SAO PAULO ")
                  [txt "Sao Paolo"; txt "S" ++ [227%N] ++ txt "o Paulo"] 3
                  ltac:(discriminate)) 1%nat).
  - reflexivity.
  - vm_compute. reflexivity.
  - intros j t' Hj Hlt. destruct j as [|j]; [|lia].
    injection Hj as <-. vm_compute. discriminate.
Defined.

End NormalizacaoProps.

Module ParserProps.
Import Normalizacao Parser.

(** *** Rational scores *)

Lemma razao_um (c n : Z) :
  (0 < n)%Z -> (inject_Z c / inject_Z n == 1)%Q <-> c = n.
Proof.
  intros Hn.
  assert (Hnz : ~ (inject_Z n == 0)%Q).
  { change 0%Q with (inject_Z 0). rewrite inject_Z_injective. lia. }
  split.
  - intros H. apply inject_Z_injective.
    rewrite <- (Qmult_div_r (inject_Z c) (inject_Z n)) by exact Hnz.
    rewrite H. ring.
  - intros ->. field. exact Hnz.
Qed.

Lemma Qlt_bool_true (x y : Q) : Qlt_bool x y = true <-> (x < y)%Q.
Proof.
  unfold Qlt_bool. rewrite negb_true_iff. split.
  - intros H. apply Qnot_le_lt. intros Hle.
    apply Qle_bool_iff in Hle. congruence.
  - intros H. destruct (Qle_bool y x) eqn:E; [|done].
    apply Qle_bool_iff in E. lra.
Qed.

Lemma Qlt_bool_false (x y : Q) : Qlt_bool x y = false <-> (y <= x)%Q.
Proof.
  unfold Qlt_bool. rewrite negb_false_iff. apply Qle_bool_iff.
Qed.

Lemma Qle_bool_false (x y : Q) : Qle_bool x y = false <-> (y < x)%Q.
Proof.
  split.
  - intros H. apply Qnot_le_lt. intros Hle.
    apply Qle_bool_iff in Hle. congruence.
  - intros H. destruct (Qle_bool x y) eqn:E; [|done].
    apply Qle_bool_iff in E. lra.
Qed.

Section Inferencia.
Context {U : Unicode}.
Variable times : gset str.
Hypothesis Hnao_vazio : times ≠ ∅.

Lemma tamanho_positivo : (0 < Z.of_nat (size times))%Z.
Proof using Hnao_vazio.
  assert (size times ≠ 0%nat); [|lia].
  intros H0. apply size_empty_iff in H0. by apply leibniz_equiv in H0.
Qed.

(** The score is 1 exactly for the rounds that contain every team of the
    predictions. *)
Lemma score_um (T : gset str) : (score times T == 1)%Q <-> times ⊆ T.
Proof using Hnao_vazio.
  unfold score. rewrite decide_False by done.
  rewrite razao_um by apply tamanho_positivo. split.
  - intros H. apply Nat2Z.inj in H.
    apply subseteq_intersection_2_L.
    apply set_subseteq_size_eq; [apply intersection_subseteq_l|lia].
  - intros Hsub. by rewrite (subseteq_intersection_1_L _ _ Hsub).
Qed.

Lemma score_rodada_vazia : (score times ∅ == 0)%Q.
Proof using Hnao_vazio.
  unfold score. rewrite decide_False by done.
  rewrite intersection_empty_r_L, size_empty. unfold Qdiv. simpl. ring.
Qed.

Lemma rodada_na_posicao_cons r rs i n T :
  rodada_na_posicao (r :: rs) (S i) n T <-> rodada_na_posicao rs i n T.
Proof. reflexivity. Qed.

Lemma rodada_na_posicao_zero r rs n T :
  rodada_na_posicao (r :: rs) 0 n T <->
  exists jogos, Tabela.numero r = Some n /\ Tabela.jogos r = Some jogos /\
                T = times_rodada jogos.
Proof.
  unfold rodada_na_posicao. simpl. split.
  - intros (r' & js & [= <-] & ? & ? & ?). by exists js.
  - intros (js & ? & ? & ?). by exists r, js.
Qed.

(** One step of the loop, on a round that carries a number and a game
    list. *)
Lemma percorrer_passo r rs n jogos mr ms :
  Tabela.numero r = Some n -> Tabela.jogos r = Some jogos ->
  percorrer_rodadas times (r :: rs) mr ms
  = if decide (times_rodada jogos = ∅) then percorrer_rodadas times rs mr ms
    else if Qeq_bool (score times (times_rodada jogos)) 1 then Some n
    else if Qlt_bool ms (score times (times_rodada jogos))
         then percorrer_rodadas times rs (Some n) (score times (times_rodada jogos))
         else percorrer_rodadas times rs mr ms.
Proof. intros Hn Hj. simpl. by rewrite Hn, Hj. Qed.

(** One step of the loop, seen from outside: a round is skipped, ends
    the search, or updates the state. *)
Lemma percorrer_casos r rs mr ms :
  percorrer_rodadas times (r :: rs) mr ms = percorrer_rodadas times rs mr ms /\
    (forall n T, rodada_na_posicao (r :: rs) 0 n T ->
                 ~ times ⊆ T /\ ((0 <= ms)%Q -> (score times T <= ms)%Q))
  \/ exists n T, rodada_na_posicao (r :: rs) 0 n T /\
       (times ⊆ T /\ percorrer_rodadas times (r :: rs) mr ms = Some n
        \/ ~ times ⊆ T /\ (ms < score times T)%Q /\
           percorrer_rodadas times (r :: rs) mr ms
           = percorrer_rodadas times rs (Some n) (score times T)).
Proof using Hnao_vazio.
  destruct (Tabela.numero r) as [n|] eqn:Hn; [destruct (Tabela.jogos r) as [js|] eqn:Hj|].
  - rewrite (percorrer_passo r rs n js) by done.
    assert (Hpos : rodada_na_posicao (r :: rs) 0 n (times_rodada js)).
    { apply rodada_na_posicao_zero. by exists js. }
    assert (Hunico : forall n' T', rodada_na_posicao (r :: rs) 0 n' T' ->
                                   n' = n /\ T' = times_rodada js).
    { intros n' T' (js' & ? & ? & ->)%rodada_na_posicao_zero. split; congruence. }
    destruct (decide (times_rodada js = ∅)) as [He|He].
    { left. split; [done|]. intros n' T' [-> ->]%Hunico. rewrite He. split.
      - intros Hsub. apply Hnao_vazio. by apply equiv_empty_L.
      - intros H0. rewrite score_rodada_vazia. done. }
    destruct (Qeq_bool (score times (times_rodada js)) 1) eqn:Hq.
    { right. exists n, (times_rodada js). split; [done|]. left.
      split; [|done]. by apply score_um, Qeq_bool_iff. }
    assert (Hnsub : ~ times ⊆ times_rodada js).
    { intros Hsub%score_um. apply Qeq_bool_neq in Hq. done. }
    destruct (Qlt_bool ms (score times (times_rodada js))) eqn:Hlt.
    + right. exists n, (times_rodada js). split; [done|]. right.
      split_and!; [done| |done]. by apply Qlt_bool_true.
    + left. split; [done|]. intros n' T' [-> ->]%Hunico. split; [done|].
      intros _. by apply Qlt_bool_false.
  - left. simpl. rewrite Hn, Hj. split; [done|].
    intros n' T' (js' & ? & ? & _)%rodada_na_posicao_zero. congruence.
  - left. simpl. rewrite Hn. split; [done|].
    intros n' T' (js' & ? & ? & _)%rodada_na_posicao_zero. congruence.
Qed.

Lemma rodada_na_posicao_unica rs i n T n' T' :
  rodada_na_posicao rs i n T -> rodada_na_posicao rs i n' T' -> n = n' /\ T = T'.
Proof.
  intros (r & js & Hr & Hn & Hj & ->) (r' & js' & Hr' & Hn' & Hj' & ->).
  split; congruence.
Qed.

(** The loop ends at the first round that contains every team. *)
Lemma percorrer_perfeita rs :
  forall i n T mr ms,
    rodada_na_posicao rs i n T ->
    times ⊆ T ->
    (forall j n' T', rodada_na_posicao rs j n' T' -> (j < i)%nat -> ~ times ⊆ T') ->
    percorrer_rodadas times rs mr ms = Some n.
Proof using Hnao_vazio.
  induction rs as [|r rs IH]; intros i n T mr ms Hpos Hsub Hmin.
  { by destruct Hpos as (? & ? & ? & _). }
  destruct (percorrer_casos r rs mr ms) as [[Heq Hskip]|(n0 & T0 & H0 & Hcase)].
  - destruct i as [|i]; [by destruct (Hskip n T Hpos)|].
    rewrite Heq. apply (IH i n T); [done|done|].
    intros j n' T' Hj Hlt. apply (Hmin (S j) n' T'); [done|lia].
  - destruct i as [|i].
    + destruct (rodada_na_posicao_unica _ _ _ _ _ _ Hpos H0) as [<- <-].
      by destruct Hcase as [[_ ?]|[? _]].
    + destruct Hcase as [[Hs _]|(_ & _ & ->)].
      { exfalso. apply (Hmin 0%nat n0 T0); [done|lia|done]. }
      apply (IH i n T); [done|done|].
      intros j n' T' Hj Hlt. apply (Hmin (S j) n' T'); [done|lia].
Qed.

(** Without a round that beats the state, the state decides. *)
Lemma percorrer_sem_melhora rs mr ms :
  (0 <= ms)%Q ->
  (forall j n T, rodada_na_posicao rs j n T ->
                 ~ times ⊆ T /\ (score times T <= ms)%Q) ->
  percorrer_rodadas times rs mr ms
  = if Qle_bool (1 # 2) ms then mr else None.
Proof using Hnao_vazio.
  intros Hms. induction rs as [|r rs IH]; intros Hall; [done|].
  destruct (percorrer_casos r rs mr ms) as [[Heq _]|(n0 & T0 & H0 & Hcase)].
  - rewrite Heq. apply IH. intros j n T Hj. by apply (Hall (S j) n T).
  - exfalso. destruct (Hall 0%nat n0 T0 H0) as [Hn Hle].
    destruct Hcase as [[? _]|(_ & Hlt & _)]; [done|lra].
Qed.

(** The first round with the highest score, when it beats the state,
    decides. *)
Lemma percorrer_melhor rs :
  forall i n T mr ms,
    (0 <= ms)%Q ->
    rodada_na_posicao rs i n T ->
    (forall j n' T', rodada_na_posicao rs j n' T' -> ~ times ⊆ T') ->
    (ms < score times T)%Q ->
    (forall j n' T', rodada_na_posicao rs j n' T' ->
                     (score times T' <= score times T)%Q) ->
    (forall j n' T', rodada_na_posicao rs j n' T' -> (j < i)%nat ->
                     (score times T' < score times T)%Q) ->
    percorrer_rodadas times rs mr ms
    = if Qle_bool (1 # 2) (score times T) then Some n else None.
Proof using Hnao_vazio.
  induction rs as [|r rs IH]; intros i n T mr ms Hms Hpos Hnp Hlt Hmax Hprim.
  { by destruct Hpos as (? & ? & ? & _). }
  assert (Hnp' : forall j n' T', rodada_na_posicao rs j n' T' -> ~ times ⊆ T').
  { intros j n' T' Hj. by apply (Hnp (S j) n' T'). }
  assert (Hmax' : forall j n' T', rodada_na_posicao rs j n' T' ->
                                  (score times T' <= score times T)%Q).
  { intros j n' T' Hj. by apply (Hmax (S j) n' T'). }
  destruct (percorrer_casos r rs mr ms) as [[Heq Hskip]|(n0 & T0 & H0 & Hcase)].
  - destruct i as [|i].
    { destruct (Hskip n T Hpos) as [_ Hle]. specialize (Hle Hms). lra. }
    rewrite Heq. apply (IH i); try done.
    intros j n' T' Hj Hji. apply (Hprim (S j) n' T'); [done|lia].
  - destruct Hcase as [[Hs _]|(_ & Hlt0 & ->)].
    { by destruct (Hnp 0%nat n0 T0 H0). }
    destruct i as [|i].
    + destruct (rodada_na_posicao_unica _ _ _ _ _ _ Hpos H0) as [<- <-].
      apply percorrer_sem_melhora; [lra|]. intros j n' T' Hj. split; eauto.
    + apply (IH i); try done.
      * lra.
      * apply (Hprim 0%nat n0 T0); [done|lia].
      * intros j n' T' Hj Hji. apply (Hprim (S j) n' T'); [done|lia].
Qed.

(** When every round scores below one half, nothing is inferred. *)
Lemma percorrer_abaixo rs :
  forall mr ms,
    (ms < 1 # 2)%Q ->
    (forall j n T, rodada_na_posicao rs j n T -> (score times T < 1 # 2)%Q) ->
    percorrer_rodadas times rs mr ms = None.
Proof using Hnao_vazio.
  induction rs as [|r rs IH]; intros mr ms Hms Hall.
  { simpl. by rewrite (proj2 (Qle_bool_false _ _) Hms). }
  assert (Hall' : forall j n T, rodada_na_posicao rs j n T ->
                                (score times T < 1 # 2)%Q).
  { intros j n T Hj. by apply (Hall (S j) n T). }
  destruct (percorrer_casos r rs mr ms) as [[Heq _]|(n0 & T0 & H0 & Hcase)].
  - rewrite Heq. by apply IH.
  - specialize (Hall 0%nat n0 T0 H0).
    destruct Hcase as [[Hs _]|(_ & _ & ->)].
    + apply score_um in Hs. lra.
    + by apply IH.
Qed.

End Inferencia.

Lemma times_palpites_nil `{!Unicode} : times_palpites [] = ∅.
Proof. reflexivity. Qed.

(** *** C7: inferring the round *)

(** C7.  With [times] the set of normalized team names mentioned in the
    predictions and [score times T = |times ∩ T| / |times|] the score of
    a round with team set [T] (which is 1 exactly when [T] contains every
    name of a non-empty [times]): [inferir_rodada] returns the number of
    the first round of the schedule that scores 1; if no round scores 1,
    it returns the number of the first round with the highest score,
    provided that score is at least 1/2, and [None] when every round
    scores below 1/2. *)
Theorem inferir_rodada_spec `{!Unicode} palpites tabela rodadas :
  Tabela.rodadas tabela = Some rodadas ->
  let times := times_palpites palpites in
  (times <> ∅ -> forall T, (score times T == 1)%Q <-> times ⊆ T) /\
  (forall i n T,
     rodada_na_posicao rodadas i n T ->
     (score times T == 1)%Q ->
     (forall j n' T', rodada_na_posicao rodadas j n' T' -> (j < i)%nat ->
                      ~ (score times T' == 1)%Q) ->
     inferir_rodada palpites tabela = Some n) /\
  ((forall j n' T', rodada_na_posicao rodadas j n' T' ->
                    ~ (score times T' == 1)%Q) ->
   (forall i n T,
      rodada_na_posicao rodadas i n T ->
      (1 # 2 <= score times T)%Q ->
      (forall j n' T', rodada_na_posicao rodadas j n' T' ->
                       (score times T' <= score times T)%Q) ->
      (forall j n' T', rodada_na_posicao rodadas j n' T' -> (j < i)%nat ->
                       (score times T' < score times T)%Q) ->
      inferir_rodada palpites tabela = Some n) /\
   ((forall j n' T', rodada_na_posicao rodadas j n' T' ->
                     (score times T' < 1 # 2)%Q) ->
    inferir_rodada palpites tabela = None)).
Proof.
  intros Hrodadas times.
  destruct (decide (times = ∅)) as [Hvazio|Hne].
  - (* no team is mentioned: every score is 0 and nothing is inferred *)
    assert (Hnone : inferir_rodada palpites tabela = None).
    { unfold inferir_rodada. rewrite Hrodadas.
      destruct palpites as [|p ps]; [done|]. fold times. by rewrite decide_True. }
    assert (Hzero : forall T, score times T = 0%Q).
    { intros T. unfold score. by rewrite decide_True. }
    split_and!; [done| |].
    + intros i n T _ Hum. rewrite Hzero in Hum. discriminate Hum.
    + intros _. split; [|done].
      intros i n T _ Hmeio. rewrite Hzero in Hmeio. by destruct Hmeio.
  - assert (Hunf : inferir_rodada palpites tabela
                   = percorrer_rodadas times rodadas None 0%Q).
    { unfold inferir_rodada. rewrite Hrodadas.
      destruct palpites as [|p ps]; [by destruct Hne|].
      fold times. by rewrite decide_False. }
    rewrite Hunf. split_and!.
    + intros _ T. by apply score_um.
    + intros i n T Hpos Hum Hmin.
      apply (percorrer_perfeita times Hne rodadas i n T); [done|by apply score_um|].
      intros j n' T' Hj Hlt Hsub. apply (Hmin j n' T'); [done..|by apply score_um].
    + intros Hnp.
      assert (Hnp' : forall j n' T', rodada_na_posicao rodadas j n' T' ->
                                     ~ times ⊆ T').
      { intros j n' T' Hj Hsub. apply (Hnp j n' T'); [done|by apply score_um]. }
      split.
      * intros i n T Hpos Hmeio Hmax Hprim.
        rewrite (percorrer_melhor times Hne rodadas i n T); try done.
        -- by rewrite (proj2 (Qle_bool_iff _ _) Hmeio).
        -- lra.
      * intros Hbaixo. apply (percorrer_abaixo times Hne); [lra|done].
Qed.

Example inferir_rodada_dois :
  @inferir_rodada ucd_latin1 palpite_a_b tabela_duas_rodadas = Some 2%Z.
Proof. vm_compute. reflexivity. Qed.

Lemma inferir_rodada_spec_witness :
  @inferir_rodada ucd_latin1 palpite_a_b tabela_duas_rodadas = Some 2%Z.
Proof.
  apply (proj1 (proj2 (@inferir_rodada_spec ucd_latin1 palpite_a_b
                         tabela_duas_rodadas _ eq_refl))
           1%nat 2%Z
           (@times_rodada ucd_latin1
              [ {| Tabela.id := "jogo-002"; Tabela.mandante := txt "A";
                   Tabela.visitante := txt "B" |};
                {| Tabela.id := "jogo-003"; Tabela.mandante := txt "C";
                   Tabela.visitante := txt "D" |} ])).
  - eexists _, _. split_and!; reflexivity.
  - apply Qeq_bool_iff. vm_compute. reflexivity.
  - intros j n' T' (r & js & Hr & Hn & Hj & ->) Hlt.
    destruct j as [|j]; [|lia]. injection Hr as <-. injection Hj as <-.
    apply Qeq_bool_neq. vm_compute. reflexivity.
Defined.

End ParserProps.

Module PontuacaoExtras.
Import Pontuacao PontuacaoProps Espelho.

(** The predicates are boolean combinations of integer tests; with the
    conditionals written as conjunctions and disjunctions, linear
    arithmetic decides the facts about them. *)
Lemma se_bool (c x y : bool) :
  (if c then x else y) = (c && x) || (negb c && y).
Proof. by destruct c, x, y. Qed.

Ltac abre_regras :=
  unfold predicado, verificar_resultado_inverso, verificar_resultado_exato,
    verificar_vitoria_gols_um_time, verificar_vitoria_diferenca_gols,
    verificar_vitoria_soma_gols, verificar_apenas_vitoria,
    verificar_apenas_empate, verificar_gols_um_time, verificar_soma_gols.

Ltac decide_regras :=
  abre_regras;
  repeat match goal with
  | |- context [get ?campo 0] =>
      let z := fresh "z" in set (z := get campo 0) in *; clearbody z
  end;
  rewrite ?se_bool; lia.

(** *** The scoring rules seen from the other side *)

Lemma predicado_espelhado x palpite resultado :
  predicado x (espelhar_palpite palpite) (espelhar_resultado resultado)
  = predicado x palpite resultado.
Proof.
  destruct x; abre_regras;
    cbn [espelhar_palpite espelhar_resultado palpite_mandante
         palpite_visitante gols_mandante gols_visitante];
    try (apply andb_comm); decide_regras.
Qed.

(** X1.  Swapping home and away in both the prediction and the result
    changes neither the points nor the code. *)
Theorem calcular_pontuacao_espelhada palpite resultado regras n :
  calcular_pontuacao (espelhar_palpite palpite) (espelhar_resultado resultado)
    regras n
  = calcular_pontuacao palpite resultado regras n.
Proof.
  unfold calcular_pontuacao.
  rewrite (predicado_espelhado RI), (predicado_espelhado AR),
    (predicado_espelhado VG), (predicado_espelhado VD),
    (predicado_espelhado VS), (predicado_espelhado AV),
    (predicado_espelhado AE), (predicado_espelhado AG),
    (predicado_espelhado AS).
  reflexivity.
Qed.

(** *** The bonus *)



(** *** Which rules can hold together *)

(** The exact-score test agrees with the tests on the defaulted goal
    counts whenever it succeeds. *)
Lemma exato_iguala_gols palpite resultado :
  verificar_resultado_exato palpite resultado = true ->
  get (palpite_mandante palpite) 0 = get (gols_mandante resultado) 0 /\
  get (palpite_visitante palpite) 0 = get (gols_visitante resultado) 0.
Proof.
  unfold verificar_resultado_exato. intros [Hm Hv]%andb_true_iff.
  apply py_eq_true in Hm. apply py_eq_true in Hv. by rewrite Hm, Hv.
Qed.

(** X3.  The overlaps of the nine rule predicates: each winner rule
    (VG, VD, VS) implies the winner-only rule AV; VG excludes VD, VS and
    the exact score; a correct winner, a correct draw, one team's goals
    and the total goals exclude one another; the last two exclude the
    exact score; and an inverted score satisfies the total-goals rule AS
    and no other rule, so the penalty always takes the place of that one
    point. *)
Theorem mapa_de_sobreposicoes palpite resultado :
  (predicado VG palpite resultado = true \/
   predicado VD palpite resultado = true \/
   predicado VS palpite resultado = true ->
   predicado AV palpite resultado = true) /\
  (predicado VG palpite resultado = true ->
   predicado VD palpite resultado = false /\
   predicado VS palpite resultado = false /\
   predicado AR palpite resultado = false) /\
  (predicado AV palpite resultado = true ->
   predicado AE palpite resultado = false /\
   predicado AG palpite resultado = false /\
   predicado AS palpite resultado = false) /\
  (predicado AE palpite resultado = true ->
   predicado AG palpite resultado = false /\
   predicado AS palpite resultado = false) /\
  (predicado AG palpite resultado = true ->
   predicado AS palpite resultado = false /\
   predicado AR palpite resultado = false) /\
  (predicado AS palpite resultado = true ->
   predicado AR palpite resultado = false) /\
  (predicado RI palpite resultado = true ->
   predicado AS palpite resultado = true /\
   forall x, x <> RI -> x <> AS -> predicado x palpite resultado = false).
Proof.
  assert (Hex : verificar_resultado_exato palpite resultado = false \/
                (get (palpite_mandante palpite) 0 = get (gols_mandante resultado) 0 /\
                 get (palpite_visitante palpite) 0 = get (gols_visitante resultado) 0)).
  { destruct (verificar_resultado_exato palpite resultado) eqn:E; [right|by left].
    by apply exato_iguala_gols. }
  split_and!.
  - decide_regras.
  - intros H. split_and!.
    + revert H. decide_regras.
    + revert H. decide_regras.
    + destruct Hex as [He|[Hm Hv]]; [done|]. revert H.
      unfold predicado, verificar_vitoria_gols_um_time. rewrite Hm, Hv.
      rewrite !Z.eqb_refl. simpl. by repeat destruct (_ && _).
  - intros H. revert H. decide_regras.
  - intros H. revert H. decide_regras.
  - intros H. split.
    + revert H. decide_regras.
    + destruct Hex as [He|[Hm Hv]]; [done|]. revert H.
      unfold predicado, verificar_gols_um_time. rewrite Hm, Hv.
      by rewrite !Z.eqb_refl.
  - intros H. destruct Hex as [He|[Hm Hv]]; [done|]. revert H.
    unfold predicado, verificar_soma_gols. rewrite Hm, Hv.
    rewrite !Z.eqb_refl. simpl. by rewrite !andb_false_r.
  - intros H. split.
    + revert H. decide_regras.
    + intros x Hx1 Hx2. destruct x; try done.
      * destruct (predicado AR palpite resultado) eqn:E; [|done].
        apply exato_nao_inverso in E. simpl in H. congruence.
      * revert H. decide_regras.
      * revert H. decide_regras.
      * revert H. decide_regras.
      * revert H. decide_regras.
      * revert H. decide_regras.
      * revert H. decide_regras.
Qed.

(** *** The value of the rule that fires *)






(** *** The count of exact hits *)

(** X22.  The number of participants with the exact score matters
    only to a prediction that is the exact score: for any other
    prediction the points and the code are the same whatever that
    number. *)
Theorem total_de_acertos_so_no_exato palpite resultado regras n m :
  verificar_resultado_exato palpite resultado = false ->
  calcular_pontuacao palpite resultado regras n
  = calcular_pontuacao palpite resultado regras m.
Proof.
  intros Hex.
  destruct (primeira_ou_nenhuma palpite resultado) as [(x & Hx & Hantes)|Hnone].
  - rewrite !(calcular_pontuacao_primeira _ _ regras _ x Hx Hantes).
    destruct x; try reflexivity. simpl in Hx. congruence.
  - by rewrite !(calcular_pontuacao_nenhuma _ _ regras _ Hnone).
Qed.

Lemma total_de_acertos_so_no_exato_witness :
  calcular_pontuacao (palpite_de 2 0) (resultado_de 3 1) REGRAS_PONTUACAO_PADRAO 0
  = calcular_pontuacao (palpite_de 2 0) (resultado_de 3 1) REGRAS_PONTUACAO_PADRAO 5.
Proof.
  apply (total_de_acertos_so_no_exato (palpite_de 2 0) (resultado_de 3 1)
           REGRAS_PONTUACAO_PADRAO 0 5).
  reflexivity.
Defined.

End PontuacaoExtras.

Module NormalizacaoExtras.
Import Normalizacao NormalizacaoProps NormalizacaoDiretorios.

(** *** What [strip] removes and what it leaves *)

Lemma last_rev_head (s : str) : last (rev s) = head s.
Proof. destruct s as [|c s]; [done|]. simpl. apply last_snoc. Qed.

Section Aparar.
Variable p : N -> bool.

Lemma lstrip_decompoe (s : str) :
  exists a, s = a ++ lstrip p s /\ Forall (fun c => p c = true) a.
Proof.
  induction s as [|c s (a & Hs & Ha)]; [by exists []|]. simpl.
  destruct (p c) eqn:E.
  - exists (c :: a). split; [simpl; by f_equal|by constructor].
  - by exists [].
Qed.

Lemma lstrip_head (s : str) c : head (lstrip p s) = Some c -> p c = false.
Proof.
  induction s as [|x s IH]; [done|]. simpl. destruct (p x) eqn:E; [done|].
  simpl. by intros [= <-].
Qed.

Lemma rstrip_decompoe (s : str) :
  exists b, s = rstrip p s ++ b /\ Forall (fun c => p c = true) b.
Proof.
  destruct (lstrip_decompoe (rev s)) as (a & Hs & Ha).
  exists (rev a). split; [|by apply Forall_rev].
  unfold rstrip. rewrite <- rev_app_distr, <- Hs. by rewrite rev_involutive.
Qed.

Lemma rstrip_last (s : str) c : last (rstrip p s) = Some c -> p c = false.
Proof.
  unfold rstrip. rewrite last_rev_head. apply lstrip_head.
Qed.

Lemma strip_decompoe (s : str) :
  exists a b, s = a ++ strip p s ++ b /\
    Forall (fun c => p c = true) a /\ Forall (fun c => p c = true) b.
Proof.
  destruct (lstrip_decompoe s) as (a & Hs & Ha).
  destruct (rstrip_decompoe (lstrip p s)) as (b & Ht & Hb).
  exists a, b. split_and!; [|done..]. unfold strip. by rewrite <- Ht.
Qed.

Lemma strip_head (s : str) c : head (strip p s) = Some c -> p c = false.
Proof.
  unfold strip. destruct (rstrip_decompoe (lstrip p s)) as (b & Ht & _).
  intros Hc. apply (lstrip_head s). rewrite Ht.
  destruct (rstrip p (lstrip p s)); [done|exact Hc].
Qed.

Lemma strip_last (s : str) c : last (strip p s) = Some c -> p c = false.
Proof. apply rstrip_last. Qed.

Lemma lstrip_fixo (s : str) :
  (forall c, head s = Some c -> p c = false) -> lstrip p s = s.
Proof.
  destruct s as [|c s]; [done|]. intros H. simpl. by rewrite (H c).
Qed.

Lemma strip_fixo (s : str) :
  (forall c, head s = Some c -> p c = false) ->
  (forall c, last s = Some c -> p c = false) ->
  strip p s = s.
Proof.
  intros Hh Hl. unfold strip, rstrip. rewrite (lstrip_fixo s Hh).
  rewrite lstrip_fixo; [by rewrite rev_involutive|].
  intros c Hc. apply Hl. by rewrite <- (rev_involutive s), last_rev_head.
Qed.

End Aparar.

(** *** Runs of a class *)

Lemma sub_sequencias_Forall (p : N -> bool) (r : N) (Q : N -> Prop) (s : str) :
  Q r -> Forall Q s -> Forall Q (sub_sequencias p r s).
Proof.
  intros Hr. induction 1 as [|c s Hc Hs IH]; [done|].
  cbn [sub_sequencias]. destruct (p c).
  - destruct s as [|c' s']; [by repeat constructor|].
    destruct (p c'); [exact IH|by constructor].
  - by constructor.
Qed.

Lemma sub_sequencias_nenhum (p : N -> bool) (r : N) (s : str) :
  Forall (fun c => p c = false) s -> sub_sequencias p r s = s.
Proof.
  induction 1 as [|c s Hc Hs IH]; [done|].
  cbn [sub_sequencias]. by rewrite Hc, IH.
Qed.

Lemma e_hifen_true c : e_hifen c = true <-> c = hifen.
Proof. unfold e_hifen. apply N.eqb_eq. Qed.

Lemma sem_hifen_duplo_cons (x : N) (t : str) :
  sem_hifen_duplo (x :: t)
  = match head t with
    | Some c' => negb (e_hifen x && e_hifen c')
    | None => true
    end && sem_hifen_duplo t.
Proof. by destruct t. Qed.

Lemma sub_sequencias_head (p : N -> bool) (r c : N) (s : str) :
  head (sub_sequencias p r (c :: s)) = Some (if p c then r else c).
Proof.
  revert c. induction s as [|c' s IH]; intros c.
  - simpl. by destruct (p c).
  - cbn [sub_sequencias] in IH |- *. destruct (p c) eqn:Ec; [|done].
    destruct (p c') eqn:Ec'; [|done].
    specialize (IH c'). by rewrite Ec' in IH.
Qed.

Lemma sub_sequencias_sem_duplo (s : str) :
  sem_hifen_duplo (sub_sequencias e_hifen hifen s) = true.
Proof.
  induction s as [|c s IH]; [done|].
  destruct s as [|c' s']; [by simpl; destruct (e_hifen c)|].
  change (sub_sequencias e_hifen hifen (c :: c' :: s'))
    with (if e_hifen c
          then if e_hifen c' then sub_sequencias e_hifen hifen (c' :: s')
               else hifen :: sub_sequencias e_hifen hifen (c' :: s')
          else c :: sub_sequencias e_hifen hifen (c' :: s')).
  destruct (e_hifen c) eqn:Ec; [destruct (e_hifen c') eqn:Ec'|].
  - exact IH.
  - rewrite sem_hifen_duplo_cons, sub_sequencias_head, Ec', IH.
    by rewrite Ec', andb_false_r.
  - rewrite sem_hifen_duplo_cons, sub_sequencias_head, IH.
    by rewrite Ec.
Qed.

Lemma sub_sequencias_fixo (s : str) :
  sem_hifen_duplo s = true ->
  nao_e_hifen (last s) = true ->
  sub_sequencias e_hifen hifen s = s.
Proof.
  induction s as [|c s IH]; [done|]. intros Hd Hl.
  cbn [sub_sequencias]. destruct s as [|c' s'].
  - simpl in Hl. apply negb_true_iff in Hl. by rewrite Hl.
  - cbn [sem_hifen_duplo] in Hd. apply andb_true_iff in Hd as [Hcc Hd].
    rewrite IH by done.
    destruct (e_hifen c) eqn:Ec; [|done].
    simpl in Hcc. apply negb_true_iff in Hcc. rewrite Hcc.
    apply e_hifen_true in Ec. by rewrite Ec.
Qed.

Lemma sem_hifen_duplo_app (a b : str) :
  sem_hifen_duplo (a ++ b) = true ->
  sem_hifen_duplo a = true /\ sem_hifen_duplo b = true.
Proof.
  induction a as [|c a IH]; [done|]. intros H.
  change ((c :: a) ++ b) with (c :: (a ++ b)) in H.
  rewrite sem_hifen_duplo_cons in H. apply andb_true_iff in H as [Hcc H].
  destruct (IH H) as [Ha Hb]. split; [|done].
  rewrite sem_hifen_duplo_cons, Ha, andb_true_r.
  destruct a as [|c' a']; [done|exact Hcc].
Qed.

Lemma strip_sem_duplo (p : N -> bool) (s : str) :
  sem_hifen_duplo s = true -> sem_hifen_duplo (strip p s) = true.
Proof.
  destruct (strip_decompoe p s) as (a & b & Hs & _). intros H.
  rewrite Hs in H. apply sem_hifen_duplo_app in H as [_ H].
  by apply sem_hifen_duplo_app in H as [H _].
Qed.

(** The last three steps of [normalizar_nome_time] and of
    [normalizar_nome_campeonato]. *)
Lemma palavras_com_hifen_final (classe : N -> bool) (s : str) :
  classe hifen = true ->
  palavras_com_hifen classe
    (strip e_hifen (sub_sequencias e_hifen hifen (List.filter classe s))) = true.
Proof.
  intros Hh. unfold palavras_com_hifen.
  set (r := strip e_hifen _).
  assert (Hc : forallb classe r = true).
  { apply forallb_forall, List.Forall_forall, strip_Forall.
    apply sub_sequencias_Forall; [done|].
    apply List.Forall_forall. intros c Hc. by apply List.filter_In in Hc as [_ Hc]. }
  assert (Hp : nao_e_hifen (head r) = true).
  { destruct (head r) as [c|] eqn:E; [|done]. simpl.
    apply strip_head in E. by rewrite E. }
  assert (Hu : nao_e_hifen (last r) = true).
  { destruct (last r) as [c|] eqn:E; [|done]. simpl.
    apply strip_last in E. by rewrite E. }
  assert (Hd : sem_hifen_duplo r = true).
  { apply strip_sem_duplo, sub_sequencias_sem_duplo. }
  by rewrite Hc, Hp, Hu, Hd.
Qed.

(** X6.  Whatever the input and the Unicode tables, the result of
    [normalizar_nome_time] is made of the characters [a-z0-9-] only,
    neither begins nor ends with a hyphen and has no two hyphens in a
    row. *)
Theorem normalizar_nome_time_forma (U : Unicode) (nome : str) :
  palavras_com_hifen permitido (normalizar_nome_time nome) = true.
Proof.
  destruct nome as [|c nome]; [done|].
  unfold normalizar_nome_time. cbv zeta. by apply palavras_com_hifen_final.
Qed.

(** X7.  Whatever the input and the Unicode tables, the result of
    [normalizar_nome_campeonato] is made of the characters
    [a-zA-Z0-9-] only, neither begins nor ends with a hyphen and has no
    two hyphens in a row. *)
Theorem normalizar_nome_campeonato_forma (U : Unicode) (nome : str) :
  palavras_com_hifen alfanumerico_ou_hifen (normalizar_nome_campeonato nome) = true.
Proof.
  destruct nome as [|c nome]; [done|].
  unfold normalizar_nome_campeonato. cbv zeta. by apply palavras_com_hifen_final.
Qed.

(** *** Normalizing a normalized name *)

Lemma permitido_latin1 c :
  permitido c = true ->
  (c < 256)%N /\ isspace_latin1 c = false /\ dobra c = c /\
  c <> barra /\ c <> espaco /\ c <> hifen \/ (c = hifen /\ dobra c = c).
Proof.
  intros H.
  assert (Hc : (c < 256)%N).
  { unfold permitido, hifen in H.
    repeat (apply orb_true_iff in H as [H|H]);
      repeat (apply andb_true_iff in H as [? H]);
      repeat match goal with
      | X : (_ <=? _)%N = true |- _ => apply N.leb_le in X
      | X : (_ =? _)%N = true |- _ => apply N.eqb_eq in X
      end; lia. }
  pose proof (latin1_todos
    (fun c => negb (permitido c)
              || (negb (isspace_latin1 c) && (dobra c =? c)%N
                  && negb (c =? barra)%N && negb (c =? espaco)%N))
    ltac:(vm_compute; reflexivity) c Hc) as T.
  cbv beta in T. rewrite H in T. cbn [negb orb] in T.
  repeat (apply andb_true_iff in T as [T ?]).
  repeat match goal with
  | X : negb _ = true |- _ => apply negb_true_iff in X
  | X : (_ =? _)%N = true |- _ => apply N.eqb_eq in X
  | X : (_ =? _)%N = false |- _ => apply N.eqb_neq in X
  end.
  destruct (N.eq_dec c hifen) as [->|Hne]; [by right|].
  left. by split_and!.
Qed.

Lemma map_fixo (f : N -> N) (s : str) :
  Forall (fun c => f c = c) s -> map f s = s.
Proof. induction 1 as [|c s Hc Hs IH]; [done|]. simpl. by rewrite Hc, IH. Qed.

(** A name of the normalized shape is left as it is. *)
Lemma normalizar_nome_time_fixo (U : Unicode) (s : str) :
  concorda_latin1 U ->
  palavras_com_hifen permitido s = true ->
  normalizar_nome_time s = s.
Proof.
  intros HU H. unfold palavras_com_hifen in H.
  apply andb_true_iff in H as [H Hd]. apply andb_true_iff in H as [H Hl].
  apply andb_true_iff in H as [Hc Hh].
  destruct s as [|x s]; [done|]. set (r := x :: s) in *. clearbody r.
  assert (Hp : Forall (fun c => permitido c = true) r).
  { apply List.Forall_forall. by apply forallb_forall. }
  assert (Hfat : Forall (fun c => (c < 256)%N /\ isspace_latin1 c = false /\
                           dobra c = c /\ c <> barra /\ c <> espaco) r).
  { eapply Forall_impl; [exact Hp|]. intros c Hpc.
    destruct (permitido_latin1 c Hpc) as [(?&?&?&?&?&_)|[-> ?]]; [done|].
    by vm_compute. }
  assert (Hlat : latin1 r).
  { eapply Forall_impl; [exact Hfat|]. by intros c (? & _). }
  assert (Hesp : Forall (fun c => isspace c = false) r).
  { eapply Forall_impl; [exact Hfat|]. intros c (Hc256 & Hs & _).
    by rewrite (concorda_isspace U HU). }
  assert (E1 : strip isspace r = r).
  { apply strip_fixo; intros c Hcr.
    - apply head_Some_elem_of in Hcr.
      by apply (proj1 (Forall_forall _ _) Hesp).
    - apply last_Some_elem_of in Hcr.
      by apply (proj1 (Forall_forall _ _) Hesp). }
  assert (E2 : lower (List.filter (fun char => negb (category_Mn char)) (nfd r)) = r).
  { rewrite (prefixo_latin1 U HU r Hlat). apply map_fixo.
    eapply Forall_impl; [exact Hfat|]. by intros c (_ & _ & ? & _). }
  assert (E3 : replace barra hifen r = r).
  { apply map_fixo. eapply Forall_impl; [exact Hfat|].
    intros c (_ & _ & _ & Hb & _). cbv beta.
    by destruct (N.eqb_spec c barra). }
  assert (E4 : sub_sequencias isspace espaco r = r)
    by (by apply sub_sequencias_nenhum).
  assert (E5 : replace espaco hifen r = r).
  { apply map_fixo. eapply Forall_impl; [exact Hfat|].
    intros c (_ & _ & _ & _ & He). cbv beta.
    by destruct (N.eqb_spec c espaco). }
  assert (E6 : List.filter permitido r = r) by (by apply forallb_filter_id).
  assert (E7 : sub_sequencias e_hifen hifen r = r)
    by (by apply sub_sequencias_fixo).
  assert (E8 : strip e_hifen r = r).
  { apply strip_fixo; intros c Hcr.
    - rewrite Hcr in Hh. by apply negb_true_iff in Hh.
    - rewrite Hcr in Hl. by apply negb_true_iff in Hl. }
  unfold normalizar_nome_time. destruct r as [|y r']; [done|].
  cbv zeta. by rewrite E1, E2, E3, E4, E5, E6, E7, E8.
Qed.

(** X8.  With Unicode tables that agree with Python's on
    U+0000..U+00FF, normalizing a team name twice gives what
    normalizing it once gives, whatever the name. *)
Theorem normalizar_nome_time_idempotente (U : Unicode) (nome : str) :
  concorda_latin1 U ->
  normalizar_nome_time (normalizar_nome_time nome) = normalizar_nome_time nome.
Proof.
  intros HU. apply normalizar_nome_time_fixo; [done|].
  destruct nome as [|c nome]; [done|].
  unfold normalizar_nome_time. cbv zeta. by apply palavras_com_hifen_final.
Qed.

Lemma normalizar_nome_time_idempotente_witness :
  concorda_latin1 ucd_latin1 /\
  @normalizar_nome_time ucd_latin1
    (@normalizar_nome_time ucd_latin1
       [32; 83; 227; 111; 32; 32; 80; 97; 117; 108; 111; 47; 83; 80; 33]%N)
  = @normalizar_nome_time ucd_latin1
      [32; 83; 227; 111; 32; 32; 80; 97; 117; 108; 111; 47; 83; 80; 33]%N.
Proof.
  split; [exact ucd_latin1_concorda|].
  apply (normalizar_nome_time_idempotente ucd_latin1). exact ucd_latin1_concorda.
Defined.

(** *** [normalizar_nome_participante] on U+0000..U+00FF *)

Lemma espaco_nao_alfanumerico c :
  (c < 256)%N -> isspace_latin1 c = true -> alfanumerico (sem_acento c) = false.
Proof.
  intros Hc Hs.
  pose proof (latin1_todos
    (fun c => negb (isspace_latin1 c) || negb (alfanumerico (sem_acento c)))
    ltac:(vm_compute; reflexivity) c Hc) as T.
  cbv beta in T. rewrite Hs in T. by apply negb_true_iff in T.
Qed.

Lemma filtro_de_espacos (U : Unicode) (a : str) :
  concorda_latin1 U -> latin1 a ->
  Forall (fun c => isspace c = true) a ->
  List.filter alfanumerico (map sem_acento a) = [].
Proof.
  intros HU Hl Ha. induction a as [|c a IH]; [done|].
  apply Forall_cons in Hl as [Hc Hl]. apply Forall_cons in Ha as [Hs Ha].
  simpl. rewrite (concorda_isspace U HU c Hc) in Hs.
  rewrite (espaco_nao_alfanumerico c Hc Hs). by apply IH.
Qed.

(** X9.  On a name over U+0000..U+00FF, with tables that agree with
    Python's there, [normalizar_nome_participante] is: every character
    replaced by its base letter, then every character other than an
    ASCII letter or a digit dropped. *)
Theorem normalizar_nome_participante_latin1 (U : Unicode) (nome : str) :
  concorda_latin1 U -> latin1 nome ->
  normalizar_nome_participante nome
  = List.filter alfanumerico (map sem_acento nome).
Proof.
  intros HU Hl. destruct nome as [|x nome]; [done|].
  unfold normalizar_nome_participante.
  set (r := x :: nome) in *. clearbody r. cbv zeta.
  destruct (strip_decompoe isspace r) as (a & b & Hr & Ha & Hb).
  set (m := strip isspace r) in *. clearbody m. subst r.
  apply Forall_app in Hl as [Hla Hl]. apply Forall_app in Hl as [Hlm Hlb].
  rewrite (sem_marcas U HU m Hlm).
  rewrite !map_app, !List.filter_app.
  rewrite (filtro_de_espacos U a HU Hla Ha), (filtro_de_espacos U b HU Hlb Hb).
  by rewrite app_nil_r.
Qed.

Lemma normalizar_nome_participante_latin1_witness :
  @normalizar_nome_participante ucd_latin1
    [32; 74; 111; 227; 111; 32; 100; 97; 32; 83; 105; 108; 118; 97; 32; 74; 114; 46]%N
  = List.filter alfanumerico (map sem_acento
    [32; 74; 111; 227; 111; 32; 100; 97; 32; 83; 105; 108; 118; 97; 32; 74; 114; 46]%N).
Proof.
  apply (normalizar_nome_participante_latin1 ucd_latin1).
  - exact ucd_latin1_concorda.
  - unfold latin1. repeat constructor.
Defined.

(** *** What [encontrar_time_similar] can return *)

Lemma procurar_time_correto (U : Unicode) (nome_normalizado : str) (limite : Z)
    (resto : list str) :
  forall melhor menor t,
    procurar_time nome_normalizado limite resto melhor menor = Some t ->
    melhor = Some t \/
    (t ∈ resto /\
     (normalizar_nome_time t = nome_normalizado \/
      (Z.of_nat (distance nome_normalizado (normalizar_nome_time t)) <= limite)%Z)).
Proof.
  induction resto as [|x xs IH]; intros melhor menor t; [by left|].
  cbn [procurar_time]. cbv zeta.
  destruct (Nat.eqb_spec (distance nome_normalizado (normalizar_nome_time x)) 0)
    as [E|E].
  { intros [= <-]. right. split; [by left|]. left.
    symmetry. by apply distance_zero. }
  destruct (Z.leb_spec (Z.of_nat (distance nome_normalizado (normalizar_nome_time x)))
              limite) as [Hd|Hd]; cbn [andb].
  - destruct (menor_que _ menor).
    + intros H. apply IH in H as [[= <-]|(Hin & Ht)].
      * right. split; [by left|by right].
      * right. split; [by right|done].
    + intros H. apply IH in H as [?|(Hin & Ht)]; [by left|].
      right. split; [by right|done].
  - intros H. apply IH in H as [?|(Hin & Ht)]; [by left|].
    right. split; [by right|done].
Qed.

(** When some name of the list has the normalized form searched for,
    the loop returns a name with that form, whatever the limit. *)
Lemma procurar_time_acha (U : Unicode) (nome_normalizado : str) (limite : Z)
    (resto : list str) :
  forall melhor menor,
    (exists t, t ∈ resto /\ normalizar_nome_time t = nome_normalizado) ->
    exists t', procurar_time nome_normalizado limite resto melhor menor = Some t' /\
               t' ∈ resto /\ normalizar_nome_time t' = nome_normalizado.
Proof.
  induction resto as [|x xs IH]; intros melhor menor (t & Hin & Ht).
  { by apply elem_of_nil in Hin. }
  cbn [procurar_time]. cbv zeta.
  destruct (Nat.eqb_spec (distance nome_normalizado (normalizar_nome_time x)) 0)
    as [E|E].
  { exists x. split; [done|]. split; [by left|].
    symmetry. by apply distance_zero. }
  assert (Hxs : exists t, t ∈ xs /\ normalizar_nome_time t = nome_normalizado).
  { exists t. split; [|done]. apply elem_of_cons in Hin as [->|?]; [|done].
    exfalso. apply E. apply distance_zero. by symmetry. }
  destruct (_ && _).
  - destruct (IH (Some x) (Some (distance nome_normalizado (normalizar_nome_time x)))
                Hxs) as (t' & ? & ? & ?).
    exists t'. split_and!; [done|by right|done].
  - destruct (IH melhor menor Hxs) as (t' & ? & ? & ?).
    exists t'. split_and!; [done|by right|done].
Qed.

(** X10.  A name returned by [encontrar_time_similar] for a candidate
    is one of the names of the list, the candidate is not empty, and
    either the two have the same normalized form or their normalized
    forms are within the distance limit. *)
Theorem encontrar_time_similar_correto (U : Unicode) (nome : str)
    (times_validos : list str) (limite : Z) (t : str) :
  encontrar_time_similar nome times_validos limite = Some t ->
  nome <> [] /\ t ∈ times_validos /\
  (normalizar_nome_time t = normalizar_nome_time nome \/
   (Z.of_nat (distance (normalizar_nome_time nome) (normalizar_nome_time t))
    <= limite)%Z).
Proof.
  unfold encontrar_time_similar.
  destruct nome as [|c nome]; [done|].
  destruct times_validos as [|t0 ts]; [done|].
  cbv zeta. intros H. split; [done|].
  by apply procurar_time_correto in H as [?|?].
Qed.

Lemma encontrar_time_similar_correto_witness :
  txt "Flamego" <> [] /\
  txt "Flamengo" ∈ [txt "Palmeiras"; txt "Flamengo"] /\
  (@normalizar_nome_time ucd_latin1 (txt "Flamengo")
   = @normalizar_nome_time ucd_latin1 (txt "Flamego") \/
   (Z.of_nat (distance (@normalizar_nome_time ucd_latin1 (txt "Flamego"))
                       (@normalizar_nome_time ucd_latin1 (txt "Flamengo")))
    <= 3)%Z).
Proof.
  apply (encontrar_time_similar_correto ucd_latin1 (txt "Flamego")
           [txt "Palmeiras"; txt "Flamengo"] 3 (txt "Flamengo")).
  vm_compute. reflexivity.
Defined.

(** When the loop returns nothing, it started with nothing and, if no
    distance had been recorded, every name is beyond the limit. *)
Lemma procurar_time_nada (U : Unicode) (nome_normalizado : str) (limite : Z)
    (resto : list str) :
  forall melhor menor,
    procurar_time nome_normalizado limite resto melhor menor = None ->
    melhor = None /\
    (menor = None ->
     forall t, t ∈ resto ->
       (limite < Z.of_nat (distance nome_normalizado (normalizar_nome_time t)))%Z).
Proof.
  induction resto as [|x xs IH]; intros melhor menor.
  { simpl. intros ->. split; [done|]. intros _ t Ht. by apply elem_of_nil in Ht. }
  cbn [procurar_time]. cbv zeta.
  destruct (Nat.eqb_spec (distance nome_normalizado (normalizar_nome_time x)) 0)
    as [E|E]; [done|].
  destruct (Z.leb_spec (Z.of_nat (distance nome_normalizado (normalizar_nome_time x)))
              limite) as [Hd|Hd]; cbn [andb].
  - destruct (menor_que _ menor) eqn:Em.
    + intros H. by apply IH in H as [? _].
    + intros H. apply IH in H as [-> Hxs]. split; [done|].
      intros ->. done.
  - intros H. apply IH in H as [-> Hxs]. split; [done|].
    intros Hm t Ht. apply elem_of_cons in Ht as [->|Ht]; [done|]. by apply Hxs.
Qed.

(** X21.  For a non-empty candidate and whatever the limit (zero and
    negative limits too): when a name of the list has the normalized
    form of the candidate, [encontrar_time_similar] returns a name of
    the list with that normalized form; and when it returns nothing,
    every name of the list is beyond the limit. *)
Theorem encontrar_time_similar_completo (U : Unicode) (nome : str)
    (times_validos : list str) (limite : Z) :
  nome <> [] ->
  ((exists t, t ∈ times_validos /\
      normalizar_nome_time t = normalizar_nome_time nome) ->
   exists t', encontrar_time_similar nome times_validos limite = Some t' /\
     t' ∈ times_validos /\
     normalizar_nome_time t' = normalizar_nome_time nome) /\
  (encontrar_time_similar nome times_validos limite = None ->
   forall t, t ∈ times_validos ->
     (limite < Z.of_nat (distance (normalizar_nome_time nome)
                                  (normalizar_nome_time t)))%Z).
Proof.
  intros Hnome. destruct nome as [|c nome]; [done|].
  unfold encontrar_time_similar. split.
  - intros (t & Hin & Ht). destruct times_validos as [|t0 ts].
    { by apply elem_of_nil in Hin. }
    cbv zeta. apply procurar_time_acha. by exists t.
  - destruct times_validos as [|t0 ts].
    { intros _ t Ht. by apply elem_of_nil in Ht. }
    cbv zeta. intros H. apply procurar_time_nada in H as [_ H]. by apply H.
Qed.

Lemma encontrar_time_similar_completo_witness :
  ((exists t, t ∈ [txt "Palmeiras"; txt "Flamengo"] /\
      @normalizar_nome_time ucd_latin1 t
      = @normalizar_nome_time ucd_latin1 (txt " FLAMENGO ")) ->
   exists t', @encontrar_time_similar ucd_latin1 (txt " FLAMENGO ")
                [txt "Palmeiras"; txt "Flamengo"] (-1) = Some t' /\
     t' ∈ [txt "Palmeiras"; txt "Flamengo"] /\
     @normalizar_nome_time ucd_latin1 t'
     = @normalizar_nome_time ucd_latin1 (txt " FLAMENGO ")) /\
  (@encontrar_time_similar ucd_latin1 (txt " FLAMENGO ")
     [txt "Palmeiras"; txt "Flamengo"] (-1) = None ->
   forall t, t ∈ [txt "Palmeiras"; txt "Flamengo"] ->
     (-1 < Z.of_nat (distance (@normalizar_nome_time ucd_latin1 (txt " FLAMENGO "))
                              (@normalizar_nome_time ucd_latin1 t)))%Z).
Proof.
  apply (encontrar_time_similar_completo ucd_latin1 (txt " FLAMENGO ")
           [txt "Palmeiras"; txt "Flamengo"] (-1)).
  discriminate.
Defined.

End NormalizacaoExtras.

Module ImportarPalpitesExtras.
Import Normalizacao NormalizacaoProps NormalizacaoExtras
  ImportarPalpites ImportarPalpitesProps ImportarPalpitesNomes.

(** *** The team names of the schedule *)

Lemma elem_of_adicionar_nome (times : gset str) (nome t : str) :
  t ∈ adicionar_nome times nome <-> t ∈ times \/ (t = nome /\ nome <> []).
Proof.
  destruct nome as [|c nome]; simpl.
  - split; [by left|]. by intros [Ht|[_ Hn]].
  - rewrite elem_of_union, elem_of_singleton. split.
    + intros [?| ->]; [by left|by right].
    + intros [?|[-> _]]; [by left|by right].
Qed.

Lemma elem_of_times_jogos (jogos : list Tabela.Jogo) (times : gset str) (t : str) :
  t ∈ fold_left
        (fun times jogo =>
           adicionar_nome (adicionar_nome times (Tabela.mandante jogo))
                          (Tabela.visitante jogo))
        jogos times
  <-> t ∈ times \/
      (t <> [] /\ exists jogo, jogo ∈ jogos /\
         (t = Tabela.mandante jogo \/ t = Tabela.visitante jogo)).
Proof.
  revert times. induction jogos as [|j js IH]; intros times; simpl.
  - split; [by left|]. intros [?|(_ & jogo & Hin & _)]; [done|].
    by apply elem_of_nil in Hin.
  - rewrite IH, !elem_of_adicionar_nome. split.
    + intros [[[Ht|[-> Hn]]|[-> Hn]]|(Ht & jogo & Hin & Hj)].
      * by left.
      * right. split; [done|]. exists j. split; [by left|by left].
      * right. split; [done|]. exists j. split; [by left|by right].
      * right. split; [done|]. exists jogo. split; [by right|done].
    + intros [?|(Ht & jogo & Hin & Hj)]; [by left; left; left|].
      apply elem_of_cons in Hin as [->|Hin].
      * destruct Hj as [->| ->]; left; [left; by right|by right].
      * right. split; [done|]. by exists jogo.
Qed.

Lemma elem_of_times_rodadas (rodadas : list Tabela.Rodada) (times : gset str) (t : str) :
  t ∈ fold_left
        (fun times rodada =>
           fold_left
             (fun times jogo =>
                adicionar_nome (adicionar_nome times (Tabela.mandante jogo))
                               (Tabela.visitante jogo))
             (get (Tabela.jogos rodada) []) times)
        rodadas times
  <-> t ∈ times \/
      (t <> [] /\ exists rodada jogo, rodada ∈ rodadas /\
         jogo ∈ get (Tabela.jogos rodada) [] /\
         (t = Tabela.mandante jogo \/ t = Tabela.visitante jogo)).
Proof.
  revert times. induction rodadas as [|r rs IH]; intros times; simpl.
  - split; [by left|]. intros [?|(_ & rodada & jogo & Hin & _)]; [done|].
    by apply elem_of_nil in Hin.
  - rewrite IH, elem_of_times_jogos. split.
    + intros [[?|(Ht & jogo & Hin & Hj)]|(Ht & rodada & jogo & Hr & Hin & Hj)].
      * by left.
      * right. split; [done|]. exists r, jogo. split; [by left|done].
      * right. split; [done|]. exists rodada, jogo. split; [by right|done].
    + intros [?|(Ht & rodada & jogo & Hr & Hin & Hj)]; [by left; left|].
      apply elem_of_cons in Hr as [->|Hr].
      * left; right. split; [done|]. by exists jogo.
      * right. split; [done|]. by exists rodada, jogo.
Qed.

(** The names of [times_tabela] are the non-empty home and away names
    of the games of the schedule. *)
Lemma elem_of_times_tabela (tabela : Tabela.t) (t : str) :
  t ∈ times_tabela tabela <->
  t <> [] /\ exists rodada jogo,
    rodada ∈ get (Tabela.rodadas tabela) [] /\
    jogo ∈ get (Tabela.jogos rodada) [] /\
    (t = Tabela.mandante jogo \/ t = Tabela.visitante jogo).
Proof.
  unfold times_tabela. rewrite elem_of_times_rodadas.
  split; [intros [H|H]; [by apply elem_of_empty in H|done]|by right].
Qed.

(** *** One name *)

Lemma normalizar_time_resolvido (U : Unicode) (l : list str) (nome : str) :
  resolvido l nome (normalizar_time l nome).
Proof.
  unfold normalizar_time, resolvido.
  destruct nome as [|c nome]; [by left|].
  destruct (encontrar_time_similar (c :: nome) l 3) as [t|] eqn:E; [|by left].
  destruct t as [|d t]; [by left|].
  unfold encontrar_time_similar in E. destruct l as [|t0 ts]; [done|].
  cbv zeta in E. apply procurar_time_correto in E.
  right. split; [done|]. destruct E as [?|(Hin & Hd)]; [done|].
  split; [done|]. destruct Hd as [Hd|Hd]; [by left|right; lia].
Qed.

(** X11.  [normalizar_palpites_times] returns one prediction for each
    prediction given, in order, with the same goal counts, type and
    identifier; each team name is either left as written or replaced by
    a name of the list that has the same normalized form or is within
    distance 3 of it.  Without predictions or without the key
    [rodadas] in the schedule the predictions come back as they are.
    The list searched, when it has the elements of [times_tabela], holds
    the non-empty home and away names of the games of the schedule. *)
Theorem normalizar_palpites_times_conserva (U : Unicode) (l : list str)
    (palpites : list PalpiteBruto.t) (tabela : Tabela.t) :
  Forall2
    (fun p q =>
       PalpiteBruto.gols_mandante q = PalpiteBruto.gols_mandante p /\
       PalpiteBruto.gols_visitante q = PalpiteBruto.gols_visitante p /\
       PalpiteBruto.tipo q = PalpiteBruto.tipo p /\
       PalpiteBruto.identificador q = PalpiteBruto.identificador p /\
       resolvido l (PalpiteBruto.mandante p) (PalpiteBruto.mandante q) /\
       resolvido l (PalpiteBruto.visitante p) (PalpiteBruto.visitante q))
    palpites (normalizar_palpites_times l palpites tabela) /\
  (Tabela.rodadas tabela = None ->
   normalizar_palpites_times l palpites tabela = palpites) /\
  normalizar_palpites_times l [] tabela = [] /\
  ((forall t, t ∈ l <-> t ∈ times_tabela tabela) ->
   forall t, t ∈ l <->
     t <> [] /\ exists rodada jogo,
       rodada ∈ get (Tabela.rodadas tabela) [] /\
       jogo ∈ get (Tabela.jogos rodada) [] /\
       (t = Tabela.mandante jogo \/ t = Tabela.visitante jogo)).
Proof.
  split_and!; [| | |intros Hl t; rewrite Hl; apply elem_of_times_tabela].
  - assert (Hmap : Forall2
      (fun p q =>
         PalpiteBruto.gols_mandante q = PalpiteBruto.gols_mandante p /\
         PalpiteBruto.gols_visitante q = PalpiteBruto.gols_visitante p /\
         PalpiteBruto.tipo q = PalpiteBruto.tipo p /\
         PalpiteBruto.identificador q = PalpiteBruto.identificador p /\
         resolvido l (PalpiteBruto.mandante p) (PalpiteBruto.mandante q) /\
         resolvido l (PalpiteBruto.visitante p) (PalpiteBruto.visitante q))
      palpites (map (normalizar_palpite l) palpites)).
    { apply Forall2_fmap_r, Forall_Forall2_diag, Forall_forall.
      intros p _. simpl. split_and!; try done; apply normalizar_time_resolvido. }
    unfold normalizar_palpites_times.
    destruct palpites as [|p ps]; [constructor|].
    destruct (Tabela.rodadas tabela); [exact Hmap|].
    apply Forall_Forall2_diag, Forall_forall.
    intros q _. split_and!; try done; by left.
  - intros Hr. unfold normalizar_palpites_times. rewrite Hr. by destruct palpites.
  - done.
Qed.

(** *** From the written names to the validated predictions *)

Section Reconhecer.
Context (U : Unicode) (l : list str).
Hypothesis Hinj : forall t t', t ∈ l -> t' ∈ l ->
  normalizar_nome_time t = normalizar_nome_time t' -> t = t'.

(** A written name with the normalized form of a name of the list is
    replaced by that name. *)
Lemma normalizar_time_exato (escrito t : str) :
  escrito <> [] -> t <> [] -> t ∈ l ->
  normalizar_nome_time escrito = normalizar_nome_time t ->
  normalizar_time l escrito = t.
Proof using Hinj.
  intros He Ht Hin Hn. unfold normalizar_time.
  destruct escrito as [|c e]; [done|].
  unfold encontrar_time_similar. destruct l as [|t0 ts] eqn:El.
  { by apply elem_of_nil in Hin. }
  cbv zeta. rewrite <- El in *.
  destruct (procurar_time_acha U (normalizar_nome_time (c :: e)) 3 l None None)
    as (t' & -> & Hin' & Hn'); [by exists t|].
  assert (t' = t) as -> by (apply Hinj; [done|done|congruence]).
  by destruct t.
Qed.

Lemma normalizar_palpite_reconhecivel (jogos : list Tabela.Jogo)
    (palpite : PalpiteBruto.t) :
  (forall jogo, jogo ∈ jogos ->
     (Tabela.mandante jogo <> [] -> Tabela.mandante jogo ∈ l) /\
     (Tabela.visitante jogo <> [] -> Tabela.visitante jogo ∈ l)) ->
  reconhecivel jogos palpite ->
  exists jogo gm gv, jogo ∈ jogos /\
    PalpiteBruto.mandante (normalizar_palpite l palpite) = Tabela.mandante jogo /\
    PalpiteBruto.visitante (normalizar_palpite l palpite) = Tabela.visitante jogo /\
    PalpiteBruto.gols_mandante palpite = Some gm /\
    PalpiteBruto.gols_visitante palpite = Some gv /\
    normalizar_nome_time (Tabela.mandante jogo)
      = normalizar_nome_time (PalpiteBruto.mandante palpite) /\
    normalizar_nome_time (Tabela.visitante jogo)
      = normalizar_nome_time (PalpiteBruto.visitante palpite).
Proof using Hinj.
  intros Hl (Hgm & Hgv & Hm & Hv & jogo & Hin & Hjm & Hjv & Hnm & Hnv).
  destruct (PalpiteBruto.gols_mandante palpite) as [gm|] eqn:Egm; [|done].
  destruct (PalpiteBruto.gols_visitante palpite) as [gv|] eqn:Egv; [|done].
  destruct (Hl jogo Hin) as [Hlm Hlv].
  exists jogo, gm, gv. split_and!; try done.
  - simpl. apply normalizar_time_exato; auto.
  - simpl. apply normalizar_time_exato; auto.
Qed.

End Reconhecer.

(** The outcome of a prediction with both goal counts and the team
    names of a game of the round is a validated prediction. *)
Lemma classifica_com_jogo (rodada : Z) (jogos : list Tabela.Jogo)
    (q : PalpiteBruto.t) (jogo : Tabela.Jogo) (gm gv : Z)
    (resultado : PalpiteValidado.t + Erro) :
  jogo ∈ jogos ->
  PalpiteBruto.mandante q = Tabela.mandante jogo ->
  PalpiteBruto.visitante q = Tabela.visitante jogo ->
  PalpiteBruto.gols_mandante q = Some gm ->
  PalpiteBruto.gols_visitante q = Some gv ->
  classifica rodada jogos q resultado ->
  exists jogo', jogo' ∈ jogos /\
    Tabela.mandante jogo' = Tabela.mandante jogo /\
    Tabela.visitante jogo' = Tabela.visitante jogo /\
    resultado = inl
      {| PalpiteValidado.id := Tabela.id jogo';
         PalpiteValidado.mandante := Tabela.mandante jogo';
         PalpiteValidado.visitante := Tabela.visitante jogo';
         PalpiteValidado.palpite_mandante := gm;
         PalpiteValidado.palpite_visitante := gv;
         PalpiteValidado.tipo := PalpiteBruto.tipo q;
         PalpiteValidado.identificador := PalpiteBruto.identificador q |}.
Proof.
  intros Hin Hm Hv Hgm Hgv Hc.
  destruct Hc as [[E|E]|gm' gv' Hgm' Hgv' Hnone|gm' gv' i jogo' Hgm' Hgv' Hi Hm' Hv' _].
  - congruence.
  - congruence.
  - exfalso. apply (Hnone jogo Hin). by split.
  - exists jogo'. split_and!.
    + by eapply list_elem_of_lookup_2.
    + congruence.
    + congruence.
    + do 2 f_equal; congruence.
Qed.

(** X12.  When the list the names are searched in has the team names
    of the schedule, no two of them with the same normalized form, and
    every prediction has both goal counts and names, in any spelling
    with the same normalized forms, the two teams of a game of the
    target round, then normalizing the names and validating against the
    schedule gives no error and one validated prediction for each
    prediction, in order, with the prediction's goal counts and with the
    id and the team names of such a game. *)
Theorem palpites_reconheciveis_validados (U : Unicode) (l : list str)
    (tabela : Tabela.t) (rodadas : list Tabela.Rodada) (r : Z)
    (rodada : Tabela.Rodada) (palpites : list PalpiteBruto.t) :
  Tabela.rodadas tabela = Some rodadas ->
  procurar_rodada rodadas r = Some rodada ->
  (forall t, t ∈ l <-> t ∈ times_tabela tabela) ->
  (forall t t', t ∈ l -> t' ∈ l ->
     normalizar_nome_time t = normalizar_nome_time t' -> t = t') ->
  Forall (reconhecivel (get (Tabela.jogos rodada) [])) palpites ->
  exists validados,
    validar_palpites_contra_tabela
      (normalizar_palpites_times l palpites tabela) r tabela
    = (validados, []) /\
    Forall2 (validado_de (get (Tabela.jogos rodada) [])) palpites validados.
Proof.
  intros Hrs Hr Hl Hinj Hrec.
  set (jogos := get (Tabela.jogos rodada) []) in *.
  assert (Hrod : rodada ∈ rodadas).
  { unfold procurar_rodada in Hr.
    destruct (list_find _ rodadas) as [[i x]|] eqn:E; [|done].
    injection Hr as ->. apply list_find_Some in E as (Hi & _).
    by eapply list_elem_of_lookup_2. }
  assert (Hjl : forall jogo, jogo ∈ jogos ->
     (Tabela.mandante jogo <> [] -> Tabela.mandante jogo ∈ l) /\
     (Tabela.visitante jogo <> [] -> Tabela.visitante jogo ∈ l)).
  { intros jogo Hin. split; intros Hne; apply Hl, elem_of_times_tabela;
      (split; [done|]); exists rodada, jogo; rewrite Hrs; simpl;
      (split_and!; [done|done|]); [by left|by right]. }
  assert (Hn : normalizar_palpites_times l palpites tabela
               = map (normalizar_palpite l) palpites).
  { unfold normalizar_palpites_times. rewrite Hrs. by destruct palpites. }
  unfold validar_palpites_contra_tabela. rewrite Hrs, Hr, Hn. fold jogos.
  assert (Hfim : forall resultados,
            Forall2 (classifica r jogos) (map (normalizar_palpite l) palpites)
                    resultados ->
            erros_de resultados = [] /\
            Forall2 (validado_de jogos) palpites (validados resultados)).
  { clear Hn. induction palpites as [|p ps IH]; intros resultados Hcl.
    - apply Forall2_nil_inv_l in Hcl as ->. by split; constructor.
    - cbn [map] in Hcl.
      apply Forall2_cons_inv_l in Hcl as (res & ress & Hp & Hps & ->).
      apply Forall_cons in Hrec as [Hrp Hrps].
      destruct (IH Hrps ress Hps) as [IHe IHv].
      destruct (normalizar_palpite_reconhecivel U l Hinj jogos p Hjl Hrp)
        as (jogo & gm & gv & Hin & Hm & Hv & Hgm & Hgv & Hnm & Hnv).
      destruct (classifica_com_jogo r jogos (normalizar_palpite l p) jogo gm gv res
                  Hin Hm Hv Hgm Hgv Hp) as (jogo' & Hin' & Hm' & Hv' & ->).
      simpl. split; [exact IHe|]. constructor; [|exact IHv].
      unfold validado_de. simpl. split_and!; try done; try congruence.
      by exists jogo'. }
  destruct (validar_laco r jogos (map (normalizar_palpite l) palpites) [] [])
    as (resultados & Hcl & ->).
  destruct (Hfim resultados Hcl) as [-> Hv].
  by exists (validados resultados).
Qed.

Lemma palpites_reconheciveis_validados_witness :
  exists validados,
    validar_palpites_contra_tabela
      (@normalizar_palpites_times ucd_latin1 [txt "Palmeiras"; txt "Flamengo"]
         palpites_outra_grafia tabela_exemplo) 1 tabela_exemplo
    = (validados, []) /\
    Forall2 (@validado_de ucd_latin1 (get (Tabela.jogos rodada_exemplo) []))
            palpites_outra_grafia validados.
Proof.
  apply (palpites_reconheciveis_validados ucd_latin1
           [txt "Palmeiras"; txt "Flamengo"] tabela_exemplo [rodada_exemplo] 1
           rodada_exemplo palpites_outra_grafia).
  - reflexivity.
  - reflexivity.
  - intros t. rewrite elem_of_times_tabela. simpl. split.
    + intros Ht. apply elem_of_cons in Ht as [->|Ht];
        [|apply list_elem_of_singleton in Ht as ->];
        (split; [discriminate|]); eexists _, _;
        (split_and!; [by left|by left|]); [by right|by left].
    + intros (_ & rodada & jogo & Hr & Hj & Ht).
      apply list_elem_of_singleton in Hr as ->. simpl in Hj.
      apply list_elem_of_singleton in Hj as ->. simpl in Ht.
      destruct Ht as [-> | ->]; [by right; left|by left].
  - intros t t' Ht Ht' Hn.
    apply elem_of_cons in Ht as [->|Ht];
      [|apply list_elem_of_singleton in Ht as ->];
      (apply elem_of_cons in Ht' as [->|Ht'];
        [|apply list_elem_of_singleton in Ht' as ->]);
      try reflexivity; vm_compute in Hn; discriminate Hn.
  - repeat constructor; try discriminate.
    eexists. split; [by left|]. split_and!; try discriminate; vm_compute; reflexivity.
Defined.

(** *** The extra bets of a round *)

Lemma apostas_extras_atualizar_entrada entrada agora P E :
  apostas_extras (atualizar_entrada entrada agora P E)
  = match E with
    | [] => apostas_extras entrada
    | _ => Some (List.filter (extra_fica E) (get (apostas_extras entrada) []) ++ E)
    end.
Proof. by destruct E. Qed.

Lemma extra_fica_novo E ae : ae ∈ E -> extra_fica E ae = sem_identificador ae.
Proof.
  intros Hin. unfold extra_fica, sem_identificador.
  destruct (PalpiteValidado.identificador ae) as [i|] eqn:Hi; [|done].
  apply bool_decide_eq_false. intros Hn. apply Hn.
  apply elem_of_list_to_set, list_elem_of_omap. by exists ae.
Qed.

Lemma filter_ext_elem_of {A} (f g : A -> bool) (l : list A) :
  (forall x, x ∈ l -> f x = g x) -> List.filter f l = List.filter g l.
Proof.
  induction l as [|x l IH]; intros H; [done|]. simpl.
  rewrite (H x) by (by left). rewrite IH; [done|].
  intros y Hy. apply H. by right.
Qed.

Lemma extras_existentes_atualizada dados r P E agora :
  extras_existentes (atualizar_palpites_participante dados r P E agora) r
  = match E with
    | [] => extras_existentes dados r
    | _ => List.filter (extra_fica E) (extras_existentes dados r) ++ E
    end.
Proof.
  unfold extras_existentes, atualizar_palpites_participante. simpl.
  destruct (list_find _ (get (palpites dados) [])) as [[i e]|] eqn:Hf.
  - erewrite list_find_troca_achado; [|exact Hf|].
    + rewrite apostas_extras_atualizar_entrada. by destruct E.
    + rewrite rodada_atualizar_entrada.
      by apply list_find_Some in Hf as (_ & ? & _).
  - rewrite list_find_acrescenta_achado; [|done|done].
    rewrite apostas_extras_atualizar_entrada. by destruct E.
Qed.

(** X13.  Updating round [r] with the extra bets [E]: with no extra bet
    given, the stored ones stay as they are; otherwise the stored ones
    that have no identifier or an identifier not among the new ones
    stay, followed by [E].  The extra bets of the other rounds do not
    change.  A second update with the same non-empty [E] stores once
    more exactly the bets of [E] that have no identifier. *)
Theorem atualizar_apostas_extras dados r P E agora :
  let dados' := atualizar_palpites_participante dados r P E agora in
  extras_existentes (atualizar_palpites_participante dados r P [] agora) r
    = extras_existentes dados r /\
  (E <> [] ->
   extras_existentes dados' r
   = List.filter (extra_fica E) (extras_existentes dados r) ++ E) /\
  (forall r', r' <> r ->
     extras_existentes dados' r' = extras_existentes dados r') /\
  (E <> [] -> forall P' agora',
     extras_existentes (atualizar_palpites_participante dados' r P' E agora') r
     = List.filter (extra_fica E) (extras_existentes dados r)
       ++ List.filter sem_identificador E ++ E).
Proof.
  intros dados'. subst dados'. split_and!.
  - by rewrite extras_existentes_atualizada.
  - intros HE. rewrite extras_existentes_atualizada. by destruct E.
  - intros r' Hne. unfold extras_existentes, atualizar_palpites_participante. simpl.
    destruct (list_find (fun entrada => rodada entrada = Some r)
                (get (palpites dados) [])) as [[i e]|] eqn:Hf.
    + apply list_find_Some in Hf as (Hi & Hr & _).
      erewrite list_find_troca_ignorado; [done|exact Hi|..].
      * rewrite Hr. congruence.
      * rewrite rodada_atualizar_entrada, Hr. congruence.
    + rewrite list_find_acrescenta_ignorado; [done|]. simpl. congruence.
  - intros HE P' agora'. rewrite !extras_existentes_atualizada.
    destruct E as [|e0 E0]; [done|]. set (E := e0 :: E0) in *.
    rewrite List.filter_app, filter_filter_bool.
    rewrite (filter_ext_elem_of (extra_fica E) sem_identificador E)
      by (intros; by apply extra_fica_novo).
    by rewrite <- app_assoc.
Qed.

(** *** The rounds a participant has entries for *)

Lemma map_insert_mesmo {A B} (f : A -> B) (l : list A) (i : nat) (x y : A) :
  l !! i = Some x -> f y = f x -> map f (<[i := y]> l) = map f l.
Proof.
  revert i. induction l as [|z l IH]; intros i Hi Hf; [done|].
  destruct i as [|i]; simpl in *.
  - injection Hi as ->. by rewrite Hf.
  - by rewrite (IH i).
Qed.

(** X14.  Updating round [r] keeps the sequence of round numbers of the
    stored entries when [r] is among them and adds [r] at its end when
    it is not; so [r] has an entry afterwards, rounds that had one entry
    still have one, and the participant's name and code are kept. *)
Theorem atualizar_palpites_rodadas dados r P E agora :
  let dados' := atualizar_palpites_participante dados r P E agora in
  rodadas_guardadas dados'
    = (if bool_decide (Some r ∈ rodadas_guardadas dados)
       then rodadas_guardadas dados
       else rodadas_guardadas dados ++ [Some r]) /\
  Some r ∈ rodadas_guardadas dados' /\
  (NoDup (rodadas_guardadas dados) -> NoDup (rodadas_guardadas dados')) /\
  apostador dados' = apostador dados /\
  codigo_apostador dados' = codigo_apostador dados.
Proof.
  intros dados'.
  assert (Hseq : rodadas_guardadas dados'
    = (if bool_decide (Some r ∈ rodadas_guardadas dados)
       then rodadas_guardadas dados
       else rodadas_guardadas dados ++ [Some r])).
  { subst dados'. unfold rodadas_guardadas, atualizar_palpites_participante. simpl.
    destruct (list_find _ (get (palpites dados) [])) as [[i e]|] eqn:Hf.
    - apply list_find_Some in Hf as (Hi & Hr & _).
      rewrite bool_decide_eq_true_2.
      + by apply (map_insert_mesmo rodada _ i e).
      + rewrite <- Hr. apply list_elem_of_In, in_map, list_elem_of_In.
        by eapply list_elem_of_lookup_2.
    - apply list_find_None in Hf.
      rewrite bool_decide_eq_false_2.
      + by rewrite map_app.
      + intros Hin. apply list_elem_of_In, in_map_iff in Hin as (e & He & Hin).
        apply list_elem_of_In in Hin.
        by apply (proj1 (Forall_forall _ _) Hf e Hin). }
  split_and!; [exact Hseq| | |done|done].
  - rewrite Hseq. destruct (bool_decide _) eqn:Eb.
    + by apply bool_decide_eq_true in Eb.
    + apply elem_of_app. right. by left.
  - intros Hnd. rewrite Hseq. destruct (bool_decide _) eqn:Eb; [done|].
    apply bool_decide_eq_false in Eb.
    apply NoDup_app. split_and!; [done| |apply NoDup_singleton].
    intros x Hx Hx'. apply list_elem_of_singleton in Hx' as ->. done.
Qed.

End ImportarPalpitesExtras.

Module ParserExtras.
Import Normalizacao Parser ParserProps.

Lemma metade_da_razao (c n : nat) :
  (0 < n)%nat ->
  (1 # 2 <= inject_Z (Z.of_nat c) / inject_Z (Z.of_nat n))%Q ->
  (n <= 2 * c)%nat.
Proof.
  intros Hn H.
  assert (Hpos : (0 < inject_Z (Z.of_nat n))%Q).
  { change 0%Q with (inject_Z 0). rewrite <- Zlt_Qlt. lia. }
  apply (Qmult_le_compat_r _ _ (inject_Z (Z.of_nat n))) in H; [|lra].
  unfold Qdiv in H. rewrite <- Qmult_assoc in H.
  rewrite (Qmult_comm (/ _)), Qmult_inv_r, Qmult_1_r in H by lra.
  unfold Qle, Qmult, inject_Z in H. simpl in H. lia.
Qed.

Section Inferida.
Context {U : Unicode}.
Variable times : gset str.
Hypothesis Hnao_vazio : times ≠ ∅.

(** A number the loop returns is the state's, kept because its score is
    at least 1/2, or the number of a round that scores at least 1/2. *)
Lemma percorrer_correto rs :
  forall mr ms n,
    percorrer_rodadas times rs mr ms = Some n ->
    (mr = Some n /\ (1 # 2 <= ms)%Q) \/
    exists i T, rodada_na_posicao rs i n T /\ (1 # 2 <= score times T)%Q.
Proof using Hnao_vazio.
  induction rs as [|r rs IH]; intros mr ms n.
  { simpl. destruct (Qle_bool (1 # 2) ms) eqn:E; [|done].
    intros ->. left. split; [done|]. by apply Qle_bool_iff. }
  destruct (percorrer_casos times Hnao_vazio r rs mr ms)
    as [[Heq _]|(n0 & T0 & H0 & Hcase)].
  - rewrite Heq. intros H. apply IH in H as [?|(i & T & Hi & Hs)]; [by left|].
    right. exists (S i), T. by split.
  - destruct Hcase as [[Hsub ->]|(_ & _ & ->)].
    + intros [= <-]. right. exists 0%nat, T0. split; [done|].
      rewrite (proj2 (score_um times Hnao_vazio T0) Hsub). unfold Qle. simpl. lia.
    + intros H. apply IH in H as [[[= <-] Hs]|(i & T & Hi & Hs)].
      * right. by exists 0%nat, T0.
      * right. exists (S i), T. by split.
Qed.

End Inferida.

(** X15.  A round number returned by [inferir_rodada] is the number of
    a round of the schedule in which at least half of the teams named
    in the predictions play; and the predictions name some team. *)
Theorem inferir_rodada_correto (U : Unicode) (palpites : list PalpiteBruto.t)
    (tabela : Tabela.t) (n : Z) :
  inferir_rodada palpites tabela = Some n ->
  times_palpites palpites <> ∅ /\
  exists rodadas i T,
    Tabela.rodadas tabela = Some rodadas /\
    rodada_na_posicao rodadas i n T /\
    (1 # 2 <= score (times_palpites palpites) T)%Q /\
    (size (times_palpites palpites)
     <= 2 * size (times_palpites palpites ∩ T))%nat.
Proof.
  unfold inferir_rodada.
  destruct palpites as [|p ps]; [done|].
  destruct (Tabela.rodadas tabela) as [rodadas|]; [|done].
  set (times := times_palpites (p :: ps)).
  destruct (decide (times = ∅)) as [He|Hne]; [done|].
  intros H. split; [done|].
  apply (percorrer_correto times Hne) in H as [[? _]|(i & T & Hi & Hs)]; [done|].
  exists rodadas, i, T. split_and!; [done|done|done|].
  unfold score in Hs. rewrite decide_False in Hs by done.
  apply metade_da_razao; [|done].
  assert (size times ≠ 0%nat); [|lia].
  intros H0. apply size_empty_iff in H0. by apply leibniz_equiv in H0.
Qed.

Lemma inferir_rodada_correto_witness :
  @times_palpites ucd_latin1 palpite_a_b <> ∅ /\
  exists rodadas i T,
    Tabela.rodadas tabela_duas_rodadas = Some rodadas /\
    @rodada_na_posicao ucd_latin1 rodadas i 2 T /\
    (1 # 2 <= score (@times_palpites ucd_latin1 palpite_a_b) T)%Q /\
    (size (@times_palpites ucd_latin1 palpite_a_b)
     <= 2 * size (@times_palpites ucd_latin1 palpite_a_b ∩ T))%nat.
Proof.
  apply (inferir_rodada_correto ucd_latin1 palpite_a_b tabela_duas_rodadas 2).
  vm_compute. reflexivity.
Defined.

End ParserExtras.

Module ProcessarRodadaProps.
Import Pontuacao PontuacaoProps ProcessarResultados ImportarPalpites
  ImportarPalpitesProps ProcessarRodada.

(** *** The predictions of a round, by game id *)

Lemma guardar_palpite_outro (m : gmap string PalpiteValidado.t) p i :
  PalpiteValidado.id p <> i -> guardar_palpite m p !! i = m !! i.
Proof.
  intros Hne. unfold guardar_palpite.
  destruct (String.eqb _ _); [done|]. by rewrite lookup_insert_ne.
Qed.

Lemma guardar_palpite_vazio (m : gmap string PalpiteValidado.t) p :
  guardar_palpite m p !! ""%string = m !! ""%string.
Proof.
  unfold guardar_palpite.
  destruct (String.eqb_spec (PalpiteValidado.id p) "") as [E|E]; [done|].
  by rewrite lookup_insert_ne.
Qed.

(** Two stores that agree on a key still agree on it after the
    predictions of [l], with or without the ones a filter removes, as
    long as the filter keeps the predictions for that key. *)
Lemma guardar_filtrados (f : PalpiteValidado.t -> bool) (l : list PalpiteValidado.t) i :
  (forall p, p ∈ l -> PalpiteValidado.id p = i -> f p = true) ->
  forall m m', m !! i = m' !! i ->
    fold_left guardar_palpite (List.filter f l) m !! i
    = fold_left guardar_palpite l m' !! i.
Proof.
  induction l as [|x l IH]; intros Hf m m' Hm; [done|].
  assert (Hl : forall p, p ∈ l -> PalpiteValidado.id p = i -> f p = true)
    by (intros p Hp; apply Hf; by right).
  cbn [List.filter fold_left].
  destruct (decide (PalpiteValidado.id x = i)) as [Hx|Hx].
  - rewrite (Hf x) by (by left || done). cbn [fold_left].
    apply IH; [done|]. unfold guardar_palpite.
    destruct (String.eqb _ _); [done|]. by rewrite Hx, !lookup_insert_eq.
  - destruct (f x); cbn [fold_left]; apply IH; try done.
    + by rewrite !guardar_palpite_outro.
    + by rewrite guardar_palpite_outro.
Qed.

Lemma guardar_sem_a_chave (l : list PalpiteValidado.t) i :
  i ∉ map PalpiteValidado.id l ->
  forall m, fold_left guardar_palpite l m !! i = m !! i.
Proof.
  induction l as [|x l IH]; intros Hi m; [done|]. cbn [fold_left].
  rewrite IH.
  - apply guardar_palpite_outro. intros E. apply Hi. rewrite <- E. by left.
  - intros Hin. apply Hi. by right.
Qed.

Lemma guardar_ultimo (a b : list PalpiteValidado.t) p :
  PalpiteValidado.id p <> ""%string ->
  PalpiteValidado.id p ∉ map PalpiteValidado.id b ->
  forall m, fold_left guardar_palpite (a ++ p :: b) m !! PalpiteValidado.id p = Some p.
Proof.
  intros Hid Hb m. rewrite fold_left_app. cbn [fold_left].
  rewrite guardar_sem_a_chave by done. unfold guardar_palpite.
  destruct (String.eqb_spec (PalpiteValidado.id p) "") as [E|E]; [done|].
  by rewrite lookup_insert_eq.
Qed.

Lemma obter_dos_existentes dados r :
  obter_palpites_participante_rodada dados r
  = fold_left guardar_palpite (palpites_existentes dados r) ∅.
Proof.
  unfold obter_palpites_participante_rodada, palpites_existentes.
  by destruct (list_find _ _) as [[i e]|].
Qed.

(** X16.  What the import stores, the processing reads: after
    [atualizar_palpites_participante] for round [r] with the validated
    predictions [P] (one for each game id at most),
    [obter_palpites_participante_rodada] gives, for the id of each
    prediction of [P], that prediction; for every other id what it gave
    before; and for every other round the same map as before. *)
Theorem palpites_importados_lidos dados r P E agora :
  let dados' := atualizar_palpites_participante dados r P E agora in
  (NoDup (map PalpiteValidado.id P) ->
   forall p, p ∈ P -> PalpiteValidado.id p <> ""%string ->
     obter_palpites_participante_rodada dados' r !! PalpiteValidado.id p = Some p) /\
  (forall i, i ∉ map PalpiteValidado.id P ->
     obter_palpites_participante_rodada dados' r !! i
     = obter_palpites_participante_rodada dados r !! i) /\
  (forall r', r' <> r ->
     obter_palpites_participante_rodada dados' r'
     = obter_palpites_participante_rodada dados r').
Proof.
  intros dados'. subst dados'. split_and!.
  - intros Hnd p Hp Hid.
    rewrite obter_dos_existentes, palpites_existentes_atualizada.
    apply list_elem_of_split in Hp as (a & b & ->).
    rewrite app_assoc. apply guardar_ultimo; [done|].
    rewrite map_app in Hnd. apply NoDup_app in Hnd as (_ & _ & Hnd).
    cbn [map] in Hnd. by apply NoDup_cons in Hnd as [Hnd _].
  - intros i Hi.
    rewrite !obter_dos_existentes, palpites_existentes_atualizada.
    rewrite fold_left_app, guardar_sem_a_chave by done.
    apply guardar_filtrados; [|done].
    intros p _ <-. unfold fora_dos_novos. apply bool_decide_eq_true.
    by rewrite elem_of_list_to_set.
  - intros r' Hne. rewrite !obter_dos_existentes.
    by rewrite palpites_existentes_outra.
Qed.

(** *** Counting the exact scores *)

Lemma finalizado_com_id_Some jogo i :
  finalizado_com_id jogo = Some i <->
  id jogo = Some i /\ String.eqb i "" = false /\
  status jogo = Some "finalizado"%string.
Proof.
  unfold finalizado_com_id. destruct (id jogo) as [k|]; [|by split; [|intros (?&_)]].
  destruct (String.eqb k "") eqn:Ek.
  - split; [done|]. intros ([= ->] & ? & _). congruence.
  - destruct (bool_decide (status jogo = Some "finalizado"%string)) eqn:Es; simpl.
    + apply bool_decide_eq_true in Es. split.
      * by intros [= <-].
      * by intros ([= ->] & _).
    + apply bool_decide_eq_false in Es. split; [done|]. by intros (_ & _ & ?).
Qed.

Lemma contar_acertos_length jogo i n todos :
  contar_acertos jogo i n todos
  = Z.of_nat (length (List.filter (acertou_exato jogo i n) todos)).
Proof.
  unfold contar_acertos.
  assert (H : forall k,
    fold_left (fun acertos_exatos palpites_participante =>
         if acertou_exato jogo i n palpites_participante
         then acertos_exatos + 1 else acertos_exatos) todos k
    = k + Z.of_nat (length (List.filter (acertou_exato jogo i n) todos))).
  { induction todos as [|pp todos IH]; intros k; simpl; [lia|].
    rewrite IH. destruct (acertou_exato jogo i n pp); simpl; lia. }
  by rewrite H.
Qed.

Lemma contar_passo_outro (acc : gmap string Z) todos n (depois : list JogoRodada.t) i :
  Forall (fun j' => finalizado_com_id (JogoRodada.jogo j') <> Some i) depois ->
  fold_left
    (fun acertos_por_jogo jogo =>
       match finalizado_com_id (JogoRodada.jogo jogo) with
       | None => acertos_por_jogo
       | Some id_jogo =>
         <[ id_jogo := contar_acertos (JogoRodada.jogo jogo) id_jogo n todos ]>
           acertos_por_jogo
       end) depois acc !! i
  = acc !! i.
Proof.
  intros H. revert acc. induction H as [|j depois Hj Hd IH]; intros acc; [done|].
  cbn [fold_left]. rewrite IH.
  destruct (finalizado_com_id (JogoRodada.jogo j)) as [k|]; [|done].
  apply lookup_insert_ne. congruence.
Qed.

(** X17.  [contar_acertos_exatos_por_jogo] has an entry exactly for the
    ids of the finished games that have a non-empty id; the entry of an
    id is, for the last such game with that id, the number of
    participants whose stored prediction for the id has the game's two
    goal counts. *)
Theorem contar_acertos_exatos_spec jogos todos n :
  (forall i,
     is_Some (contar_acertos_exatos_por_jogo jogos todos n !! i) <->
     exists j, j ∈ jogos /\ finalizado_com_id (JogoRodada.jogo j) = Some i) /\
  (forall antes j depois i,
     jogos = antes ++ j :: depois ->
     finalizado_com_id (JogoRodada.jogo j) = Some i ->
     Forall (fun j' => finalizado_com_id (JogoRodada.jogo j') <> Some i) depois ->
     contar_acertos_exatos_por_jogo jogos todos n !! i
     = Some (Z.of_nat (length
               (List.filter (acertou_exato (JogoRodada.jogo j) i n) todos)))).
Proof.
  assert (Hult : forall antes j depois i,
     jogos = antes ++ j :: depois ->
     finalizado_com_id (JogoRodada.jogo j) = Some i ->
     Forall (fun j' => finalizado_com_id (JogoRodada.jogo j') <> Some i) depois ->
     contar_acertos_exatos_por_jogo jogos todos n !! i
     = Some (Z.of_nat (length
               (List.filter (acertou_exato (JogoRodada.jogo j) i n) todos)))).
  { intros antes j depois i -> Hj Hd. unfold contar_acertos_exatos_por_jogo.
    rewrite fold_left_app. cbn [fold_left]. rewrite contar_passo_outro by done.
    rewrite Hj, lookup_insert_eq. by rewrite contar_acertos_length. }
  split; [|exact Hult]. intros i. split.
  - unfold contar_acertos_exatos_por_jogo.
    assert (H : forall acc : gmap string Z,
      is_Some (fold_left
        (fun acertos_por_jogo jogo =>
           match finalizado_com_id (JogoRodada.jogo jogo) with
           | None => acertos_por_jogo
           | Some id_jogo =>
             <[ id_jogo := contar_acertos (JogoRodada.jogo jogo) id_jogo n todos ]>
               acertos_por_jogo
           end) jogos acc !! i) ->
      is_Some (acc !! i) \/
      exists j, j ∈ jogos /\ finalizado_com_id (JogoRodada.jogo j) = Some i).
    { clear Hult. induction jogos as [|j js IH]; intros acc Hs; [by left|].
      cbn [fold_left] in Hs. apply IH in Hs as [Hs|(j' & Hin & Hj')].
      - destruct (finalizado_com_id (JogoRodada.jogo j)) as [k|] eqn:Ek; [|by left].
        destruct (decide (k = i)) as [->|Hne].
        + right. exists j. split; [by left|done].
        + left. by rewrite lookup_insert_ne in Hs.
      - right. exists j'. split; [by right|done]. }
    intros Hs. apply H in Hs as [Hs|?]; [|done].
    rewrite lookup_empty in Hs. by destruct Hs.
  - intros (j & Hin & Hj).
    assert (Hex : exists antes j' depois,
      jogos = antes ++ j' :: depois /\
      finalizado_com_id (JogoRodada.jogo j') = Some i /\
      Forall (fun j'' => finalizado_com_id (JogoRodada.jogo j'') <> Some i) depois).
    { clear Hult. revert j Hin Hj.
      induction jogos as [|x xs IH]; intros j Hin Hj; [by apply elem_of_nil in Hin|].
      destruct (decide (Exists (fun j'' => finalizado_com_id (JogoRodada.jogo j'') = Some i) xs))
        as [Hx|Hx].
      - apply Exists_exists in Hx as (y & Hy & Hyi).
        destruct (IH y Hy Hyi) as (antes & j' & depois & -> & Hj' & Hd).
        by exists (x :: antes), j', depois.
      - exists [], x, xs. split_and!; [done| |].
        + apply elem_of_cons in Hin as [<-|Hin]; [done|].
          exfalso. apply Hx, Exists_exists. by exists j.
        + apply Forall_forall. intros y Hy Hyi.
          apply Hx, Exists_exists. by exists y. }
    destruct Hex as (antes & j' & depois & Hjs & Hj' & Hd).
    rewrite (Hult antes j' depois i Hjs Hj' Hd). by eexists.
Qed.

(** *** One participant's round *)

Lemma calcular_pontuacao_definida palpite resultado regras n :
  exists pontos codigo,
    calcular_pontuacao palpite resultado regras n = Some (pontos, codigo).
Proof.
  destruct (primeira_ou_nenhuma palpite resultado) as [(x & Hx & Hantes)|Hnone].
  - rewrite (calcular_pontuacao_primeira _ _ regras n x Hx Hantes).
    destruct (resposta regras n x) as [p c]. by exists p, c.
  - rewrite (calcular_pontuacao_nenhuma _ _ regras n Hnone). by eexists _, _.
Qed.

(** The loop body on a game: no entry when the game is not [lancavel],
    and otherwise one that says whether the participant predicted it. *)
Lemma pontuar_jogo_casos (pr : gmap string PalpiteValidado.t) arquivo acertos
    (jogo : JogoRodada.t) :
  (lancavel pr jogo = false /\
   pontuar_jogo (JogoRodada.jogo jogo) (como_palpite <$> pr) arquivo acertos
   = Some Ignorado) \/
  (lancavel pr jogo = true /\
   exists i pontos codigo,
     finalizado_com_id (JogoRodada.jogo jogo) = Some i /\
     id (JogoRodada.jogo jogo) = Some i /\
     pontuar_jogo (JogoRodada.jogo jogo) (como_palpite <$> pr) arquivo acertos
     = Some (Lancado pontos codigo (palpitado pr jogo))).
Proof.
  unfold lancavel, palpitado, pontuar_jogo, finalizado_com_id.
  destruct (id (JogoRodada.jogo jogo)) as [i|]; [|by left].
  destruct (String.eqb i ""); [by left|].
  destruct (negb (bool_decide _)); [by left|].
  rewrite lookup_fmap.
  destruct (pr !! i) as [p|] eqn:Hp; simpl.
  - right. split; [done|].
    destruct (calcular_pontuacao_definida (como_palpite p)
                (como_resultado (JogoRodada.jogo jogo))
                (get (regras arquivo) ∅) (get (acertos !! i) 1)) as (pts & cod & ->).
    exists i, pts, cod. simpl.
    split_and!; first [done | by rewrite bool_decide_eq_true_2].
  - destruct (get (obrigatorio (JogoRodada.jogo jogo)) false); [|by left].
    right. split; [done|]. exists i, (-1)%Q, "PA"%string.
    split_and!;
      first [done | rewrite bool_decide_eq_false_2; [done|]; by intros [? ?]].
Qed.

Lemma soma_pontos_snoc js e :
  soma_pontos (js ++ [e]) = (soma_pontos js + ResultadoJogo.pontos e)%Q.
Proof. unfold soma_pontos. by rewrite fold_left_app. Qed.

Lemma laco_lancar (pr : gmap string PalpiteValidado.t) arquivo acertos
    (jogos : list JogoRodada.t) :
  forall js k,
    exists novos,
      fold_left (lancar (como_palpite <$> pr) arquivo acertos) jogos
                (Some (js, soma_pontos js, k))
      = Some (js ++ novos, soma_pontos (js ++ novos),
              k + Z.of_nat (length (List.filter (palpitado pr) jogos))) /\
      Forall2 (entrada_de pr arquivo acertos)
              (List.filter (lancavel pr) jogos) novos.
Proof.
  induction jogos as [|j jogos IH]; intros js k.
  { exists []. simpl. rewrite app_nil_r, Z.add_0_r. split; [done|constructor]. }
  cbn [fold_left List.filter].
  assert (Hpal : palpitado pr j = true -> lancavel pr j = true).
  { unfold palpitado, lancavel.
    destruct (finalizado_com_id (JogoRodada.jogo j)) as [i|]; [|done].
    intros [x Hx]%bool_decide_eq_true. by rewrite Hx. }
  destruct (pontuar_jogo_casos pr arquivo acertos j)
    as [[Hl Hp]|(Hl & i & pts & cod & Hf & Hid & Hp)].
  - rewrite Hl. unfold lancar at 2. cbn [mbind option_bind]. rewrite Hp.
    cbn [mbind option_bind].
    destruct (palpitado pr j) eqn:Epal; [by rewrite Hpal in Hl|].
    apply IH.
  - rewrite Hl. unfold lancar at 2. cbn [mbind option_bind]. rewrite Hp.
    cbn [mbind option_bind]. rewrite Hid. cbn [get].
    set (e := {| ResultadoJogo.id := i;
                 ResultadoJogo.mandante := JogoRodada.mandante j;
                 ResultadoJogo.visitante := JogoRodada.visitante j;
                 ResultadoJogo.pontos := pts;
                 ResultadoJogo.codigo_regra := cod |}).
    replace (soma_pontos js + pts)%Q with (soma_pontos (js ++ [e]))
      by apply soma_pontos_snoc.
    destruct (IH (js ++ [e]) (if palpitado pr j then k + 1 else k))
      as (novos & -> & Hnovos).
    exists (e :: novos). split.
    + rewrite <- app_assoc. cbn [app]. do 2 f_equal.
      destruct (palpitado pr j); cbn [length]; lia.
    + constructor; [|exact Hnovos]. by split_and!.
Qed.


(** *** A participant without predictions *)

Lemma pontuar_jogo_sem_palpites jogo arquivo acertos pontos codigo participou :
  pontuar_jogo jogo (como_palpite <$> (∅ : gmap string PalpiteValidado.t))
               arquivo acertos
  = Some (Lancado pontos codigo participou) ->
  pontos = (-1)%Q /\ codigo = "PA"%string.
Proof.
  unfold pontuar_jogo. destruct (id jogo) as [i|]; [|done].
  destruct (String.eqb i ""); [done|].
  destruct (negb (bool_decide _)); [done|].
  rewrite fmap_empty, lookup_empty.
  destruct (get (obrigatorio jogo) false); [|done].
  by intros [= <- <- _].
Qed.

Lemma soma_de_ausentes (l : list ResultadoJogo.t) :
  Forall (fun e => ResultadoJogo.pontos e = (-1)%Q) l ->
  forall t,
    (fold_left (fun total j => (total + ResultadoJogo.pontos j)%Q) l t
     == t - inject_Z (Z.of_nat (length l)))%Q.
Proof.
  induction 1 as [|e l He Hl IH]; intros t.
  - simpl. unfold Qminus. change (inject_Z 0) with 0%Q. ring.
  - cbn [fold_left length]. rewrite IH, He.
    rewrite Nat2Z.inj_succ, <- Z.add_1_r, inject_Z_plus.
    change (inject_Z 1) with 1%Q. ring.
Qed.

(** X19.  A participant with no stored prediction for the round gets
    one entry for each finished mandatory game with an id, each with
    [-1] point and the code [PA] whatever the rules file says; the
    round's total is minus the number of such games and
    [jogos_participados] is 0. *)
Theorem participante_sem_palpites participante jogos arquivo n acertos :
  obter_palpites_participante_rodada participante n = ∅ ->
  exists res,
    calcular_pontuacao_participante participante jogos arquivo n acertos = Some res /\
    ResultadoParticipante.jogos_participados res = 0 /\
    Forall (fun e => ResultadoJogo.pontos e = (-1)%Q /\
                     ResultadoJogo.codigo_regra e = "PA"%string)
           (ResultadoParticipante.jogos res) /\
    length (ResultadoParticipante.jogos res)
      = length (List.filter (lancavel ∅) jogos) /\
    (ResultadoParticipante.total_rodada res
     == - inject_Z (Z.of_nat (length (List.filter (lancavel ∅) jogos))))%Q.
Proof.
  intros Hvazio. unfold calcular_pontuacao_participante. cbv zeta. rewrite Hvazio.
  destruct (laco_lancar ∅ arquivo acertos jogos [] 0) as (novos & Hl & Hn).
  change (soma_pontos []) with 0%Q in Hl. rewrite Hl. cbn [mbind option_bind app].
  assert (Hpal : List.filter (palpitado ∅) jogos = []).
  { apply filter_nenhum. intros j _. unfold palpitado.
    destruct (finalizado_com_id (JogoRodada.jogo j)); [|done].
    apply bool_decide_eq_false. rewrite lookup_empty. by intros [? ?]. }
  assert (Hpa : Forall (fun e => ResultadoJogo.pontos e = (-1)%Q /\
                                 ResultadoJogo.codigo_regra e = "PA"%string) novos).
  { clear Hl. induction Hn as [|j e js es He Hes IH]; constructor; [|exact IH].
    destruct He as (_ & _ & _ & Hp). by apply pontuar_jogo_sem_palpites in Hp. }
  eexists. split; [reflexivity|]. cbn. split_and!.
  - by rewrite Hpal.
  - exact Hpa.
  - symmetry. by eapply Forall2_length.
  - unfold soma_pontos. rewrite soma_de_ausentes.
    + rewrite (Forall2_length _ _ _ Hn). unfold Qminus. ring.
    + eapply Forall_impl; [exact Hpa|]. by intros e [? _].
Qed.

Lemma participante_sem_palpites_witness :
  exists res,
    calcular_pontuacao_participante
      {| apostador := "Maria"; codigo_apostador := "0001"; palpites := None |}
      [jogo_exemplo] {| regras := None |} 1 ∅ = Some res /\
    ResultadoParticipante.jogos_participados res = 0 /\
    Forall (fun e => ResultadoJogo.pontos e = (-1)%Q /\
                     ResultadoJogo.codigo_regra e = "PA"%string)
           (ResultadoParticipante.jogos res) /\
    length (ResultadoParticipante.jogos res)
      = length (List.filter (lancavel ∅) [jogo_exemplo]) /\
    (ResultadoParticipante.total_rodada res
     == - inject_Z (Z.of_nat (length (List.filter (lancavel ∅) [jogo_exemplo]))))%Q.
Proof.
  apply (participante_sem_palpites
           {| apostador := "Maria"; codigo_apostador := "0001"; palpites := None |}
           [jogo_exemplo] {| regras := None |} 1 ∅).
  reflexivity.
Defined.

(** *** The count of exact hits handed to the scoring function *)

(** X20.  For a finished game with a non-empty id that no later game
    of the round repeats, and a participant of [todos_palpites] whose
    stored prediction has the game's two goal counts: the count that
    [contar_acertos_exatos_por_jogo] stores under the game's id is the
    number [N] of participants of [todos_palpites] with such a
    prediction, it is at least 1, and the loop body scores the
    participant's prediction, an exact score that is not an inverted
    one, by [calcular_pontuacao] with the count [N], as a game the
    participant took part in. *)
Theorem exato_pontuado_com_contagem jogos todos n arquivo antes j depois i participante :
  jogos = antes ++ j :: depois ->
  finalizado_com_id (JogoRodada.jogo j) = Some i ->
  Forall (fun j' => finalizado_com_id (JogoRodada.jogo j') <> Some i) depois ->
  participante ∈ todos ->
  acertou_exato (JogoRodada.jogo j) i n participante = true ->
  let N := Z.of_nat (length (List.filter (acertou_exato (JogoRodada.jogo j) i n) todos)) in
  1 <= N /\
  contar_acertos_exatos_por_jogo jogos todos n !! i = Some N /\
  exists p,
    obter_palpites_participante_rodada participante n !! i = Some p /\
    verificar_resultado_exato (como_palpite p) (como_resultado (JogoRodada.jogo j)) = true /\
    verificar_resultado_inverso (como_palpite p) (como_resultado (JogoRodada.jogo j)) = false /\
    pontuar_jogo (JogoRodada.jogo j)
      (como_palpite <$> obter_palpites_participante_rodada participante n)
      arquivo (contar_acertos_exatos_por_jogo jogos todos n)
    = ('(pontos, codigo_regra) ←
         calcular_pontuacao (como_palpite p) (como_resultado (JogoRodada.jogo j))
           (get (regras arquivo) ∅) N;
       Some (Lancado pontos codigo_regra true)).
Proof.
  intros Hjs Hj Hd Hin Hac N.
  assert (HN : 1 <= N).
  { subst N. assert (Hf : participante ∈ List.filter (acertou_exato (JogoRodada.jogo j) i n) todos)
      by (by apply elem_of_filter_bool).
    destruct (List.filter _ todos); [by apply elem_of_nil in Hf|]. simpl. lia. }
  assert (Hcont : contar_acertos_exatos_por_jogo jogos todos n !! i = Some N).
  { subst jogos. unfold contar_acertos_exatos_por_jogo.
    rewrite fold_left_app. cbn [fold_left]. rewrite contar_passo_outro by done.
    rewrite Hj, lookup_insert_eq. by rewrite contar_acertos_length. }
  split; [exact HN|]. split; [exact Hcont|].
  apply finalizado_com_id_Some in Hj as (Hid & Hne & Hst).
  unfold acertou_exato in Hac.
  destruct (obter_palpites_participante_rodada participante n !! i)
    as [p|] eqn:Hp; [|done].
  exists p.
  assert (Hex : verificar_resultado_exato (como_palpite p)
                  (como_resultado (JogoRodada.jogo j)) = true) by exact Hac.
  split_and!; [done|exact Hex|by apply exato_nao_inverso|].
  unfold pontuar_jogo. rewrite Hid, Hne, Hst.
  rewrite bool_decide_eq_true_2 by done. cbn [negb].
  rewrite lookup_fmap, Hp, Hcont. done.
Qed.

Lemma exato_pontuado_com_contagem_witness :
  contar_acertos_exatos_por_jogo [jogo_exemplo]
    [participante_exemplo "Maria" 2 1; participante_exemplo "Ana" 0 0;
     participante_exemplo "Rui" 2 1] 1 !! "jogo-001"%string
  = Some (Z.of_nat (length (List.filter
             (acertou_exato (JogoRodada.jogo jogo_exemplo) "jogo-001" 1)
             [participante_exemplo "Maria" 2 1; participante_exemplo "Ana" 0 0;
              participante_exemplo "Rui" 2 1]))).
Proof.
  apply (exato_pontuado_com_contagem [jogo_exemplo]
           [participante_exemplo "Maria" 2 1; participante_exemplo "Ana" 0 0;
            participante_exemplo "Rui" 2 1] 1 {| regras := None |}
           [] jogo_exemplo [] "jogo-001" (participante_exemplo "Maria" 2 1)).
  - reflexivity.
  - reflexivity.
  - constructor.
  - by left.
  - vm_compute. reflexivity.
Defined.

End ProcessarRodadaProps.
